(** * The evidence pool of go-kardia (package [evidence], [Pool])

    A shallow embedding of the pool that keeps proof of validator
    misbehaviour between its observation and its inclusion in a block:
    the pending and committed namespaces of the evidence database, the
    list of evidence to gossip, the counter of pending evidence and the
    pruning height and time.

    Machine integers are integers of [Z] with the wrap-around written
    out; the evidence database is a finite map from keys to values, read
    in ascending key order by its iterator; the methods of [Pool] are
    functions from a pool to a pool and a result. *)

From Stdlib Require Import ZArith Ascii.
From stdpp Require Import gmap strings list sorting.

Local Open Scope Z_scope.

(** ** Machine integers and time *)

Module Go.

(** [uint64(x)]: the value of [x] in 64 bits, unsigned. *)
Definition uint64 (x : Z) : Z := x mod 2 ^ 64.

(** [uint32(x)]. *)
Definition uint32 (x : Z) : Z := x mod 2 ^ 32.

Definition maxDuration : Z := 2 ^ 63 - 1.
Definition minDuration : Z := - 2 ^ 63.

(** [time.Second], a [time.Duration] in nanoseconds. *)
Definition Second : Z := 1000000000.

(** A [time.Time] is an instant, counted here in nanoseconds from the
    zero time. [t.Sub(u)] is the duration [t - u], and the largest or the
    smallest duration when [t - u] does not fit in one. *)
Definition Time_Sub (t u : Z) : Z :=
  if maxDuration <? t - u then maxDuration
  else if t - u <? minDuration then minDuration
  else t - u.

(** [t.Add(d)]. *)
Definition Time_Add (t d : Z) : Z := t + d.

(** [t.After(u)]. *)
Definition Time_After (t u : Z) : bool := u <? t.

End Go.

(** ** Evidence, errors and the chain state *)

Definition Bytes : Type := list Byte.byte.

(** [types.Evidence], as far as the pool looks at it: the height and the
    time of the misbehaviour, and the hash that identifies the evidence. *)
Record Evidence : Type := mkEvidence {
  Height : Z;            (* uint64 *)
  Time : Z;              (* time.Time *)
  Hash : Bytes           (* common.Hash *)
}.

Inductive error : Type :=
| errors_New (msg : string)
| ErrInvalidEvidence (ev : Evidence) (reason : error)
| Errorf_w (msg : string) (cause : error).

Inductive result (A : Type) : Type :=
| Ok (a : A)
| Err (e : error).
Arguments Ok {A} a.
Arguments Err {A} e.

(** [ConsensusParams.Evidence]. *)
Record EvidenceParams : Type := mkEvidenceParams {
  MaxAgeNumBlocks : Z;   (* int64 *)
  MaxAgeDuration : Z     (* time.Duration *)
}.

(** [cstate.LatestBlockState], the fields the pool reads. *)
Record LatestBlockState : Type := mkState {
  LastBlockHeight : Z;   (* uint64 *)
  LastBlockTime : Z;     (* time.Time *)
  ConsensusParams_Evidence : EvidenceParams
}.

(** ** Keys of the evidence database *)

Definition baseKeyCommitted : string := "evidence-committed".
Definition baseKeyPending : string := "evidence-pending".

Definition hexDigit (d : Z) : ascii :=
  nth (Z.to_nat d)
    ["0"; "1"; "2"; "3"; "4"; "5"; "6"; "7";
     "8"; "9"; "A"; "B"; "C"; "D"; "E"; "F"]%char "0"%char.

(** The [n] lowest hexadecimal digits of [h], the highest first. *)
Fixpoint hexFixed (n : nat) (h : Z) : string :=
  match n with
  | O => ""
  | S n' => hexFixed n' (h / 16) +:+ String (hexDigit (h mod 16)) ""
  end.

(** [bE]: big endian padded hex, [fmt.Sprintf("%0.16X", h)]. *)
Definition bE (h : Z) : string := hexFixed 16 h.

(** [fmt.Sprintf("%X", hash)]: two digits for each byte. *)
Fixpoint hexUpper (bs : Bytes) : string :=
  match bs with
  | [] => ""
  | b :: bs' => hexFixed 2 (Z.of_N (Byte.to_N b)) +:+ hexUpper bs'
  end.

Definition keySuffix (evidence : Evidence) : string :=
  bE (Height evidence) +:+ "/" +:+ hexUpper (Hash evidence).

Definition keyCommitted (evidence : Evidence) : string :=
  baseKeyCommitted +:+ keySuffix evidence.

Definition keyPending (evidence : Evidence) : string :=
  baseKeyPending +:+ keySuffix evidence.

(** ** The evidence database *)

(** Modelled from the spec: [kaidb.Database], of which the pool has only
    the interface, is the spec's durable store, "ordered byte-key/byte-value
    storage with put, delete, has, and prefix_iterate(prefix) -> ordered
    cursor". The store is a finite map; its operations do not fail, so
    that the branches in which the pool only logs an error of the store
    are not taken, and the cursor ranges over the contents at the time it
    is opened. *)
Module kaidb.

Definition Has (db : gmap string Bytes) (key : string) : bool :=
  bool_decide (is_Some (db !! key)).

Definition Put (db : gmap string Bytes) (key : string) (value : Bytes)
  : gmap string Bytes := <[key := value]> db.

Definition Delete (db : gmap string Bytes) (key : string)
  : gmap string Bytes := delete key db.

Definition key_le (a b : string * Bytes) : Prop := String.le a.1 b.1.

Global Instance key_le_dec : RelDecision key_le.
Proof. intros a b. unfold key_le. apply _. Defined.

(** The records whose key starts with [prefix], by ascending key. *)
Definition NewIterator (db : gmap string Bytes) (prefix : string)
  : list (string * Bytes) :=
  merge_sort key_le
    (filter (λ kv, String.prefix prefix kv.1 = true) (map_to_list db)).

End kaidb.

(** ** The pool *)

Inductive Level : Type := LvlError | LvlInfo | LvlDebug.

(** Modelled from the spec: [clist.CList], the list of evidence to gossip,
    is the spec's "ordered, thread-safe sequence supporting append,
    mid-sequence removal, and blocking-wait-for-next"; here the sequence
    of its elements, from the front to the back. *)
Module clist.

Definition PushBack (l : list Evidence) (ev : Evidence) : list Evidence :=
  l ++ [ev].

End clist.

Record Pool : Type := mkPool {
  logger : list (Level * string);     (* the lines logged so far *)
  evidenceList : list Evidence;       (* clist.CList of evidence *)
  evidenceSize : Z;                   (* uint32, amount of pending evidence *)
  evidenceDB : gmap string Bytes;
  state : LatestBlockState;
  pruningHeight : Z;                  (* uint64 *)
  pruningTime : Z                     (* time.Time *)
}.

Definition logf (lvl : Level) (msg : string) (p : Pool) : Pool :=
  mkPool (logger p ++ [(lvl, msg)]) (evidenceList p) (evidenceSize p)
    (evidenceDB p) (state p) (pruningHeight p) (pruningTime p).

Definition set_evidenceList (l : list Evidence) (p : Pool) : Pool :=
  mkPool (logger p) l (evidenceSize p) (evidenceDB p) (state p)
    (pruningHeight p) (pruningTime p).

Definition set_evidenceSize (n : Z) (p : Pool) : Pool :=
  mkPool (logger p) (evidenceList p) n (evidenceDB p) (state p)
    (pruningHeight p) (pruningTime p).

Definition set_evidenceDB (db : gmap string Bytes) (p : Pool) : Pool :=
  mkPool (logger p) (evidenceList p) (evidenceSize p) db (state p)
    (pruningHeight p) (pruningTime p).

Definition set_pruning (h t : Z) (p : Pool) : Pool :=
  mkPool (logger p) (evidenceList p) (evidenceSize p) (evidenceDB p)
    (state p) h t.

(** [updateState]. *)
Definition updateState (st : LatestBlockState) (p : Pool) : Pool :=
  mkPool (logger p) (evidenceList p) (evidenceSize p) (evidenceDB p) st
    (pruningHeight p) (pruningTime p).

Definition Size (p : Pool) : Z := evidenceSize p.

(** [isExpired]: whether a height and a time are older than the evidence
    parameters of the consensus allow. *)
Definition isExpired (p : Pool) (height time : Z) : bool :=
  let params := ConsensusParams_Evidence (state p) in
  let ageDuration := Go.Time_Sub (LastBlockTime (state p)) time in
  let ageNumBlocks := Go.uint64 (LastBlockHeight (state p) - height) in
  (Go.uint64 (MaxAgeNumBlocks params) <? ageNumBlocks)
  && (MaxAgeDuration params <? ageDuration).

Definition isPending (p : Pool) (evidence : Evidence) : bool :=
  kaidb.Has (evidenceDB p) (keyPending evidence).

Definition isCommitted (p : Pool) (evidence : Evidence) : bool :=
  kaidb.Has (evidenceDB p) (keyCommitted evidence).

(** ** The collaborators of the pool

    The pool calls code that lies outside of it: the protobuf encoding of
    evidence, the printing of a hash and the verification of evidence
    against the validators of its height. They are parameters of the
    development; nothing is assumed of them. *)

Class Collaborators : Type := {
  EvidencePB : Type;                                 (* kproto.Evidence *)
  pb_Unmarshal : Bytes -> result EvidencePB;         (* evp.Unmarshal(bz) *)
  pb_Marshal : EvidencePB -> result Bytes;           (* evpb.Marshal() *)
  EvidenceFromProto : EvidencePB -> result Evidence; (* types.EvidenceFromProto *)
  EvidenceToProto : Evidence -> result EvidencePB;   (* types.EvidenceToProto *)
  EvidenceData_Size : list EvidencePB -> Z;          (* kproto.EvidenceData.Size() *)
  UInt64Value_Marshal : Z -> result Bytes;           (* proto.Marshal(&gogotypes.UInt64Value{..}) *)
  Hash_String : Bytes -> string;                     (* common.Hash.String() *)
  verify : Pool -> Evidence -> option error          (* evpool.verify(ev) *)
}.

Global Instance byte_eq_dec : EqDecision Byte.byte := Byte.byte_eq_dec.

(** The outcome of a call that may panic. *)
Inductive outcome (A : Type) : Type :=
| Returned (a : A)
| Panicked (msg : string).
Arguments Returned {A} a.
Arguments Panicked {A} msg.

Section PoolMethods.

Context `{C : Collaborators}.

Definition evMapKey (ev : Evidence) : string := Hash_String (Hash ev).

Definition bytesToEv (evBytes : Bytes) : result Evidence :=
  match pb_Unmarshal evBytes with
  | Err err => Err err
  | Ok evpb => EvidenceFromProto evpb
  end.

(** [removeEvidenceFromList]: the elements of the list whose hash is in
    the map are removed from it. *)
Definition removeEvidenceFromList (blockEvidenceMap : gset string)
    (p : Pool) : Pool :=
  set_evidenceList
    (filter (λ ev, evMapKey ev ∉ blockEvidenceMap) (evidenceList p)) p.

Definition removePendingEvidence (evidence : Evidence) (p : Pool) : Pool :=
  let key := keyPending evidence in
  let p := set_evidenceDB (kaidb.Delete (evidenceDB p) key) p in
  let p := set_evidenceSize
             (Go.uint32 (evidenceSize p + (2 ^ 32 - 1))) p in
  logf LvlInfo "Deleted pending evidence" p.

Definition addPendingEvidence (ev : Evidence) (p : Pool)
  : Pool * option error :=
  match EvidenceToProto ev with
  | Err err => (p, Some (Errorf_w "unable to convert to proto, err: %w" err))
  | Ok evpb =>
    match pb_Marshal evpb with
    | Err err => (p, Some (Errorf_w "unable to marshal evidence: %w" err))
    | Ok evBytes =>
      let key := keyPending ev in
      let p := set_evidenceDB (kaidb.Put (evidenceDB p) key evBytes) p in
      (set_evidenceSize (Go.uint32 (evidenceSize p + 1)) p, None)
    end
  end.

(** The loop of [listEvidence] over the records left under the cursor;
    [evidence], [evList] and [totalSize] are the variables of the
    method. *)
Fixpoint listEvidence_loop (maxBytes : Z) (iter : list (string * Bytes))
    (evidence : list Evidence) (evList : list EvidencePB) (totalSize : Z)
  : list Evidence * Z * option error :=
  match iter with
  | [] => (evidence, totalSize, None)
  | (_, value) :: iter' =>
    match pb_Unmarshal value with
    | Err err => (evidence, totalSize, Some err)
    | Ok evp =>
      let evList := evList ++ [evp] in
      let evSize := EvidenceData_Size evList in
      if negb (maxBytes =? -1) && (maxBytes <? evSize)
      then (evidence, totalSize, None)
      else
        match EvidenceFromProto evp with
        | Err err => ([], totalSize, Some err)
        | Ok ev => listEvidence_loop maxBytes iter' (evidence ++ [ev])
                     evList evSize
        end
    end
  end.

(** [listEvidence]: evidence from oldest to newest within [maxBytes];
    if [maxBytes] is -1 there is no cap on the size. *)
Definition listEvidence (p : Pool) (prefixKey : string) (maxBytes : Z)
  : list Evidence * Z * option error :=
  listEvidence_loop maxBytes (kaidb.NewIterator (evidenceDB p) prefixKey)
    [] [] 0.

Definition PendingEvidence (p : Pool) (maxBytes : Z)
  : Pool * (list Evidence * Z) :=
  if Size p =? 0 then (p, ([], 0))
  else
    let '(evidence, size, err) := listEvidence p baseKeyPending maxBytes in
    match err with
    | Some _ =>
      (logf LvlError "Unable to retrieve pending evidence" p,
       (evidence, size))
    | None => (p, (evidence, size))
    end.

Definition removeMarked (blockEvidenceMap : gset string) (p : Pool) : Pool :=
  if decide (blockEvidenceMap = ∅) then p
  else removeEvidenceFromList blockEvidenceMap p.

(** The loop of [removeExpiredPendingEvidence] over the records left
    under the cursor. *)
Fixpoint removeExpired_loop (iter : list (string * Bytes))
    (blockEvidenceMap : gset string) (p : Pool) : Pool * (Z * Z) :=
  match iter with
  | [] =>
    let p := removeMarked blockEvidenceMap p in
    (p, (LastBlockHeight (state p), LastBlockTime (state p)))
  | (_, value) :: iter' =>
    match bytesToEv value with
    | Err _ =>
      removeExpired_loop iter' blockEvidenceMap
        (logf LvlError "Error in transition evidence from protobuf" p)
    | Ok ev =>
      if negb (isExpired p (Height ev) (Time ev)) then
        let p := removeMarked blockEvidenceMap p in
        let maxAgeNumBlocks :=
          MaxAgeNumBlocks (ConsensusParams_Evidence (state p)) in
        (p,
         (Go.uint64 (Height ev + Go.uint64 maxAgeNumBlocks + 1),
          Go.Time_Add
            (Go.Time_Add (Time ev)
               (MaxAgeDuration (ConsensusParams_Evidence (state p))))
            Go.Second))
      else
        removeExpired_loop iter' ({[evMapKey ev]} ∪ blockEvidenceMap)
          (removePendingEvidence ev p)
    end
  end.

Definition removeExpiredPendingEvidence (p : Pool) : Pool * (Z * Z) :=
  removeExpired_loop (kaidb.NewIterator (evidenceDB p) baseKeyPending) ∅ p.

(** [AddEvidence] checks the evidence is valid and adds it to the pool. *)
Definition AddEvidence (ev : Evidence) (p : Pool) : Pool * option error :=
  let p := logf LvlDebug "Attempting to add evidence" p in
  if isPending p ev then
    (logf LvlInfo "Evidence already pending, ignoring this one" p, None)
  else if isCommitted p ev then
    (logf LvlDebug "Evidence was already committed, ignoring this one" p,
     None)
  else
    match verify p ev with
    | Some err => (p, Some (ErrInvalidEvidence ev err))
    | None =>
      match addPendingEvidence ev p with
      | (p, Some err) =>
        (p, Some (Errorf_w "can't add evidence to pending list: %w" err))
      | (p, None) =>
        let p := set_evidenceList (clist.PushBack (evidenceList p) ev) p in
        (logf LvlInfo "Verified new evidence of byzantine behaviour" p,
         None)
      end
    end.

(** [AddEvidenceFromConsensus]: for the consensus, which adds evidence
    to the pool without the need for verification. *)
Definition AddEvidenceFromConsensus (ev : Evidence) (p : Pool)
  : Pool * option error :=
  if isPending p ev then
    (logf LvlInfo "Evidence already pending, ignoring this one" p, None)
  else
    match addPendingEvidence ev p with
    | (p, Some err) =>
      (p, Some (Errorf_w "can't add evidence to pending list: %w" err))
    | (p, None) =>
      let p := set_evidenceList (clist.PushBack (evidenceList p) ev) p in
      (logf LvlInfo "Verified new evidence of byzantine behavior" p, None)
    end.

Definition fastCheck (p : Pool) (ev : Evidence) : bool := isPending p ev.

(** What [CheckEvidence] does with one item before it looks for a
    duplicate of it. *)
Definition checkOne (ev : Evidence) (p : Pool) : Pool * option error :=
  if fastCheck p ev then (p, None)
  else if isCommitted p ev then
    (p, Some (ErrInvalidEvidence ev
                (errors_New "evidence was already committed")))
  else
    match verify p ev with
    | Some err => (p, Some (ErrInvalidEvidence ev err))
    | None =>
      let p :=
        match addPendingEvidence ev p with
        | (p, Some _) =>
          logf LvlError "Can't add evidence to pending list" p
        | (p, None) => p
        end in
      (logf LvlInfo "Verified new evidence of byzantine behavior" p, None)
    end.

(** The loop of [CheckEvidence]; [hashes] holds the hashes of the items
    before the current one. *)
Fixpoint CheckEvidence_loop (evList : list Evidence) (hashes : list Bytes)
    (p : Pool) : Pool * option error :=
  match evList with
  | [] => (p, None)
  | ev :: evList' =>
    match checkOne ev p with
    | (p, Some err) => (p, Some err)
    | (p, None) =>
      if existsb (λ h, bool_decide (h = Hash ev)) hashes then
        (p, Some (ErrInvalidEvidence ev (errors_New "duplicate evidence")))
      else CheckEvidence_loop evList' (hashes ++ [Hash ev]) p
    end
  end.

Definition CheckEvidence (evList : list Evidence) (p : Pool)
  : Pool * option error :=
  CheckEvidence_loop evList [] p.

(** One turn of the loop of [markEvidenceAsCommitted]. *)
Definition markOne (acc : Pool * gset string) (ev : Evidence)
  : Pool * gset string :=
  let '(p, blockEvidenceMap) := acc in
  let '(p, blockEvidenceMap) :=
    if isPending p ev
    then (removePendingEvidence ev p, {[evMapKey ev]} ∪ blockEvidenceMap)
    else (p, blockEvidenceMap) in
  let key := keyCommitted ev in
  match UInt64Value_Marshal (Height ev) with
  | Err _ =>
    (logf LvlError "failed to marshal committed evidence" p,
     blockEvidenceMap)
  | Ok evBytes =>
    (set_evidenceDB (kaidb.Put (evidenceDB p) key evBytes) p,
     blockEvidenceMap)
  end.

(** [markEvidenceAsCommitted] marks the evidence of a block as committed
    and removes it from the pending database. *)
Definition markEvidenceAsCommitted (evidence : list Evidence) (p : Pool)
  : Pool :=
  let '(p, blockEvidenceMap) := foldl markOne (p, ∅) evidence in
  removeMarked blockEvidenceMap p.

(** [Update] takes the latest state and prunes the expired evidence. *)
Definition Update (st : LatestBlockState) (ev : list Evidence) (p : Pool)
  : outcome Pool :=
  if LastBlockHeight st <=? LastBlockHeight (state p) then
    Panicked "Failed EvidencePool.Update new state height is less than or equal to previous state height"
  else
    let p := logf LvlInfo "Updating evidence pool" p in
    let p := updateState st p in
    let p := markEvidenceAsCommitted ev p in
    if (0 <? Size p) && (pruningHeight p <? LastBlockHeight st)
       && Go.Time_After (LastBlockTime st) (pruningTime p)
    then
      let '(p, (h, t)) := removeExpiredPendingEvidence p in
      Returned (set_pruning h t p)
    else Returned p.

(** [NewPool]: the pool over an evidence database that may hold pending
    evidence of an earlier run; [st] is the state that the state store
    loads. *)
Definition NewPool (st : LatestBlockState) (evidenceDB : gmap string Bytes)
  : result Pool :=
  let evpool := mkPool [] [] 0 evidenceDB st 0 0 in
  let '(evpool, (h, t)) := removeExpiredPendingEvidence evpool in
  let evpool := set_pruning h t evpool in
  let '(evList, _, err) := listEvidence evpool baseKeyPending (-1) in
  match err with
  | Some err => Err err
  | None =>
    let evpool :=
      set_evidenceSize (Go.uint32 (Z.of_nat (length evList))) evpool in
    Ok (set_evidenceList
          (foldl clist.PushBack (evidenceList evpool) evList) evpool)
  end.

End PoolMethods.

(** ** The vocabulary of the statements *)

(** Two pools that differ at most by the lines logged. *)
Definition sameButLog (p p' : Pool) : Prop :=
  evidenceList p' = evidenceList p
  ∧ evidenceSize p' = evidenceSize p
  ∧ evidenceDB p' = evidenceDB p
  ∧ state p' = state p
  ∧ pruningHeight p' = pruningHeight p
  ∧ pruningTime p' = pruningTime p.

(** The pruning height and time of two pools are the same. *)
Definition samePruning (p p' : Pool) : Prop :=
  pruningHeight p' = pruningHeight p ∧ pruningTime p' = pruningTime p.

(** No evidence is pending and committed at once. *)
Definition namespacesDisjoint (db : gmap string Bytes) : Prop :=
  ∀ ev, kaidb.Has db (keyPending ev) = true →
        kaidb.Has db (keyCommitted ev) = true → False.

Definition isInvalidEvidence (e : error) : bool :=
  match e with
  | ErrInvalidEvidence _ _ => true
  | _ => false
  end.

Section Vocabulary.

Context `{C : Collaborators}.

(** The bytes that [addPendingEvidence] writes for a piece of evidence,
    or the error of the encoding. *)
Definition encodeEvidence (ev : Evidence) : result Bytes :=
  match EvidenceToProto ev with
  | Err err => Err err
  | Ok evpb => pb_Marshal evpb
  end.

(** Every pending record that can be read back lies under the pending
    key of its evidence. *)
Definition pendingWellKeyed (db : gmap string Bytes) : Prop :=
  ∀ k v ev,
    db !! k = Some v → String.prefix baseKeyPending k = true →
    bytesToEv v = Ok ev → k = keyPending ev.

(** The evidence read from the records of a scan, those that cannot be
    read left out. *)
Definition readable (iter : list (string * Bytes)) : list Evidence :=
  omap (λ kv, match bytesToEv kv.2 with
              | Ok ev => Some ev
              | Err _ => None
              end) iter.

(** The expired evidence that a scan passes before its first evidence
    that is not expired. *)
Fixpoint expiredPrefix (p : Pool) (evs : list Evidence) : list Evidence :=
  match evs with
  | [] => []
  | ev :: evs' =>
    if isExpired p (Height ev) (Time ev)
    then ev :: expiredPrefix p evs'
    else []
  end.

(** The first evidence of a scan that is not expired. *)
Fixpoint firstSurvivor (p : Pool) (evs : list Evidence) : option Evidence :=
  match evs with
  | [] => None
  | ev :: evs' =>
    if isExpired p (Height ev) (Time ev)
    then firstSurvivor p evs'
    else Some ev
  end.

End Vocabulary.

(** ** The invariants of the pool *)

(** The number of records in the pending namespace. *)
Definition pendingCount (db : gmap string Bytes) : nat :=
  length (kaidb.NewIterator db baseKeyPending).

(** The counter of the pool is the number of pending records, and fits in
    32 bits. *)
Definition sizeIsCount (p : Pool) : Prop :=
  evidenceSize p = Z.of_nat (pendingCount (evidenceDB p))
  ∧ evidenceSize p < 2 ^ 32.

(** Every piece of evidence in the list of evidence is pending in the
    store. *)
Definition listedArePending (p : Pool) : Prop :=
  ∀ ev, ev ∈ evidenceList p → isPending p ev = true.

Section Invariants.

Context `{C : Collaborators}.

(** What is written for a piece of evidence reads back as that evidence. *)
Definition codecRoundTrip : Prop :=
  ∀ ev bz, encodeEvidence ev = Ok bz → bytesToEv bz = Ok ev.

(** Every pending record can be read. *)
Definition allPendingReadable (db : gmap string Bytes) : Prop :=
  Forall (λ kv : string * Bytes, ∃ ev, bytesToEv kv.2 = Ok ev)
    (kaidb.NewIterator db baseKeyPending).

(** The evidence read from the pending records has a height of 64 bits. *)
Definition pendingHeightsInRange (db : gmap string Bytes) : Prop :=
  ∀ k v ev,
    db !! k = Some v → String.prefix baseKeyPending k = true →
    bytesToEv v = Ok ev → 0 <= Height ev < 2 ^ 64.

End Invariants.

(** ** A small instance of the collaborators, for the examples

    Evidence is written as the low byte of its height, the low byte of its
    time and its hash; every piece of evidence verifies. *)

Module Examples.

Definition lowByte (x : Z) : Byte.byte :=
  default Byte.x00 (Byte.of_N (Z.to_N (x mod 256))).

Definition marshal (ev : Evidence) : result Bytes :=
  Ok (lowByte (Height ev) :: lowByte (Time ev) :: Hash ev).

Definition unmarshal (bz : Bytes) : result Evidence :=
  match bz with
  | h :: t :: hash =>
    Ok (mkEvidence (Z.of_N (Byte.to_N h)) (Z.of_N (Byte.to_N t)) hash)
  | _ => Err (errors_New "unexpected EOF")
  end.

Definition sizeOf (l : list Evidence) : Z :=
  foldr (λ ev n, 4 + Z.of_nat (length (Hash ev)) + n) 0 l.

Definition accepting : Collaborators := {|
  EvidencePB := Evidence;
  pb_Unmarshal := unmarshal;
  pb_Marshal := marshal;
  EvidenceFromProto := Ok;
  EvidenceToProto := Ok;
  EvidenceData_Size := sizeOf;
  UInt64Value_Marshal := λ h, Ok [Byte.x08; lowByte h];
  Hash_String := hexUpper;
  verify := λ _ _, None
|}.

(** The same, with a verification that rejects every piece of evidence. *)
Definition rejecting : Collaborators := {|
  EvidencePB := Evidence;
  pb_Unmarshal := unmarshal;
  pb_Marshal := marshal;
  EvidenceFromProto := Ok;
  EvidenceToProto := Ok;
  EvidenceData_Size := sizeOf;
  UInt64Value_Marshal := λ h, Ok [Byte.x08; lowByte h];
  Hash_String := hexUpper;
  verify := λ _ _, Some (errors_New "invalid signature")
|}.

(** The same as [accepting], with an encoding that fails. *)
Definition unwritable : Collaborators := {|
  EvidencePB := Evidence;
  pb_Unmarshal := unmarshal;
  pb_Marshal := λ _, Err (errors_New "cannot marshal");
  EvidenceFromProto := Ok;
  EvidenceToProto := Ok;
  EvidenceData_Size := sizeOf;
  UInt64Value_Marshal := λ h, Ok [Byte.x08; lowByte h];
  Hash_String := hexUpper;
  verify := λ _ _, None
|}.

Definition params : EvidenceParams := mkEvidenceParams 1 10.

Definition ev1 : Evidence := mkEvidence 10 100 [Byte.x01].
Definition ev2 : Evidence := mkEvidence 11 100 [Byte.x02].
Definition ev3 : Evidence := mkEvidence 12 200 [Byte.x03].

(** A pool at height 5 with an empty evidence database. *)
Definition empty : Pool :=
  mkPool [] [] 0 ∅ (mkState 5 50 params) 5 50.

Definition add (ev : Evidence) (p : Pool) : Pool :=
  (AddEvidenceFromConsensus (C := accepting) ev p).1.

(** A pool at height 14 and time 120 where [ev1], [ev2] and [ev3] are
    pending: the first two are expired, the third is old in blocks and
    young in time. *)
Definition stocked : Pool :=
  updateState (mkState 14 120 params) (add ev3 (add ev2 (add ev1 empty))).

(** Evidence of height 10 seen at time 95, and a pool at height 100 and
    time 100, pruned at that height and time, where it is pending. *)
Definition evOld : Evidence := mkEvidence 10 95 [Byte.x04].

Definition aged : Pool :=
  mkPool [] [evOld] 1
    {[keyPending evOld := [Byte.x0a; Byte.x5f; Byte.x04]]}
    (mkState 100 100 params) 100 100.

(** A pool whose first pending record cannot be read; the second is
    the record of [ev2]. *)
Definition damaged : Pool :=
  mkPool [] [] 2
    {[ "evidence-pending000000000000000A/01" := [Byte.x0a];
       keyPending ev2 := [Byte.x0b; Byte.x64; Byte.x02] ]}
    (mkState 5 50 params) 5 50.

Definition returned (o : outcome Pool) : Pool :=
  match o with
  | Returned p => p
  | Panicked _ => empty
  end.

End Examples.

(** ** An instance of the collaborators whose encoding is faithful

    The encoding of [Examples.accepting] keeps the low byte of the height
    and of the time; this one fails on evidence whose height or time does
    not fit in a byte, so that what it writes reads back as what was
    written. *)
Module Faithful.

Definition marshal (ev : Evidence) : result Bytes :=
  if (0 <=? Height ev) && (Height ev <? 256)
     && (0 <=? Time ev) && (Time ev <? 256)
  then Examples.marshal ev
  else Err (errors_New "value out of range").

Definition codec : Collaborators := {|
  EvidencePB := Evidence;
  pb_Unmarshal := Examples.unmarshal;
  pb_Marshal := marshal;
  EvidenceFromProto := Ok;
  EvidenceToProto := Ok;
  EvidenceData_Size := Examples.sizeOf;
  UInt64Value_Marshal := λ h, Ok [Byte.x08; Examples.lowByte h];
  Hash_String := hexUpper;
  verify := λ _ _, None
|}.

End Faithful.

(** ** The evidence database: lookups and the cursor *)

Section Database.

Implicit Types (db : gmap string Bytes) (k prefix : string) (v : Bytes).

Lemma Has_true db k : kaidb.Has db k = true ↔ is_Some (db !! k).
Proof. unfold kaidb.Has. apply bool_decide_eq_true. Qed.

Lemma Has_false db k : kaidb.Has db k = false ↔ db !! k = None.
Proof.
  unfold kaidb.Has. rewrite bool_decide_eq_false.
  by rewrite eq_None_not_Some.
Qed.

Lemma Has_Put db k v k' :
  kaidb.Has (kaidb.Put db k v) k' = bool_decide (k = k') || kaidb.Has db k'.
Proof.
  unfold kaidb.Has, kaidb.Put. destruct (decide (k = k')) as [->|Hk].
  - rewrite lookup_insert_eq, (bool_decide_true (k' = k')) by done.
    by apply bool_decide_eq_true.
  - by rewrite lookup_insert_ne, (bool_decide_false (k = k')).
Qed.

Lemma Has_Delete db k k' :
  kaidb.Has (kaidb.Delete db k) k'
  = negb (bool_decide (k = k')) && kaidb.Has db k'.
Proof.
  unfold kaidb.Has, kaidb.Delete. destruct (decide (k = k')) as [->|Hk].
  - rewrite lookup_delete_eq, (bool_decide_true (k' = k')) by done.
    apply bool_decide_eq_false. by intros [? ?].
  - by rewrite lookup_delete_ne, (bool_decide_false (k = k')).
Qed.

Global Instance key_le_total : Total kaidb.key_le.
Proof. intros a b. unfold kaidb.key_le. apply total, _. Qed.

Global Instance key_le_trans : Transitive kaidb.key_le.
Proof. intros a b c. unfold kaidb.key_le. apply transitivity. Qed.

(** The cursor yields exactly the records of the store under the prefix. *)
Lemma elem_of_NewIterator db prefix k v :
  (k, v) ∈ kaidb.NewIterator db prefix
  ↔ db !! k = Some v ∧ String.prefix prefix k = true.
Proof.
  unfold kaidb.NewIterator.
  rewrite merge_sort_Permutation, list_elem_of_filter, elem_of_map_to_list.
  simpl. tauto.
Qed.

(** It yields them by ascending key. *)
Lemma NewIterator_sorted db prefix :
  StronglySorted kaidb.key_le (kaidb.NewIterator db prefix).
Proof. unfold kaidb.NewIterator. apply StronglySorted_merge_sort; apply _. Qed.

(** It yields each key once. *)
Lemma NewIterator_NoDup db prefix :
  NoDup (kaidb.NewIterator db prefix).*1.
Proof.
  unfold kaidb.NewIterator. rewrite merge_sort_Permutation.
  pose proof (NoDup_fst_map_to_list db) as Hnd.
  induction (map_to_list db) as [|[k v] l IH]; simpl; [constructor|].
  apply NoDup_cons in Hnd as [Hk Hl].
  rewrite filter_cons. case_decide; simpl; [|by auto].
  apply NoDup_cons. split; [|by auto].
  intros Hin. apply Hk. apply list_elem_of_fmap in Hin as [[k' v'] [-> Hin]].
  apply list_elem_of_filter in Hin as [_ Hin].
  apply list_elem_of_fmap. by exists (k', v').
Qed.

End Database.

(** ** What each method leaves alone *)

Section Frame.

Context `{C : Collaborators}.

Lemma removeMarked_frame m p :
  logger (removeMarked m p) = logger p
  ∧ evidenceSize (removeMarked m p) = evidenceSize p
  ∧ evidenceDB (removeMarked m p) = evidenceDB p
  ∧ state (removeMarked m p) = state p
  ∧ pruningHeight (removeMarked m p) = pruningHeight p
  ∧ pruningTime (removeMarked m p) = pruningTime p.
Proof. unfold removeMarked. by case_decide. Qed.

Lemma removeExpired_loop_frame iter m p :
  let p' := (removeExpired_loop iter m p).1 in
  state p' = state p ∧ pruningHeight p' = pruningHeight p
  ∧ pruningTime p' = pruningTime p.
Proof.
  revert m p. induction iter as [|[k v] iter IH]; intros m p; simpl.
  - destruct (removeMarked_frame m p) as (_ & _ & _ & ? & ? & ?). done.
  - destruct (bytesToEv v) as [ev|e].
    + destruct (isExpired p (Height ev) (Time ev)); simpl.
      * destruct (IH ({[evMapKey ev]} ∪ m) (removePendingEvidence ev p))
          as (? & ? & ?). done.
      * destruct (removeMarked_frame m p) as (_ & _ & _ & ? & ? & ?). done.
    + destruct (IH m (logf LvlError
                        "Error in transition evidence from protobuf" p))
        as (? & ? & ?). done.
Qed.

Lemma markOne_frame p m ev :
  let p' := (markOne (p, m) ev).1 in
  state p' = state p ∧ pruningHeight p' = pruningHeight p
  ∧ pruningTime p' = pruningTime p.
Proof.
  unfold markOne.
  destruct (isPending p ev), (UInt64Value_Marshal (Height ev)); done.
Qed.

Lemma markEvidenceAsCommitted_frame evidence p :
  let p' := markEvidenceAsCommitted evidence p in
  state p' = state p ∧ pruningHeight p' = pruningHeight p
  ∧ pruningTime p' = pruningTime p.
Proof.
  unfold markEvidenceAsCommitted.
  generalize (∅ : gset string) as m. revert p.
  induction evidence as [|ev evidence IH]; intros p m; cbn [foldl].
  - destruct (removeMarked_frame m p) as (_ & _ & _ & ? & ? & ?). done.
  - destruct (markOne (p, m) ev) as [p1 m1] eqn:E1.
    pose proof (markOne_frame p m ev) as Hf. rewrite E1 in Hf. simpl in Hf.
    destruct Hf as (<- & <- & <-). apply IH.
Qed.

End Frame.

(** ** The claims *)

Section Claims_Update.

Context `{C : Collaborators}.

(** C7. [Update] panics exactly when the height of the new state is not
    above the height of the state of the pool; when it is above, [Update]
    returns, and the pool it returns holds the new state. *)
Theorem Update_panics_iff_height_not_above st ev p :
  ((∃ msg, Update st ev p = Panicked msg)
   ↔ LastBlockHeight st <= LastBlockHeight (state p))
  ∧ (LastBlockHeight (state p) < LastBlockHeight st →
     ∃ p', Update st ev p = Returned p' ∧ state p' = st).
Proof.
  assert (Hret : LastBlockHeight (state p) < LastBlockHeight st →
                 ∃ p', Update st ev p = Returned p' ∧ state p' = st).
  { intros Hlt. unfold Update.
    destruct (Z.leb_spec (LastBlockHeight st) (LastBlockHeight (state p)));
      [lia|].
    set (p1 := markEvidenceAsCommitted ev _).
    assert (Hst : state p1 = st).
    { unfold p1.
      by destruct (markEvidenceAsCommitted_frame ev
        (updateState st (logf LvlInfo "Updating evidence pool" p)))
        as (-> & _). }
    destruct (_ && _ && _); [|by eauto].
    destruct (removeExpiredPendingEvidence p1) as [p2 [h t]] eqn:E.
    eexists. split; [done|]. simpl.
    pose proof (removeExpired_loop_frame
      (kaidb.NewIterator (evidenceDB p1) baseKeyPending) ∅ p1) as Hf.
    unfold removeExpiredPendingEvidence in E. rewrite E in Hf.
    simpl in Hf. destruct Hf as (-> & _). done. }
  split; [|done]. split.
  - intros [msg Hp].
    destruct (Z.le_gt_cases (LastBlockHeight st)
                (LastBlockHeight (state p))) as [|Hlt]; [done|].
    apply Hret in Hlt as (p' & Hr & _). congruence.
  - intros Hle. unfold Update.
    destruct (Z.leb_spec (LastBlockHeight st) (LastBlockHeight (state p)));
      [by eauto|lia].
Qed.

End Claims_Update.

Lemma Update_panics_iff_height_not_above_witness :
  ∃ p', Update (C := Examples.accepting) (mkState 6 60 Examples.params)
          [Examples.ev1] Examples.empty = Returned p'
        ∧ state p' = mkState 6 60 Examples.params.
Proof.
  apply (Update_panics_iff_height_not_above (C := Examples.accepting)).
  simpl. lia.
Defined.

Section Claims_AddEvidence.

Context `{C : Collaborators}.

Lemma addPendingEvidence_ok ev p evBytes :
  encodeEvidence ev = Ok evBytes →
  addPendingEvidence ev p
  = (set_evidenceSize (Go.uint32 (evidenceSize p + 1))
       (set_evidenceDB
          (kaidb.Put (evidenceDB p) (keyPending ev) evBytes) p), None).
Proof.
  unfold encodeEvidence, addPendingEvidence.
  destruct (EvidenceToProto ev) as [evpb|]; [|done].
  by intros ->.
Qed.

Lemma addPendingEvidence_err ev p err :
  encodeEvidence ev = Err err →
  ∃ err', addPendingEvidence ev p = (p, Some err').
Proof.
  unfold encodeEvidence, addPendingEvidence.
  destruct (EvidenceToProto ev) as [evpb|]; [|by eauto].
  intros ->. by eauto.
Qed.

(** C2, as amended. [AddEvidence] returns no error and leaves the pool as
    it is, but for the log, when the evidence is already pending or
    already committed. Otherwise it returns an [ErrInvalidEvidence]
    exactly when the verification fails; when the verification succeeds
    and the evidence is written, it is in the pending namespace, at the
    back of the list of evidence, and the count of pending evidence is one
    more; when the verification succeeds and the encoding of the evidence
    fails, the error is not an [ErrInvalidEvidence] and the pool is as it
    was, but for the log. *)
Theorem AddEvidence_outcomes ev p :
  let q := logf LvlDebug "Attempting to add evidence" p in
  (isPending p ev = true ∨ isCommitted p ev = true →
     ∃ p', AddEvidence ev p = (p', None) ∧ sameButLog p p')
  ∧ (isPending p ev = false → isCommitted p ev = false →
     ((∃ e, (AddEvidence ev p).2 = Some e ∧ isInvalidEvidence e = true)
      ↔ is_Some (verify q ev))
     ∧ (∀ reason, verify q ev = Some reason →
          AddEvidence ev p = (q, Some (ErrInvalidEvidence ev reason)))
     ∧ (∀ evBytes, verify q ev = None → encodeEvidence ev = Ok evBytes →
          ∃ p', AddEvidence ev p = (p', None)
            ∧ evidenceDB p'
              = kaidb.Put (evidenceDB p) (keyPending ev) evBytes
            ∧ isPending p' ev = true
            ∧ evidenceList p' = evidenceList p ++ [ev]
            ∧ evidenceSize p' = Go.uint32 (evidenceSize p + 1)
            ∧ state p' = state p
            ∧ pruningHeight p' = pruningHeight p
            ∧ pruningTime p' = pruningTime p)
     ∧ (∀ err, verify q ev = None → encodeEvidence ev = Err err →
          ∃ p' e, AddEvidence ev p = (p', Some e)
            ∧ isInvalidEvidence e = false ∧ sameButLog p p')).
Proof.
  intros q. split.
  - intros Hor. unfold AddEvidence. fold q.
    change (isPending q ev) with (isPending p ev).
    change (isCommitted q ev) with (isCommitted p ev).
    destruct (isPending p ev) eqn:Hp.
    + eexists. split; [done|]. by repeat split.
    + destruct Hor as [|Hc]; [done|]. rewrite Hc.
      eexists. split; [done|]. by repeat split.
  - intros Hp Hc.
    assert (Hunf : AddEvidence ev p =
      match verify q ev with
      | Some err => (q, Some (ErrInvalidEvidence ev err))
      | None =>
        match addPendingEvidence ev q with
        | (p, Some err) =>
          (p, Some (Errorf_w "can't add evidence to pending list: %w" err))
        | (p, None) =>
          (logf LvlInfo "Verified new evidence of byzantine behaviour"
             (set_evidenceList (clist.PushBack (evidenceList p) ev) p),
           None)
        end
      end).
    { unfold AddEvidence. fold q.
      change (isPending q ev) with (isPending p ev).
      change (isCommitted q ev) with (isCommitted p ev).
      by rewrite Hp, Hc. }
    split; [|split; [|split]].
    + rewrite Hunf. destruct (verify q ev) as [r|] eqn:Hv.
      * split; [by eauto|]. intros _. by eexists.
      * split; [|by intros [? ?]]. intros (e & He & Hinv).
        destruct (addPendingEvidence ev q) as [p1 [e1|]]; simpl in He;
          [|done]. by simplify_eq.
    + intros reason Hv. by rewrite Hunf, Hv.
    + intros evBytes Hv Henc. rewrite Hunf, Hv.
      rewrite (addPendingEvidence_ok _ _ _ Henc).
      eexists. split; [done|]. simpl. repeat split.
      unfold isPending. simpl. rewrite Has_Put.
      by rewrite bool_decide_true.
    + intros err Hv Henc. rewrite Hunf, Hv.
      destruct (addPendingEvidence_err _ q _ Henc) as [err' ->].
      eexists _, _. split; [done|]. by repeat split.
Qed.

End Claims_AddEvidence.

(** The claim C2 as it is written fails where the verification succeeds and
    the evidence cannot be encoded: [AddEvidence] returns an error, the
    evidence is not pending, the list and the count are as they were. *)
Lemma AddEvidence_verified_not_persisted :
  let p := Examples.empty in
  let ev := Examples.ev1 in
  let r := AddEvidence (C := Examples.unwritable) ev p in
  isPending p ev = false ∧ isCommitted p ev = false
  ∧ verify (Collaborators := Examples.unwritable)
      (logf LvlDebug "Attempting to add evidence" p) ev = None
  ∧ is_Some r.2
  ∧ isPending r.1 ev = false
  ∧ evidenceList r.1 = evidenceList p
  ∧ evidenceSize r.1 = evidenceSize p.
Proof. vm_compute. repeat split; eauto. Qed.

Lemma AddEvidence_outcomes_witness :
  ∃ p', AddEvidence (C := Examples.accepting) Examples.ev1 Examples.empty
        = (p', None)
    ∧ isPending p' Examples.ev1 = true
    ∧ evidenceList p' = [Examples.ev1]
    ∧ evidenceSize p' = 1.
Proof.
  destruct (AddEvidence_outcomes (C := Examples.accepting)
              Examples.ev1 Examples.empty) as [_ H].
  destruct H as (_ & _ & H & _); [by vm_compute..|].
  destruct (H [Byte.x0a; Byte.x64; Byte.x01]) as (p' & ? & _ & ? & ? & ? & _);
    [by vm_compute..|].
  exists p'. done.
Defined.

Section Claims_CheckEvidence.

Context `{C : Collaborators}.

Lemma checkOne_error ev p p' e :
  checkOne ev p = (p', Some e) → isInvalidEvidence e = true.
Proof.
  unfold checkOne. destruct (fastCheck p ev); [done|].
  destruct (isCommitted p ev); [by intros [= <- <-]|].
  destruct (verify p ev); [by intros [= <- <-]|]. done.
Qed.

Lemma checkOne_pending ev p :
  isPending p ev = true → checkOne ev p = (p, None).
Proof. intros Hp. unfold checkOne, fastCheck. by rewrite Hp. Qed.

(** Every error of [CheckEvidence] is an [ErrInvalidEvidence]. *)
Lemma CheckEvidence_loop_error evList hashes p p' e :
  CheckEvidence_loop evList hashes p = (p', Some e) →
  isInvalidEvidence e = true.
Proof.
  revert hashes p. induction evList as [|ev evList IH]; intros hashes p;
    simpl; [done|].
  destruct (checkOne ev p) as [p1 [e1|]] eqn:E1.
  - intros [= <- <-]. by eapply checkOne_error.
  - destruct (existsb _ hashes); [by intros [= <- <-]|]. apply IH.
Qed.

Lemma existsb_hash (h : Bytes) hashes :
  existsb (λ h', bool_decide (h' = h)) hashes = true ↔ h ∈ hashes.
Proof.
  rewrite existsb_exists. split.
  - intros (h' & Hin & Heq). apply bool_decide_eq_true in Heq as ->.
    by apply list_elem_of_In.
  - intros Hin. exists h. split; [by apply list_elem_of_In|].
    by apply bool_decide_eq_true.
Qed.

(** A hash that occurs twice stops the loop with an error. *)
Lemma CheckEvidence_loop_duplicate evList hashes p :
  NoDup hashes → ¬ NoDup (hashes ++ (Hash <$> evList)) →
  is_Some (CheckEvidence_loop evList hashes p).2.
Proof.
  revert hashes p. induction evList as [|ev evList IH]; intros hashes p Hnd Hdup.
  - simpl in Hdup. rewrite app_nil_r in Hdup. done.
  - simpl. destruct (checkOne ev p) as [p1 [e1|]]; [by eexists|].
    destruct (existsb _ hashes) eqn:Hex; [by eexists|].
    apply IH.
    + apply NoDup_app. split; [done|]. split; [|apply NoDup_singleton].
      intros h Hh ->%list_elem_of_singleton.
      apply existsb_hash in Hh. congruence.
    + by rewrite <- app_assoc.
Qed.

(** C8, as amended. [CheckEvidence] on a list that holds two entries of
    equal hash always fails with an [ErrInvalidEvidence]. On the list of
    twice the same evidence the reason is "duplicate evidence" when the
    evidence is pending, or is neither pending nor committed, verifies
    and is written to the store; it is "evidence was already committed"
    when the evidence is committed and not pending, and it is the error
    of the verification when the evidence is neither pending nor
    committed and does not verify. *)
Theorem CheckEvidence_duplicate_fails :
  (∀ evList p i j a b,
     (i < j)%nat → evList !! i = Some a → evList !! j = Some b →
     Hash a = Hash b →
     ∃ p' e, CheckEvidence evList p = (p', Some e)
             ∧ isInvalidEvidence e = true)
  ∧ (∀ ev p, isPending p ev = true →
       CheckEvidence [ev; ev] p
       = (p, Some (ErrInvalidEvidence ev (errors_New "duplicate evidence"))))
  ∧ (∀ ev p, isPending p ev = false → isCommitted p ev = true →
       CheckEvidence [ev; ev] p
       = (p, Some (ErrInvalidEvidence ev
                     (errors_New "evidence was already committed"))))
  ∧ (∀ ev p reason,
       isPending p ev = false → isCommitted p ev = false →
       verify p ev = Some reason →
       CheckEvidence [ev; ev] p
       = (p, Some (ErrInvalidEvidence ev reason)))
  ∧ (∀ ev p evBytes,
       isPending p ev = false → isCommitted p ev = false →
       verify p ev = None → encodeEvidence ev = Ok evBytes →
       ∃ p', CheckEvidence [ev; ev] p
             = (p', Some (ErrInvalidEvidence ev
                            (errors_New "duplicate evidence")))
           ∧ isPending p' ev = true).
Proof.
  split; [|split; [|split; [|split]]].
  - intros evList p i j a b Hij Hi Hj Hab.
    destruct (CheckEvidence evList p) as [p' [e|]] eqn:E.
    + exists p', e. split; [done|].
      by eapply CheckEvidence_loop_error.
    + exfalso.
      assert (Hs : is_Some (CheckEvidence_loop evList [] p).2).
      { apply CheckEvidence_loop_duplicate; [constructor|]. simpl.
        intros Hnd.
        assert (i = j); [|lia].
        apply (NoDup_lookup _ i j (Hash a) Hnd).
        - by rewrite list_lookup_fmap, Hi.
        - by rewrite list_lookup_fmap, Hj, Hab. }
      unfold CheckEvidence in E. rewrite E in Hs. by destruct Hs.
  - intros ev p Hp. unfold CheckEvidence. cbn [CheckEvidence_loop].
    rewrite !(checkOne_pending _ _ Hp). simpl.
    by rewrite bool_decide_true.
  - intros ev p Hp Hc. unfold CheckEvidence. cbn [CheckEvidence_loop].
    unfold checkOne, fastCheck. by rewrite Hp, Hc.
  - intros ev p reason Hp Hc Hv. unfold CheckEvidence.
    cbn [CheckEvidence_loop].
    unfold checkOne, fastCheck. by rewrite Hp, Hc, Hv.
  - intros ev p evBytes Hp Hc Hv Henc. unfold CheckEvidence.
    cbn [CheckEvidence_loop].
    unfold checkOne at 1. unfold fastCheck. rewrite Hp, Hc, Hv.
    rewrite (addPendingEvidence_ok _ _ _ Henc).
    set (p1 := logf _ _ _).
    assert (Hp1 : isPending p1 ev = true).
    { unfold isPending. simpl. rewrite Has_Put. by rewrite bool_decide_true. }
    rewrite (checkOne_pending _ _ Hp1). simpl.
    rewrite bool_decide_true by done.
    by exists p1.
Qed.

End Claims_CheckEvidence.

(** The claim C8 as it is written fails on evidence that is committed and
    not pending, and on evidence that does not verify: the reason of the
    error is not "duplicate evidence". *)
Lemma CheckEvidence_committed_twice_not_duplicate :
  let ev := Examples.ev1 in
  let p := mkPool [] [] 0 {[keyCommitted ev := [Byte.x08; Byte.x0a]]}
             (mkState 11 50 Examples.params) 11 50 in
  CheckEvidence (C := Examples.accepting) [ev; ev] p
  = (p, Some (ErrInvalidEvidence ev
                (errors_New "evidence was already committed")))
  ∧ errors_New "evidence was already committed"
    ≠ errors_New "duplicate evidence"
  ∧ CheckEvidence (C := Examples.rejecting) [ev; ev] Examples.empty
    = (Examples.empty,
       Some (ErrInvalidEvidence ev (errors_New "invalid signature")))
  ∧ errors_New "invalid signature" ≠ errors_New "duplicate evidence".
Proof.
  split; [by vm_compute|]. split; [by intros [=]|].
  split; [by vm_compute|]. by intros [=].
Qed.

Lemma CheckEvidence_duplicate_fails_witness :
  ∃ p' e, CheckEvidence (C := Examples.accepting)
            [Examples.ev1; Examples.ev2; Examples.ev1] Examples.empty
          = (p', Some e)
    ∧ isInvalidEvidence e = true.
Proof.
  destruct (CheckEvidence_duplicate_fails (C := Examples.accepting))
    as [H _].
  apply (H _ _ 0%nat 2%nat Examples.ev1 Examples.ev1);
    [lia|reflexivity..].
Defined.

(** ** Expiry *)

Section Expiry.

Implicit Types (p : Pool) (height time : Z).

Lemma isExpired_true p height time :
  isExpired p height time = true
  ↔ Go.uint64 (MaxAgeNumBlocks (ConsensusParams_Evidence (state p)))
      < Go.uint64 (LastBlockHeight (state p) - height)
    ∧ MaxAgeDuration (ConsensusParams_Evidence (state p))
      < Go.Time_Sub (LastBlockTime (state p)) time.
Proof.
  unfold isExpired. rewrite andb_true_iff.
  by rewrite !Z.ltb_lt.
Qed.

Lemma isExpired_state p p' height time :
  state p' = state p → isExpired p' height time = isExpired p height time.
Proof. unfold isExpired. by intros ->. Qed.

Lemma uint64_small x : 0 <= x < 2 ^ 64 → Go.uint64 x = x.
Proof. intros. unfold Go.uint64. by apply Z.mod_small. Qed.

Lemma uint64_wrap_neg x : - 2 ^ 64 <= x < 0 → Go.uint64 x = 2 ^ 64 + x.
Proof.
  intros. unfold Go.uint64.
  symmetry. apply (Z.mod_unique_pos _ _ (-1)); lia.
Qed.

Lemma Time_Sub_exact t u :
  Go.minDuration <= t - u <= Go.maxDuration → Go.Time_Sub t u = t - u.
Proof.
  intros. unfold Go.Time_Sub.
  destruct (Z.ltb_spec Go.maxDuration (t - u)); [lia|].
  destruct (Z.ltb_spec (t - u) Go.minDuration); [lia|done].
Qed.

(** A saturated difference is below a bound smaller than the largest
    duration only if the difference is. *)
Lemma Time_Sub_le t u d :
  d < Go.maxDuration → Go.Time_Sub t u <= d → t - u <= d.
Proof.
  unfold Go.Time_Sub. intros Hd.
  destruct (Z.ltb_spec Go.maxDuration (t - u)); [lia|].
  destruct (Z.ltb_spec (t - u) Go.minDuration); lia.
Qed.

(** C10, as amended. For evidence of a height above the last block height
    the age in blocks wraps to [2^64 - (height - last height)]. When the
    height is ahead by less than [2^64 - MaxAgeNumBlocks], the condition
    on the age in blocks holds and the evidence is expired exactly when
    its time satisfies the condition on the duration; when it is further
    ahead the evidence is not expired, whatever its time. *)
Theorem isExpired_future_height p height time :
  let H := LastBlockHeight (state p) in
  let M := MaxAgeNumBlocks (ConsensusParams_Evidence (state p)) in
  let D := MaxAgeDuration (ConsensusParams_Evidence (state p)) in
  0 <= H → H < height → height < 2 ^ 64 → 0 <= M < 2 ^ 64 →
  Go.uint64 (H - height) = 2 ^ 64 - (height - H)
  ∧ (height - H < 2 ^ 64 - M →
     Go.uint64 M < Go.uint64 (H - height)
     ∧ isExpired p height time
       = (D <? Go.Time_Sub (LastBlockTime (state p)) time))
  ∧ (2 ^ 64 - M <= height - H → isExpired p height time = false).
Proof.
  intros H M D HH Hlt Hh HM.
  assert (Hw : Go.uint64 (H - height) = 2 ^ 64 - (height - H)).
  { rewrite uint64_wrap_neg; lia. }
  assert (HuM : Go.uint64 M = M) by by apply uint64_small.
  split; [done|]. unfold isExpired. fold H M D. rewrite Hw, HuM. split.
  - intros Hd. split; [lia|].
    destruct (Z.ltb_spec M (2 ^ 64 - (height - H))); [done|lia].
  - intros Hd.
    destruct (Z.ltb_spec M (2 ^ 64 - (height - H))); [lia|done].
Qed.

End Expiry.

(** The claim C10 as it is written fails for a height near the top of the
    64 bits: the age in blocks wraps to 15, the condition on the age in
    blocks does not hold, and the evidence is not expired although its time
    satisfies the condition on the duration. *)
Lemma isExpired_far_future_height_not_expired :
  let p := mkPool [] [] 0 ∅ (mkState 5 1000 (mkEvidenceParams 100000 10)) 5 1000 in
  let height := 2 ^ 64 - 10 in
  let time := 0 in
  LastBlockHeight (state p) < height ∧ height < 2 ^ 64
  ∧ Go.uint64 (LastBlockHeight (state p) - height) = 15
  ∧ (MaxAgeDuration (ConsensusParams_Evidence (state p))
     <? Go.Time_Sub (LastBlockTime (state p)) time) = true
  ∧ isExpired p height time = false.
Proof. by vm_compute. Qed.

Lemma isExpired_future_height_witness :
  let p := mkPool [] [] 0 ∅ (mkState 5 1000 (mkEvidenceParams 100000 10)) 5 1000 in
  Go.uint64 (5 - 7) = 2 ^ 64 - (7 - 5)
  ∧ isExpired p 7 0 = true.
Proof.
  intros p.
  destruct (isExpired_future_height p 7 0) as (Hw & Hnear & _);
    [simpl; lia..|].
  split; [exact Hw|].
  destruct Hnear as [_ ->]; [simpl; lia|]. reflexivity.
Defined.

(** ** The pruning pass *)

Section Pruning.

Context `{C : Collaborators}.

Lemma expiredPrefix_state p p' evs :
  state p' = state p → expiredPrefix p' evs = expiredPrefix p evs.
Proof.
  intros Hst. induction evs as [|ev evs IH]; simpl; [done|].
  by rewrite (isExpired_state _ _ _ _ Hst), IH.
Qed.

Lemma firstSurvivor_state p p' evs :
  state p' = state p → firstSurvivor p' evs = firstSurvivor p evs.
Proof.
  intros Hst. induction evs as [|ev evs IH]; simpl; [done|].
  by rewrite (isExpired_state _ _ _ _ Hst), IH.
Qed.

(** A scan is the expired evidence it passes, then its first survivor
    and what follows it. *)
Lemma scan_split p evs :
  match firstSurvivor p evs with
  | Some ev =>
    isExpired p (Height ev) (Time ev) = false
    ∧ ∃ rest, evs = expiredPrefix p evs ++ ev :: rest
  | None => evs = expiredPrefix p evs
  end
  ∧ Forall (λ ev, isExpired p (Height ev) (Time ev) = true)
      (expiredPrefix p evs).
Proof.
  induction evs as [|ev evs [IH1 IH2]]; simpl; [by split|].
  destruct (isExpired p (Height ev) (Time ev)) eqn:E.
  - split; [|by constructor].
    destruct (firstSurvivor p evs) as [ev'|].
    + destruct IH1 as (? & rest & Hrest). split; [done|].
      exists rest. simpl. by f_equal.
    + simpl. by f_equal.
  - split; [|constructor]. split; [done|]. by exists evs.
Qed.

Lemma filter_not_in_empty (m : gset string) (l : list Evidence) :
  m = ∅ → filter (λ ev, evMapKey ev ∉ m) l = l.
Proof.
  intros ->. induction l as [|ev l IH]; [done|].
  rewrite filter_cons_True by set_solver. by f_equal.
Qed.

Lemma removeMarked_list m p :
  evidenceList (removeMarked m p)
  = filter (λ ev, evMapKey ev ∉ m) (evidenceList p).
Proof.
  unfold removeMarked. case_decide as Hm; [|done].
  by rewrite filter_not_in_empty.
Qed.

Lemma uint32_pred_sub x n :
  Go.uint32 (Go.uint32 (x + (2 ^ 32 - 1)) - n) = Go.uint32 (x - (1 + n)).
Proof.
  unfold Go.uint32. rewrite Zminus_mod_idemp_l.
  replace (x + (2 ^ 32 - 1) - n) with (x - (1 + n) + 1 * 2 ^ 32) by lia.
  by rewrite Z_mod_plus_full.
Qed.

(** The loop of the pass, told by what it leaves: the store without the
    pending keys of the expired evidence passed, the list without the
    evidence marked, the count wound back once for each, and the height
    and time of the next pass. *)
Lemma removeExpired_loop_spec iter m p :
  let evs := readable iter in
  let gone := expiredPrefix p evs in
  let r := removeExpired_loop iter m p in
  evidenceDB r.1
  = foldl (λ db ev, kaidb.Delete db (keyPending ev)) (evidenceDB p) gone
  ∧ evidenceList r.1
    = filter (λ ev, evMapKey ev ∉ m ∪ list_to_set (evMapKey <$> gone))
        (evidenceList p)
  ∧ Go.uint32 (evidenceSize r.1)
    = Go.uint32 (evidenceSize p - Z.of_nat (length gone))
  ∧ r.2 = match firstSurvivor p evs with
          | Some ev =>
            (Go.uint64
               (Height ev
                + Go.uint64
                    (MaxAgeNumBlocks (ConsensusParams_Evidence (state p)))
                + 1),
             Time ev + MaxAgeDuration (ConsensusParams_Evidence (state p))
             + Go.Second)
          | None => (LastBlockHeight (state p), LastBlockTime (state p))
          end.
Proof.
  revert m p. induction iter as [|[k v] iter IH]; intros m p; cbv zeta.
  - simpl. destruct (removeMarked_frame m p) as (_ & -> & -> & -> & _).
    rewrite removeMarked_list, union_empty_r_L, Z.sub_0_r. done.
  - cbn [removeExpired_loop readable omap list_omap snd].
    fold (readable iter). destruct (bytesToEv v) as [ev|e].
    + cbn [expiredPrefix firstSurvivor].
      destruct (isExpired p (Height ev) (Time ev)) eqn:E; cbn [negb].
      * specialize (IH ({[evMapKey ev]} ∪ m) (removePendingEvidence ev p)).
        cbv zeta in IH.
        rewrite (expiredPrefix_state p (removePendingEvidence ev p)),
          (firstSurvivor_state p (removePendingEvidence ev p)) in IH by done.
        destruct IH as (IH1 & IH2 & IH3 & IH4).
        split; [exact IH1|]. split; [|split].
        -- rewrite IH2. cbn [fmap list_fmap list_to_set foldr].
           set (S := list_to_set _).
           by rewrite (union_comm_L {[evMapKey ev]} m),
             <- (union_assoc_L m {[evMapKey ev]} S).
        -- rewrite IH3. cbn [evidenceSize removePendingEvidence logf
             set_evidenceSize set_evidenceDB length].
           rewrite uint32_pred_sub. f_equal. lia.
        -- exact IH4.
      * simpl.
        destruct (removeMarked_frame m p) as (_ & -> & -> & -> & _).
        rewrite removeMarked_list, union_empty_r_L, Z.sub_0_r.
        unfold Go.Time_Add. done.
    + set (p1 := logf LvlError
                   "Error in transition evidence from protobuf" p).
      specialize (IH m p1). cbv zeta in IH.
      rewrite (expiredPrefix_state p p1), (firstSurvivor_state p p1)
        in IH by done.
      exact IH.
Qed.

Lemma foldl_Delete_other (gone : list Evidence) db k :
  (∀ ev, ev ∈ gone → keyPending ev ≠ k) →
  foldl (λ db ev, kaidb.Delete db (keyPending ev)) db gone !! k = db !! k.
Proof.
  revert db. induction gone as [|ev gone IH]; intros db Hne; [done|].
  simpl. rewrite IH by (intros; apply Hne; by right).
  unfold kaidb.Delete. apply lookup_delete_ne, Hne. by left.
Qed.

Lemma foldl_Delete_None (gone : list Evidence) db k :
  db !! k = None →
  foldl (λ db ev, kaidb.Delete db (keyPending ev)) db gone !! k = None.
Proof.
  revert db. induction gone as [|ev gone IH]; intros db Hk; [done|].
  simpl. apply IH. unfold kaidb.Delete.
  destruct (decide (keyPending ev = k)) as [->|];
    [apply lookup_delete_eq|by rewrite lookup_delete_ne].
Qed.

Lemma foldl_Delete_gone (gone : list Evidence) db ev :
  ev ∈ gone →
  foldl (λ db ev, kaidb.Delete db (keyPending ev)) db gone
    !! keyPending ev = None.
Proof.
  revert db. induction gone as [|ev' gone IH]; intros db Hin.
  - by apply elem_of_nil in Hin.
  - simpl. apply elem_of_cons in Hin as [->|Hin]; [|by apply IH].
    apply foldl_Delete_None. unfold kaidb.Delete. apply lookup_delete_eq.
Qed.

End Pruning.

(** ** Records under their own key *)

Section WellKeyed.

Context `{C : Collaborators}.

Lemma keyCommitted_not_pending ev :
  String.prefix baseKeyPending (keyCommitted ev) = false.
Proof. reflexivity. Qed.

Lemma pendingWellKeyed_empty : pendingWellKeyed ∅.
Proof. intros k v ev Hk. by rewrite lookup_empty in Hk. Qed.

Lemma pendingWellKeyed_Put db ev v :
  pendingWellKeyed db → bytesToEv v = Ok ev →
  pendingWellKeyed (kaidb.Put db (keyPending ev) v).
Proof.
  intros Hwk Hv k v' ev' Hk Hpre Hv'. unfold kaidb.Put in Hk.
  destruct (decide (keyPending ev = k)) as [<-|Hne].
  - rewrite lookup_insert_eq in Hk. simplify_eq.
    assert (ev = ev') as -> by congruence. done.
  - rewrite lookup_insert_ne in Hk by done. by eapply Hwk.
Qed.

Lemma pendingWellKeyed_Put_committed db ev v :
  pendingWellKeyed db → pendingWellKeyed (kaidb.Put db (keyCommitted ev) v).
Proof.
  intros Hwk k v' ev' Hk Hpre Hv'. unfold kaidb.Put in Hk.
  destruct (decide (keyCommitted ev = k)) as [<-|Hne].
  - by rewrite keyCommitted_not_pending in Hpre.
  - rewrite lookup_insert_ne in Hk by done. by eapply Hwk.
Qed.

Lemma pendingWellKeyed_Delete db k :
  pendingWellKeyed db → pendingWellKeyed (kaidb.Delete db k).
Proof.
  intros Hwk k' v' ev' Hk Hpre Hv'. unfold kaidb.Delete in Hk.
  apply lookup_delete_Some in Hk as [_ Hk]. by eapply Hwk.
Qed.

Lemma elem_of_readable iter ev :
  ev ∈ readable iter ↔ ∃ k v, (k, v) ∈ iter ∧ bytesToEv v = Ok ev.
Proof.
  unfold readable. rewrite list_elem_of_omap. split.
  - intros ([k v] & Hin & Hev). exists k, v. split; [done|].
    simpl in Hev. by destruct (bytesToEv v); simplify_eq.
  - intros (k & v & Hin & Hev). exists (k, v). split; [done|].
    simpl. by rewrite Hev.
Qed.

Lemma elem_of_expiredPrefix p evs ev :
  ev ∈ expiredPrefix p evs →
  ev ∈ evs ∧ isExpired p (Height ev) (Time ev) = true.
Proof.
  induction evs as [|ev' evs IH]; simpl; [by intros ?%elem_of_nil|].
  destruct (isExpired p (Height ev') (Time ev')) eqn:E;
    [|by intros ?%elem_of_nil].
  intros [->|Hin]%elem_of_cons.
  - split; [by left|done].
  - destruct (IH Hin). split; [by right|done].
Qed.

(** C4. A pruning pass scans the pending records by ascending key. The
    expired evidence it passes before the first evidence that is not
    expired is no longer pending and no longer in the list of evidence,
    its record is gone from a store that keeps the records under their own
    keys, and nothing else leaves the store. The pass returns the height
    of that first survivor plus [MaxAgeNumBlocks] plus one, in 64 bits, and
    its time plus [MaxAgeDuration] plus one second; with no survivor it
    returns the last block height and the last block time of the state. *)
Theorem removeExpiredPendingEvidence_pass p :
  let iter := kaidb.NewIterator (evidenceDB p) baseKeyPending in
  let evs := readable iter in
  let gone := expiredPrefix p evs in
  let r := removeExpiredPendingEvidence p in
  let M := MaxAgeNumBlocks (ConsensusParams_Evidence (state p)) in
  let D := MaxAgeDuration (ConsensusParams_Evidence (state p)) in
  StronglySorted kaidb.key_le iter
  ∧ (∀ k v, (k, v) ∈ iter
            ↔ evidenceDB p !! k = Some v
              ∧ String.prefix baseKeyPending k = true)
  ∧ Forall (λ ev, isExpired p (Height ev) (Time ev) = true) gone
  ∧ (∀ ev, ev ∈ gone → isPending r.1 ev = false ∧ ev ∉ evidenceList r.1)
  ∧ (pendingWellKeyed (evidenceDB p) →
     ∀ k v ev, (k, v) ∈ iter → bytesToEv v = Ok ev → ev ∈ gone →
               evidenceDB r.1 !! k = None)
  ∧ evidenceDB r.1
    = foldl (λ db ev, kaidb.Delete db (keyPending ev)) (evidenceDB p) gone
  ∧ evidenceList r.1
    = filter (λ ev, evMapKey ev ∉@{gset string}
                      list_to_set (evMapKey <$> gone))
        (evidenceList p)
  ∧ match firstSurvivor p evs with
    | Some ev =>
      isExpired p (Height ev) (Time ev) = false
      ∧ (∃ rest, evs = gone ++ ev :: rest)
      ∧ r.2 = (Go.uint64 (Height ev + Go.uint64 M + 1),
               Time ev + D + Go.Second)
      ∧ (0 <= Height ev → 0 <= M → Height ev + M + 1 < 2 ^ 64 →
         r.2.1 = Height ev + M + 1)
    | None =>
      evs = gone
      ∧ r.2 = (LastBlockHeight (state p), LastBlockTime (state p))
    end.
Proof.
  intros iter evs gone r M D.
  pose proof (removeExpired_loop_spec iter ∅ p) as Hspec.
  cbv zeta in Hspec. destruct Hspec as (HDB & HL & _ & HW).
  rewrite union_empty_l_L in HL.
  destruct (scan_split p evs) as [Hsplit Hgone].
  subst r. unfold removeExpiredPendingEvidence.
  subst gone evs M D. fold iter. set (evs := readable iter) in *.
  set (gone := expiredPrefix p evs) in *.
  split; [apply NewIterator_sorted|].
  split; [intros k v; apply elem_of_NewIterator|].
  split; [done|]. split; [|split; [|split; [done|split; [done|]]]].
  - intros ev Hev. split.
    + unfold isPending. apply Has_false. rewrite HDB.
      by apply foldl_Delete_gone.
    + rewrite HL. intros [Hnot _]%list_elem_of_filter. apply Hnot.
      apply elem_of_list_to_set, list_elem_of_fmap. by exists ev.
  - intros Hwk k v ev Hin Hev Hgo.
    apply elem_of_NewIterator in Hin as [Hk Hpre].
    rewrite (Hwk k v ev Hk Hpre Hev), HDB. by apply foldl_Delete_gone.
  - destruct (firstSurvivor p evs) as [ev|].
    + destruct Hsplit as [Hne Hrest]. repeat split; [done..|].
      intros Hh HM Hlt. rewrite HW. simpl.
      rewrite (uint64_small (MaxAgeNumBlocks _)) by lia.
      apply uint64_small. lia.
    + done.
Qed.



End WellKeyed.

(** ** The height and time of the next pruning pass *)

Section Watermark.

Context `{C : Collaborators}.

Lemma addPendingEvidence_frame ev p :
  let p' := (addPendingEvidence ev p).1 in
  state p' = state p ∧ evidenceList p' = evidenceList p
  ∧ samePruning p p'.
Proof.
  unfold addPendingEvidence.
  destruct (EvidenceToProto ev) as [evpb|]; [|done].
  by destruct (pb_Marshal evpb).
Qed.

Lemma AddEvidence_samePruning ev p : samePruning p (AddEvidence ev p).1.
Proof.
  unfold AddEvidence.
  set (q := logf LvlDebug "Attempting to add evidence" p).
  destruct (isPending q ev); [done|].
  destruct (isCommitted q ev); [done|].
  destruct (verify q ev); [done|].
  pose proof (addPendingEvidence_frame ev q) as Hf.
  destruct (addPendingEvidence ev q) as [p1 [e|]]; simpl in *;
    by destruct Hf as (_ & _ & ?).
Qed.

Lemma AddEvidenceFromConsensus_samePruning ev p :
  samePruning p (AddEvidenceFromConsensus ev p).1.
Proof.
  unfold AddEvidenceFromConsensus.
  destruct (isPending p ev); [done|].
  pose proof (addPendingEvidence_frame ev p) as Hf.
  destruct (addPendingEvidence ev p) as [p1 [e|]]; simpl in *;
    by destruct Hf as (_ & _ & ?).
Qed.

Lemma checkOne_samePruning ev p : samePruning p (checkOne ev p).1.
Proof.
  unfold checkOne. destruct (fastCheck p ev); [done|].
  destruct (isCommitted p ev); [done|].
  destruct (verify p ev); [done|].
  pose proof (addPendingEvidence_frame ev p) as Hf.
  destruct (addPendingEvidence ev p) as [p1 [e|]]; simpl in *;
    by destruct Hf as (_ & _ & ?).
Qed.

Lemma CheckEvidence_samePruning evList p :
  samePruning p (CheckEvidence evList p).1.
Proof.
  unfold CheckEvidence. generalize (@nil Bytes) as hashes. revert p.
  induction evList as [|ev evList IH]; intros p hashes; simpl; [done|].
  pose proof (checkOne_samePruning ev p) as [Hh Ht].
  destruct (checkOne ev p) as [p1 [e|]]; simpl in *; [done|].
  destruct (existsb _ hashes); [done|].
  destruct (IH p1 (hashes ++ [Hash ev])) as [Hh' Ht'].
  split; congruence.
Qed.

Lemma PendingEvidence_samePruning maxBytes p :
  samePruning p (PendingEvidence p maxBytes).1.
Proof.
  unfold PendingEvidence. destruct (Size p =? 0); [done|].
  destruct (listEvidence p baseKeyPending maxBytes) as [[evs size] [e|]];
    done.
Qed.

(** C5, as amended. [AddEvidence], [AddEvidenceFromConsensus],
    [CheckEvidence] and [PendingEvidence] leave the pruning height and
    time as they are. [Update] changes them only by a pruning pass, which
    it runs only when the height and the time of the new state are both
    above them. A pass without survivor sets them to the height and time
    of the new state, both larger than before. A pass that stops at a
    survivor sets them to the height and time at which the survivor
    expires; when the height of the survivor is not above that of the new
    state and nothing wraps around or saturates, one of the two at least
    is larger than before, the other may be smaller. *)
Theorem pruning_height_and_time_steps :
  (∀ ev p, samePruning p (AddEvidence ev p).1)
  ∧ (∀ ev p, samePruning p (AddEvidenceFromConsensus ev p).1)
  ∧ (∀ evList p, samePruning p (CheckEvidence evList p).1)
  ∧ (∀ maxBytes p, samePruning p (PendingEvidence p maxBytes).1)
  ∧ (∀ st evs p p',
       Update st evs p = Returned p' →
       let M := MaxAgeNumBlocks (ConsensusParams_Evidence st) in
       let D := MaxAgeDuration (ConsensusParams_Evidence st) in
       samePruning p p'
       ∨ (pruningHeight p < LastBlockHeight st
          ∧ pruningTime p < LastBlockTime st
          ∧ ((pruningHeight p' = LastBlockHeight st
              ∧ pruningTime p' = LastBlockTime st)
             ∨ ∃ ev,
                 isExpired p' (Height ev) (Time ev) = false
                 ∧ pruningHeight p' = Go.uint64 (Height ev + Go.uint64 M + 1)
                 ∧ pruningTime p' = Time ev + D + Go.Second
                 ∧ (0 <= Height ev <= LastBlockHeight st →
                    LastBlockHeight st < 2 ^ 64 →
                    0 <= M → Height ev + M + 1 < 2 ^ 64 →
                    D < Go.maxDuration →
                    pruningHeight p < pruningHeight p'
                    ∨ pruningTime p < pruningTime p')))).
Proof.
  split; [exact AddEvidence_samePruning|].
  split; [exact AddEvidenceFromConsensus_samePruning|].
  split; [exact CheckEvidence_samePruning|].
  split; [exact PendingEvidence_samePruning|].
  intros st evs p p'. unfold Update.
  destruct (LastBlockHeight st <=? LastBlockHeight (state p)); [done|].
  set (q := markEvidenceAsCommitted evs _).
  destruct (markEvidenceAsCommitted_frame evs
    (updateState st (logf LvlInfo "Updating evidence pool" p)))
    as (Hst & Hph & Hpt).
  fold q in Hst, Hph, Hpt. simpl in Hst, Hph, Hpt.
  destruct ((0 <? Size q) && (pruningHeight q <? LastBlockHeight st)
            && Go.Time_After (LastBlockTime st) (pruningTime q)) eqn:Hrun.
  - apply andb_true_iff in Hrun as [Hrun Hafter].
    apply andb_true_iff in Hrun as [_ Habove].
    apply Z.ltb_lt in Habove. unfold Go.Time_After in Hafter.
    apply Z.ltb_lt in Hafter. rewrite Hph in Habove. rewrite Hpt in Hafter.
    pose proof (removeExpired_loop_spec
      (kaidb.NewIterator (evidenceDB q) baseKeyPending) ∅ q) as Hspec.
    pose proof (removeExpired_loop_frame
      (kaidb.NewIterator (evidenceDB q) baseKeyPending) ∅ q) as Hfr.
    cbv zeta in Hspec, Hfr. destruct Hspec as (_ & _ & _ & HW).
    destruct Hfr as (Hst' & _).
    fold (removeExpiredPendingEvidence q) in HW, Hst'.
    destruct (removeExpiredPendingEvidence q) as [q' [h t]].
    simpl in HW, Hst'. intros [= <-].
    set (M := MaxAgeNumBlocks (ConsensusParams_Evidence st)).
    set (D := MaxAgeDuration (ConsensusParams_Evidence st)). right.
    split; [done|]. split; [done|]. simpl.
    set (evs' := readable _) in HW.
    destruct (scan_split q evs') as [Hsplit _].
    destruct (firstSurvivor q evs') as [ev|].
    + right. exists ev. destruct Hsplit as [Hne _].
      injection HW as -> ->. rewrite Hst. fold M D.
      split.
      { rewrite <- Hne. apply isExpired_state. simpl. congruence. }
      split; [done|]. split; [done|].
      intros Hh HH HM Hnw HD.
      rewrite (uint64_small M), (uint64_small (Height ev + M + 1)) by lia.
      destruct (isExpired q (Height ev) (Time ev)) eqn:E; [done|].
      apply not_true_iff_false in E. rewrite isExpired_true in E.
      rewrite Hst in E. fold M D in E.
      rewrite (uint64_small M),
        (uint64_small (LastBlockHeight st - Height ev)) in E by lia.
      destruct (Z.le_gt_cases (LastBlockHeight st - Height ev) M);
        [left; lia|].
      right.
      assert (Go.Time_Sub (LastBlockTime st) (Time ev) <= D) as Hle by lia.
      apply Time_Sub_le in Hle; [|done]. unfold Go.Second. lia.
    + left. injection HW as -> ->. by rewrite Hst.
  - intros [= <-]. by left.
Qed.

End Watermark.

(** [Examples.stocked] keeps its pending records under their own keys. *)
Lemma stocked_wellKeyed :
  pendingWellKeyed (C := Examples.accepting) (evidenceDB Examples.stocked).
Proof.
  assert (evidenceDB Examples.stocked
          = kaidb.Put
              (kaidb.Put
                 (kaidb.Put ∅ (keyPending Examples.ev1)
                    [Byte.x0a; Byte.x64; Byte.x01])
                 (keyPending Examples.ev2) [Byte.x0b; Byte.x64; Byte.x02])
              (keyPending Examples.ev3) [Byte.x0c; Byte.xc8; Byte.x03])
    as -> by (vm_compute; reflexivity).
  repeat apply (pendingWellKeyed_Put (C := Examples.accepting));
    [apply pendingWellKeyed_empty|reflexivity..].
Qed.



Lemma removeExpiredPendingEvidence_pass_witness :
  (removeExpiredPendingEvidence (C := Examples.accepting)
     Examples.stocked).2.1 = 12 + 1 + 1.
Proof.
  pose proof (removeExpiredPendingEvidence_pass (C := Examples.accepting)
                Examples.stocked) as H.
  cbv zeta in H. destruct H as (_ & _ & _ & _ & _ & _ & _ & H).
  destruct (firstSurvivor _ _) as [ev|] eqn:E; vm_compute in E; [|done].
  injection E as <-. destruct H as (_ & _ & _ & H).
  apply H; simpl; lia.
Defined.

(** The claim C5 as it is written fails on a pool made at height 100 and
    time 100: evidence of height 10 and time 95 is added, and the update to
    height 101 and time 101 runs a pass in which that evidence survives, for
    it is young in time; the pruning height goes from 100 down to 12. *)
Lemma pruningHeight_decreases :
  ∃ p0 p1 p2,
    NewPool (C := Examples.accepting) (mkState 100 100 Examples.params) ∅
    = Ok p0
    ∧ AddEvidence (C := Examples.accepting) Examples.evOld p0 = (p1, None)
    ∧ Update (C := Examples.accepting) (mkState 101 101 Examples.params) [] p1
      = Returned p2
    ∧ pruningHeight p1 = 100 ∧ pruningTime p1 = 100
    ∧ pruningHeight p2 = 12 ∧ pruningTime p2 = 1000000105
    ∧ pruningHeight p2 < pruningHeight p1.
Proof.
  eexists _, _, _.
  split; [vm_compute; reflexivity|].
  split; [vm_compute; reflexivity|].
  split; [vm_compute; reflexivity|].
  by vm_compute.
Qed.

Lemma pruning_height_and_time_steps_witness :
  let st := mkState 101 101 Examples.params in
  let p := Examples.aged in
  let p' := Examples.returned (Update (C := Examples.accepting) st [] p) in
  pruningHeight p < LastBlockHeight st ∧ pruningTime p < LastBlockTime st
  ∧ pruningTime p < pruningTime p'.
Proof.
  intros st p p'.
  destruct (pruning_height_and_time_steps (C := Examples.accepting))
    as (_ & _ & _ & _ & H).
  destruct (H st [] p p') as [[Hh _]|(Hh & Ht & _)];
    [by vm_compute|by vm_compute in Hh|].
  split; [exact Hh|]. split; [exact Ht|]. by vm_compute.
Defined.

(** ** Listing the pending evidence *)

Section Listing.

Context `{C : Collaborators}.

Lemma listEvidence_loop_bound maxBytes iter evidence evList totalSize :
  maxBytes ≠ -1 → totalSize <= maxBytes →
  (listEvidence_loop maxBytes iter evidence evList totalSize).1.2
  <= maxBytes.
Proof.
  intros Hne. revert evidence evList totalSize.
  induction iter as [|[k v] iter IH]; intros evidence evList totalSize Hle;
    simpl; [done|].
  destruct (pb_Unmarshal v) as [evp|]; [|done].
  destruct (Z.eqb_spec maxBytes (-1)); [done|]. simpl.
  destruct (Z.ltb_spec maxBytes (EvidenceData_Size (evList ++ [evp])));
    [done|].
  destruct (EvidenceFromProto evp); [|done]. by apply IH.
Qed.

(** What the loop returns when it returns no error: the evidence of the
    records it took, with their size, and the record at which it stopped,
    if it stopped before the end. *)
Lemma listEvidence_loop_spec maxBytes iter evidence evList totalSize
    evs size :
  listEvidence_loop maxBytes iter evidence evList totalSize
  = (evs, size, None) →
  ∃ taken rest pbs evs',
    iter = taken ++ rest
    ∧ Forall2 (λ kv pb, pb_Unmarshal kv.2 = Ok pb) taken pbs
    ∧ Forall2 (λ pb ev, EvidenceFromProto pb = Ok ev) pbs evs'
    ∧ evs = evidence ++ evs'
    ∧ size = (if taken is [] then totalSize
              else EvidenceData_Size (evList ++ pbs))
    ∧ (rest = []
       ∨ ∃ k v pb rest',
           rest = (k, v) :: rest' ∧ pb_Unmarshal v = Ok pb
           ∧ maxBytes ≠ -1
           ∧ maxBytes < EvidenceData_Size (evList ++ pbs ++ [pb])).
Proof.
  revert evidence evList totalSize.
  induction iter as [|[k v] iter IH]; intros evidence evList totalSize;
    simpl.
  - intros [= <- <-]. exists [], [], [], [].
    split; [done|]. split; [constructor|]. split; [constructor|].
    split; [by rewrite app_nil_r|]. split; [done|]. by left.
  - destruct (pb_Unmarshal v) as [evp|] eqn:Hv; [|done].
    destruct (negb (maxBytes =? -1)
              && (maxBytes <? EvidenceData_Size (evList ++ [evp])))
      eqn:Hover.
    + intros [= <- <-]. exists [], ((k, v) :: iter), [], [].
      split; [done|]. split; [constructor|]. split; [constructor|].
      split; [by rewrite app_nil_r|]. split; [done|].
      right. exists k, v, evp, iter.
      apply andb_true_iff in Hover as [Hne Hlt].
      apply negb_true_iff, Z.eqb_neq in Hne. apply Z.ltb_lt in Hlt. done.
    + destruct (EvidenceFromProto evp) as [ev|] eqn:Hev; [|done].
      intros Hloop.
      apply IH in Hloop
        as (taken & rest & pbs & evs' & -> & Ht & Hp & -> & -> & Hstop).
      exists ((k, v) :: taken), rest, (evp :: pbs), (ev :: evs').
      split; [done|]. split; [by constructor|]. split; [by constructor|].
      split; [by rewrite <- app_assoc|]. split.
      * destruct taken; [|by rewrite <- app_assoc].
        apply Forall2_nil_inv_l in Ht as ->. done.
      * destruct Hstop as [->|(k' & v' & pb & rest' & -> & ? & ? & Hlt)];
          [by left|].
        right. exists k', v', pb, rest'. by rewrite <- app_assoc in Hlt.
Qed.

(** Without a cap the loop takes every record, as long as each can be
    read. *)
Lemma listEvidence_loop_unbounded iter evidence evList totalSize :
  Forall (λ kv, ∃ ev, bytesToEv kv.2 = Ok ev) iter →
  ∃ size,
    listEvidence_loop (-1) iter evidence evList totalSize
    = (evidence ++ readable iter, size, None).
Proof.
  revert evidence evList totalSize.
  induction iter as [|[k v] iter IH]; intros evidence evList totalSize Hall.
  - exists totalSize. simpl. by rewrite app_nil_r.
  - apply Forall_cons in Hall as [[ev Hev] Hall]. simpl in Hev.
    cbn [listEvidence_loop readable omap list_omap snd].
    fold (readable iter). rewrite Hev.
    unfold bytesToEv in Hev. destruct (pb_Unmarshal v) as [evp|]; [|done].
    rewrite Hev. simpl.
    destruct (IH (evidence ++ [ev]) (evList ++ [evp])
                (EvidenceData_Size (evList ++ [evp])) Hall) as [size ->].
    exists size. by rewrite <- app_assoc.
Qed.

(** With a cap below -1, and sizes that are not negative, the loop takes
    nothing. *)
Lemma listEvidence_loop_negative maxBytes iter evidence evList totalSize :
  maxBytes < -1 → (∀ l, 0 <= EvidenceData_Size l) →
  (listEvidence_loop maxBytes iter evidence evList totalSize).1
  = (evidence, totalSize).
Proof.
  intros Hneg Hsize. destruct iter as [|[k v] iter]; simpl; [done|].
  destruct (pb_Unmarshal v) as [evp|]; [|done].
  destruct (Z.eqb_spec maxBytes (-1)); [lia|]. simpl.
  specialize (Hsize (evList ++ [evp])).
  destruct (Z.ltb_spec maxBytes (EvidenceData_Size (evList ++ [evp])));
    [done|lia].
Qed.

Lemma listEvidence_loop_backed maxBytes iter evidence evList totalSize :
  Forall2 (λ pb ev, EvidenceFromProto pb = Ok ev) evList evidence →
  (evidence ≠ [] → EvidenceData_Size evList = totalSize) →
  let r := (listEvidence_loop maxBytes iter evidence evList totalSize).1 in
  ∃ pbs, Forall2 (λ pb ev, EvidenceFromProto pb = Ok ev) pbs r.1
         ∧ (r.1 ≠ [] → EvidenceData_Size pbs = r.2).
Proof.
  revert evidence evList totalSize.
  induction iter as [|[k v] iter IH]; intros evidence evList totalSize HF HS;
    simpl; [by exists evList|].
  destruct (pb_Unmarshal v) as [evp|]; [|by exists evList].
  destruct (_ && _); [by exists evList|].
  destruct (EvidenceFromProto evp) as [ev|] eqn:Hev.
  - apply IH; [|done]. apply Forall2_app; [done|]. by repeat constructor.
  - exists []. split; [constructor|done].
Qed.

(** C6, as amended. For a cap that is not negative, the size that
    [PendingEvidence] returns is not above the cap and is the serialized
    size of the list it returns; a listing without error stops strictly
    before the record whose inclusion would exceed the cap. For the cap
    -1, and a count that is not zero, the call returns the evidence of
    every pending record, provided each can be read. For a cap below -1
    the call returns no evidence and the size 0. *)
Theorem PendingEvidence_within_maxBytes :
  (∀ p maxBytes,
     0 <= maxBytes →
     let r := (PendingEvidence p maxBytes).2 in
     r.2 <= maxBytes
     ∧ ∃ pbs, Forall2 (λ pb ev, EvidenceFromProto pb = Ok ev) pbs r.1
              ∧ (r.1 ≠ [] → EvidenceData_Size pbs = r.2))
  ∧ (∀ p maxBytes evs size,
       listEvidence p baseKeyPending maxBytes = (evs, size, None) →
       ∃ taken rest pbs,
         kaidb.NewIterator (evidenceDB p) baseKeyPending = taken ++ rest
         ∧ Forall2 (λ kv pb, pb_Unmarshal kv.2 = Ok pb) taken pbs
         ∧ Forall2 (λ pb ev, EvidenceFromProto pb = Ok ev) pbs evs
         ∧ size = (if taken is [] then 0 else EvidenceData_Size pbs)
         ∧ (rest = []
            ∨ ∃ k v pb rest',
                rest = (k, v) :: rest' ∧ pb_Unmarshal v = Ok pb
                ∧ maxBytes ≠ -1
                ∧ maxBytes < EvidenceData_Size (pbs ++ [pb])))
  ∧ (∀ p,
       Size p ≠ 0 →
       Forall (λ kv, ∃ ev, bytesToEv kv.2 = Ok ev)
         (kaidb.NewIterator (evidenceDB p) baseKeyPending) →
       ∃ size,
         PendingEvidence p (-1)
         = (p, (readable (kaidb.NewIterator (evidenceDB p) baseKeyPending),
                size)))
  ∧ (∀ p maxBytes,
       maxBytes < -1 → (∀ l, 0 <= EvidenceData_Size l) →
       (PendingEvidence p maxBytes).2 = ([], 0)).
Proof.
  split; [|split; [|split]].
  - intros p maxBytes Hpos r. subst r. unfold PendingEvidence.
    destruct (Size p =? 0).
    { simpl. split; [done|]. exists []. split; [constructor|done]. }
    unfold listEvidence.
    set (iter := kaidb.NewIterator _ _).
    pose proof (listEvidence_loop_bound maxBytes iter [] [] 0) as Hb.
    pose proof (listEvidence_loop_backed maxBytes iter [] [] 0) as Hk.
    destruct (listEvidence_loop maxBytes iter [] [] 0) as [[evs size] err].
    simpl in Hb, Hk.
    assert (size <= maxBytes ∧
            ∃ pbs, Forall2 (λ pb ev, EvidenceFromProto pb = Ok ev) pbs evs
                   ∧ (evs ≠ [] → EvidenceData_Size pbs = size)) as Hres.
    { split; [apply Hb; lia|]. apply Hk; [constructor|done]. }
    by destruct err.
  - intros p maxBytes evs size Hl. unfold listEvidence in Hl.
    apply listEvidence_loop_spec in Hl
      as (taken & rest & pbs & evs' & Hiter & Ht & Hp & -> & -> & Hstop).
    exists taken, rest, pbs. done.
  - intros p Hsize Hall. unfold PendingEvidence.
    destruct (Z.eqb_spec (Size p) 0); [done|]. unfold listEvidence.
    destruct (listEvidence_loop_unbounded _ [] [] 0 Hall) as [size ->].
    by exists size.
  - intros p maxBytes Hneg Hnn. unfold PendingEvidence.
    destruct (Size p =? 0); [done|]. unfold listEvidence.
    pose proof (listEvidence_loop_negative maxBytes
      (kaidb.NewIterator (evidenceDB p) baseKeyPending) [] [] 0 Hneg Hnn)
      as Hl.
    destruct (listEvidence_loop _ _ _ _ _) as [[evs size] err].
    simpl in Hl. injection Hl as -> ->. by destruct err.
Qed.

End Listing.

(** The claim C6 as it is written fails for the cap -2: three pieces of
    evidence are pending, the cap -1 returns them all, the cap -2 returns
    none. *)
Lemma PendingEvidence_minus_two_returns_nothing :
  let p := Examples.stocked in
  (PendingEvidence (C := Examples.accepting) p (-1)).2.1
  = [Examples.ev1; Examples.ev2; Examples.ev3]
  ∧ (PendingEvidence (C := Examples.accepting) p (-2)).2 = ([], 0).
Proof. by vm_compute. Qed.

Lemma PendingEvidence_within_maxBytes_witness :
  let r := (PendingEvidence (C := Examples.accepting) Examples.stocked 11).2 in
  r.1 = [Examples.ev1; Examples.ev2] ∧ r.2 <= 11.
Proof.
  split; [by vm_compute|].
  destruct (PendingEvidence_within_maxBytes (C := Examples.accepting))
    as (H & _).
  apply (H Examples.stocked 11). lia.
Defined.

(** ** Records that cannot be read *)

Section Unreadable.

Context `{C : Collaborators}.

Lemma sameButLog_refl p : sameButLog p p.
Proof. by repeat split. Qed.

Lemma sameButLog_logf lvl msg p q :
  sameButLog p q → sameButLog p (logf lvl msg q).
Proof. by intros (? & ? & ? & ? & ? & ?). Qed.

Lemma removeMarked_sameButLog m p q :
  sameButLog p q → sameButLog (removeMarked m p) (removeMarked m q).
Proof.
  intros (HL & HS & HD & Hst & Hh & Ht). unfold removeMarked.
  case_decide; [by repeat split|].
  unfold removeEvidenceFromList. repeat split; simpl; congruence.
Qed.

(** The pass does not read the log. *)
Lemma removeExpired_loop_sameButLog iter m p q :
  sameButLog p q →
  sameButLog (removeExpired_loop iter m p).1 (removeExpired_loop iter m q).1
  ∧ (removeExpired_loop iter m q).2 = (removeExpired_loop iter m p).2.
Proof.
  revert m p q. induction iter as [|[k v] iter IH]; intros m p q Hs.
  - simpl. pose proof (removeMarked_sameButLog m p q Hs) as Hs'.
    split; [done|]. destruct Hs' as (_ & _ & _ & -> & _). done.
  - cbn [removeExpired_loop]. destruct (bytesToEv v) as [ev|e].
    + rewrite (isExpired_state p q) by apply Hs.
      destruct (isExpired p (Height ev) (Time ev)); cbn [negb].
      * apply IH. destruct Hs as (HL & HS & HD & Hst & Hh & Ht).
        unfold removePendingEvidence. repeat split; simpl; congruence.
      * pose proof (removeMarked_sameButLog m p q Hs) as Hs'.
        split; [done|]. simpl.
        destruct Hs' as (_ & _ & _ & -> & _). done.
    + apply IH. destruct Hs as (HL & HS & HD & Hst & Hh & Ht).
      by repeat split.
Qed.

Lemma removeMarked_logger m p : logger (removeMarked m p) = logger p.
Proof. unfold removeMarked. by case_decide. Qed.

(** The pass only adds to the log. *)
Lemma removeExpired_loop_logger iter m p line :
  line ∈ logger p → line ∈ logger (removeExpired_loop iter m p).1.
Proof.
  revert m p. induction iter as [|[k v] iter IH]; intros m p Hin.
  - simpl. by rewrite removeMarked_logger.
  - cbn [removeExpired_loop]. destruct (bytesToEv v) as [ev|e].
    + destruct (isExpired p (Height ev) (Time ev)); cbn [negb].
      * apply IH. simpl. apply elem_of_app. by left.
      * simpl. by rewrite removeMarked_logger.
    + apply IH. simpl. apply elem_of_app. by left.
Qed.

Lemma removeExpired_loop_skip before k v after m p e :
  bytesToEv v = Err e →
  let with_record := removeExpired_loop (before ++ (k, v) :: after) m p in
  let without := removeExpired_loop (before ++ after) m p in
  sameButLog without.1 with_record.1
  ∧ with_record.2 = without.2
  ∧ (firstSurvivor p (readable before) = None →
     (LvlError, "Error in transition evidence from protobuf")
     ∈ logger with_record.1).
Proof.
  intros Hv. revert m p.
  induction before as [|[k' v'] before IH]; intros m p; cbv zeta.
  - cbn [app removeExpired_loop]. rewrite Hv.
    destruct (removeExpired_loop_sameButLog after m p
      (logf LvlError "Error in transition evidence from protobuf" p))
      as [Hs Hw]; [apply sameButLog_logf, sameButLog_refl|].
    split; [done|]. split; [done|]. intros _.
    apply removeExpired_loop_logger. simpl.
    apply elem_of_app. right. by left.
  - cbn [app removeExpired_loop readable omap list_omap snd].
    fold (readable before). destruct (bytesToEv v') as [ev'|e'].
    + cbn [firstSurvivor].
      destruct (isExpired p (Height ev') (Time ev')); cbn [negb].
      * specialize (IH ({[evMapKey ev']} ∪ m) (removePendingEvidence ev' p)).
        cbv zeta in IH.
        rewrite (firstSurvivor_state p (removePendingEvidence ev' p))
          in IH by done.
        exact IH.
      * split; [apply sameButLog_refl|]. split; [done|]. done.
    + set (p1 := logf LvlError
                   "Error in transition evidence from protobuf" p).
      specialize (IH m p1). cbv zeta in IH.
      rewrite (firstSurvivor_state p p1) in IH by done. exact IH.
Qed.

Lemma listEvidence_loop_stops before k v after evidence evList totalSize e :
  Forall (λ kv, ∃ ev, bytesToEv kv.2 = Ok ev) before →
  bytesToEv v = Err e →
  ∃ evs size,
    listEvidence_loop (-1) (before ++ (k, v) :: after) evidence evList
      totalSize = (evs, size, Some e)
    ∧ (evs = evidence ++ readable before ∨ evs = []).
Proof.
  intros Hall Hv. revert evidence evList totalSize.
  induction before as [|[k' v'] before IH];
    intros evidence evList totalSize.
  - cbn [app listEvidence_loop]. unfold bytesToEv in Hv.
    destruct (pb_Unmarshal v) as [evp|].
    + rewrite Hv. simpl. eexists _, _. split; [done|]. by right.
    + injection Hv as ->. eexists _, _. split; [done|].
      left. simpl. by rewrite app_nil_r.
  - apply Forall_cons in Hall as [[ev' Hev'] Hall]. simpl in Hev'.
    cbn [app listEvidence_loop readable omap list_omap snd].
    fold (readable before). rewrite Hev'.
    unfold bytesToEv in Hev'. destruct (pb_Unmarshal v') as [evp|]; [|done].
    rewrite Hev'. simpl.
    destruct (IH Hall (evidence ++ [ev']) (evList ++ [evp])
                (EvidenceData_Size (evList ++ [evp])))
      as (evs & size & -> & Hevs).
    exists evs, size. split; [done|].
    destruct Hevs as [-> | ->]; [left|by right]. by rewrite <- app_assoc.
Qed.

(** C9, as amended. In the pruning scan a record that cannot be read is
    logged and skipped: the pass goes on and ends, but for the log, as it
    would without the record. In the listing scan the first record that
    cannot be read stops the scan, which returns the error and the
    evidence read before the record, or none: [PendingEvidence] logs the
    error and returns that list, and [NewPool] fails with the error. *)
Theorem unreadable_record_pruning_skips_listing_stops :
  (∀ before k v after m p e,
     bytesToEv v = Err e →
     let with_record := removeExpired_loop (before ++ (k, v) :: after) m p in
     let without := removeExpired_loop (before ++ after) m p in
     sameButLog without.1 with_record.1
     ∧ with_record.2 = without.2
     ∧ (firstSurvivor p (readable before) = None →
        (LvlError, "Error in transition evidence from protobuf")
        ∈ logger with_record.1))
  ∧ (∀ p before k v after e,
       kaidb.NewIterator (evidenceDB p) baseKeyPending
       = before ++ (k, v) :: after →
       Forall (λ kv, ∃ ev, bytesToEv kv.2 = Ok ev) before →
       bytesToEv v = Err e →
       ∃ evs size,
         listEvidence p baseKeyPending (-1) = (evs, size, Some e)
         ∧ (evs = readable before ∨ evs = [])
         ∧ (Size p ≠ 0 →
            PendingEvidence p (-1)
            = (logf LvlError "Unable to retrieve pending evidence" p,
               (evs, size))))
  ∧ (∀ st db evs size e,
       let pruned :=
         removeExpiredPendingEvidence (mkPool [] [] 0 db st 0 0) in
       listEvidence (set_pruning pruned.2.1 pruned.2.2 pruned.1)
         baseKeyPending (-1) = (evs, size, Some e) →
       NewPool st db = Err e).
Proof.
  split; [exact removeExpired_loop_skip|]. split.
  - intros p before k v after e Hiter Hall Hv.
    destruct (listEvidence_loop_stops before k v after [] [] 0 e Hall Hv)
      as (evs & size & Hl & Hevs).
    exists evs, size. unfold PendingEvidence, listEvidence.
    rewrite Hiter, Hl. split; [done|]. split; [done|].
    intros Hsize. by destruct (Z.eqb_spec (Size p) 0).
  - intros st db evs size e pruned. subst pruned. unfold NewPool.
    destruct (removeExpiredPendingEvidence _) as [q [h t]]. simpl.
    by intros ->.
Qed.

End Unreadable.

(** The claim C9 as it is written fails in the listing scan: the first
    pending record cannot be read and the second is the record of
    [Examples.ev2], which is not expired; the listing returns the error and
    not that evidence, and [NewPool] fails over the same store. *)
Lemma listing_stops_at_unreadable_record :
  let p := Examples.damaged in
  kaidb.NewIterator (evidenceDB p) baseKeyPending
  = [("evidence-pending000000000000000A/01", [Byte.x0a]);
     (keyPending Examples.ev2, [Byte.x0b; Byte.x64; Byte.x02])]
  ∧ bytesToEv (C := Examples.accepting) [Byte.x0b; Byte.x64; Byte.x02]
    = Ok Examples.ev2
  ∧ isExpired p (Height Examples.ev2) (Time Examples.ev2) = false
  ∧ listEvidence (C := Examples.accepting) p baseKeyPending (-1)
    = ([], 0, Some (errors_New "unexpected EOF"))
  ∧ (PendingEvidence (C := Examples.accepting) p (-1)).2 = ([], 0)
  ∧ NewPool (C := Examples.accepting) (state p) (evidenceDB p)
    = Err (errors_New "unexpected EOF").
Proof. by vm_compute. Qed.

Lemma unreadable_record_witness :
  ∃ size,
    listEvidence (C := Examples.accepting) Examples.damaged
      baseKeyPending (-1)
    = ([], size, Some (errors_New "unexpected EOF")).
Proof.
  destruct (unreadable_record_pruning_skips_listing_stops
              (C := Examples.accepting)) as (_ & H & _).
  destruct (H Examples.damaged []
              "evidence-pending000000000000000A/01" [Byte.x0a]
              [(keyPending Examples.ev2, [Byte.x0b; Byte.x64; Byte.x02])]
              (errors_New "unexpected EOF"))
    as (evs & size & Hl & Hevs & _).
  - by vm_compute.
  - apply Forall_nil_2.
  - reflexivity.
  - exists size. destruct Hevs as [-> | ->]; exact Hl.
Defined.

(** ** Evidence from the consensus *)

Section FromConsensus.

Context `{C : Collaborators}.

Lemma keyPending_ne_keyCommitted ev ev' : keyPending ev ≠ keyCommitted ev'.
Proof.
  intros Heq. pose proof (keyCommitted_not_pending ev') as Hpre.
  rewrite <- Heq in Hpre. unfold keyPending in Hpre. simpl in Hpre.
  by destruct (keySuffix ev).
Qed.

Lemma keyPending_keyCommitted ev ev' :
  keyPending ev = keyPending ev' ↔ keyCommitted ev = keyCommitted ev'.
Proof.
  unfold keyPending, keyCommitted. split; intros Heq.
  - apply (inj (String.app baseKeyPending)) in Heq. by rewrite Heq.
  - apply (inj (String.app baseKeyCommitted)) in Heq. by rewrite Heq.
Qed.

(** Writing evidence that is not committed under its pending key keeps
    the two namespaces apart. *)
Lemma namespacesDisjoint_Put_pending db ev v :
  namespacesDisjoint db → kaidb.Has db (keyCommitted ev) = false →
  namespacesDisjoint (kaidb.Put db (keyPending ev) v).
Proof.
  intros Hd Hc ev'. rewrite !Has_Put.
  rewrite (bool_decide_false (keyPending ev = keyCommitted ev'))
    by apply keyPending_ne_keyCommitted.
  rewrite orb_false_l. intros Hp Hc'.
  destruct (decide (keyPending ev = keyPending ev')) as [Hk|Hk].
  - apply keyPending_keyCommitted in Hk. congruence.
  - rewrite (bool_decide_false _ Hk), orb_false_l in Hp. by apply (Hd ev').
Qed.

Lemma namespacesDisjoint_Delete db k :
  namespacesDisjoint db → namespacesDisjoint (kaidb.Delete db k).
Proof.
  intros Hd ev'. rewrite !Has_Delete.
  intros [_ Hp]%andb_true_iff [_ Hc]%andb_true_iff. by apply (Hd ev').
Qed.

(** Writing the committed key of evidence that is not pending keeps the
    two namespaces apart. *)
Lemma namespacesDisjoint_Put_committed db ev v :
  namespacesDisjoint db → kaidb.Has db (keyPending ev) = false →
  namespacesDisjoint (kaidb.Put db (keyCommitted ev) v).
Proof.
  intros Hd Hp ev'. rewrite !Has_Put.
  rewrite (bool_decide_false (keyCommitted ev = keyPending ev'))
    by (intros Heq; by apply (keyPending_ne_keyCommitted ev' ev)).
  rewrite orb_false_l. intros Hp' Hc.
  destruct (decide (keyCommitted ev = keyCommitted ev')) as [Hk|Hk].
  - apply keyPending_keyCommitted in Hk. congruence.
  - rewrite (bool_decide_false _ Hk), orb_false_l in Hc. by apply (Hd ev').
Qed.

Lemma addPendingEvidence_disjoint ev p :
  namespacesDisjoint (evidenceDB p) → isCommitted p ev = false →
  namespacesDisjoint (evidenceDB (addPendingEvidence ev p).1).
Proof.
  intros Hd Hc. unfold addPendingEvidence.
  destruct (EvidenceToProto ev) as [evpb|]; [|done].
  destruct (pb_Marshal evpb) as [evBytes|]; [|done].
  by apply namespacesDisjoint_Put_pending.
Qed.

(** [AddEvidence] keeps the two namespaces apart. *)
Lemma AddEvidence_disjoint ev p :
  namespacesDisjoint (evidenceDB p) →
  namespacesDisjoint (evidenceDB (AddEvidence ev p).1).
Proof.
  intros Hd. unfold AddEvidence.
  set (q := logf LvlDebug "Attempting to add evidence" p).
  destruct (isPending q ev); [done|].
  destruct (isCommitted q ev) eqn:Hc; [done|].
  destruct (verify q ev); [done|].
  pose proof (addPendingEvidence_disjoint ev q Hd Hc) as Hd'.
  by destruct (addPendingEvidence ev q) as [q' [e|]].
Qed.

(** So does [CheckEvidence]. *)
Lemma CheckEvidence_disjoint evList p :
  namespacesDisjoint (evidenceDB p) →
  namespacesDisjoint (evidenceDB (CheckEvidence evList p).1).
Proof.
  unfold CheckEvidence. generalize (@nil Bytes) as hashes. revert p.
  induction evList as [|ev evList IH]; intros p hashes Hd; [done|].
  cbn [CheckEvidence_loop].
  assert (Hone : namespacesDisjoint (evidenceDB (checkOne ev p).1)).
  { unfold checkOne. destruct (fastCheck p ev); [done|].
    destruct (isCommitted p ev) eqn:Hc; [done|].
    destruct (verify p ev); [done|].
    pose proof (addPendingEvidence_disjoint ev p Hd Hc) as Hd'.
    by destruct (addPendingEvidence ev p) as [q' [e|]]. }
  destruct (checkOne ev p) as [p1 [e|]]; [done|].
  destruct (existsb _ hashes); [done|]. by apply IH.
Qed.

Lemma markOne_disjoint p m ev :
  namespacesDisjoint (evidenceDB p) →
  namespacesDisjoint (evidenceDB (markOne (p, m) ev).1).
Proof.
  intros Hd. unfold markOne.
  set (q := if isPending p ev then _ else _).
  assert (Hq : namespacesDisjoint (evidenceDB q.1)
               ∧ kaidb.Has (evidenceDB q.1) (keyPending ev) = false).
  { unfold q. destruct (isPending p ev) eqn:Hp.
    - split; [by apply namespacesDisjoint_Delete|].
      cbn [fst removePendingEvidence logf set_evidenceSize set_evidenceDB
             evidenceDB].
      rewrite Has_Delete.
      by rewrite (bool_decide_true (keyPending ev = keyPending ev)).
    - split; [exact Hd|exact Hp]. }
  destruct q as [q1 m1]. destruct Hq as [Hd1 Hp1].
  cbn [fst] in Hd1, Hp1.
  destruct (UInt64Value_Marshal (Height ev)); [|exact Hd1].
  by apply namespacesDisjoint_Put_committed.
Qed.

(** So does [Update]: the evidence of the block leaves the pending
    namespace before it is marked as committed, and the pruning pass only
    deletes. *)
Lemma Update_disjoint st evs p p' :
  namespacesDisjoint (evidenceDB p) → Update st evs p = Returned p' →
  namespacesDisjoint (evidenceDB p').
Proof.
  intros Hd. unfold Update.
  destruct (LastBlockHeight st <=? LastBlockHeight (state p)); [done|].
  set (p0 := updateState st _).
  assert (Hm : namespacesDisjoint (evidenceDB (markEvidenceAsCommitted evs p0))).
  { unfold markEvidenceAsCommitted.
    assert (Hd0 : namespacesDisjoint (evidenceDB p0)) by done.
    clearbody p0. generalize (∅ : gset string) as m. revert p0 Hd0.
    induction evs as [|ev evs IH]; intros p0 Hd0 m; cbn [foldl].
    - by destruct (removeMarked_frame m p0) as (_ & _ & -> & _).
    - pose proof (markOne_disjoint p0 m ev Hd0) as Hd1.
      destruct (markOne (p0, m) ev) as [p1 m1]. by apply IH. }
  set (q := markEvidenceAsCommitted evs p0) in *.
  destruct (_ && _ && _); [|by intros [= <-]].
  pose proof (removeExpired_loop_spec
    (kaidb.NewIterator (evidenceDB q) baseKeyPending) ∅ q) as Hspec.
  cbv zeta in Hspec. destruct Hspec as (HDB & _).
  fold (removeExpiredPendingEvidence q) in HDB.
  destruct (removeExpiredPendingEvidence q) as [q' [h t]].
  intros [= <-]. cbn [fst] in HDB.
  cbn [set_pruning evidenceDB]. rewrite HDB.
  generalize (expiredPrefix q
    (readable (kaidb.NewIterator (evidenceDB q) baseKeyPending))) as gone.
  intros gone. revert Hm. generalize (evidenceDB q) as db.
  induction gone as [|ev gone IH]; intros db Hdb; [done|].
  cbn [foldl]. by apply IH, namespacesDisjoint_Delete.
Qed.

(** [AddEvidenceFromConsensus] does not look at the committed namespace:
    evidence that is committed and not pending becomes pending again. *)
Lemma AddEvidenceFromConsensus_committed ev p evBytes :
  isPending p ev = false → isCommitted p ev = true →
  encodeEvidence ev = Ok evBytes →
  ∃ p', AddEvidenceFromConsensus ev p = (p', None)
        ∧ isPending p' ev = true ∧ isCommitted p' ev = true
        ∧ evidenceList p' = evidenceList p ++ [ev]
        ∧ evidenceSize p' = Go.uint32 (evidenceSize p + 1).
Proof.
  intros Hp Hc Henc. unfold AddEvidenceFromConsensus. rewrite Hp.
  rewrite (addPendingEvidence_ok _ _ _ Henc).
  eexists. split; [done|]. unfold isPending, isCommitted. simpl.
  rewrite !Has_Put, (bool_decide_true (keyPending ev = keyPending ev))
    by done.
  rewrite (bool_decide_false (keyPending ev = keyCommitted ev))
    by apply keyPending_ne_keyCommitted.
  done.
Qed.

End FromConsensus.

(** C1. The code at the failing input: evidence is added, then committed by
    an update, which takes it out of the pending namespace; [AddEvidence]
    leaves it out, [AddEvidenceFromConsensus] returns no error and writes
    it back: the evidence is pending and committed at once, and is again
    in the list of evidence to gossip. *)
Theorem AddEvidenceFromConsensus_readmits_committed :
  ∃ p1 p2 p3 p4,
    AddEvidence (C := Examples.accepting) Examples.ev1 Examples.empty
    = (p1, None)
    ∧ Update (C := Examples.accepting) (mkState 6 60 Examples.params)
        [Examples.ev1] p1 = Returned p2
    ∧ isPending p2 Examples.ev1 = false
    ∧ isCommitted p2 Examples.ev1 = true
    ∧ AddEvidence (C := Examples.accepting) Examples.ev1 p2 = (p3, None)
    ∧ isPending p3 Examples.ev1 = false
    ∧ AddEvidenceFromConsensus (C := Examples.accepting) Examples.ev1 p2
      = (p4, None)
    ∧ isPending p4 Examples.ev1 = true
    ∧ isCommitted p4 Examples.ev1 = true
    ∧ evidenceList p4 = [Examples.ev1]
    ∧ evidenceSize p4 = 1.
Proof.
  eexists _, _, _, _.
  split; [vm_compute; reflexivity|].
  split; [vm_compute; reflexivity|].
  split; [by vm_compute|]. split; [by vm_compute|].
  split; [vm_compute; reflexivity|]. split; [by vm_compute|].
  split; [vm_compute; reflexivity|].
  by vm_compute.
Qed.

(** * Further properties of the pool *)

(** ** The keys *)

Section Keys.

Lemma string_app_length s t :
  String.length (s +:+ t) = (String.length s + String.length t)%nat.
Proof. induction s as [|c s IH]; [done|]. simpl. by rewrite IH. Qed.

Lemma string_app_inj_len s1 s2 t1 t2 :
  String.length s1 = String.length s2 → s1 +:+ t1 = s2 +:+ t2 →
  s1 = s2 ∧ t1 = t2.
Proof.
  revert s2. induction s1 as [|c1 s1 IH]; intros [|c2 s2] Hlen Heq;
    try done.
  simpl in Hlen, Heq. injection Hlen as Hlen. injection Heq as -> Heq.
  destruct (IH s2 Hlen Heq) as [-> ->]. done.
Qed.

Lemma string_compare_app s1 s2 t1 t2 :
  String.length s1 = String.length s2 →
  String.compare (s1 +:+ t1) (s2 +:+ t2)
  = match String.compare s1 s2 with
    | Eq => String.compare t1 t2
    | c => c
    end.
Proof.
  revert s2. induction s1 as [|c1 s1 IH]; intros [|c2 s2] Hlen; try done.
  simpl in Hlen. injection Hlen as Hlen. simpl.
  destruct (Ascii.compare c1 c2); [by apply IH|done..].
Qed.

Lemma string_compare_refl s : String.compare s s = Eq.
Proof.
  induction s as [|c s IH]; [done|]. simpl.
  unfold Ascii.compare. by rewrite N.compare_refl.
Qed.

Lemma length_hexFixed n h : String.length (hexFixed n h) = n.
Proof.
  revert h. induction n as [|n IH]; intros h; [done|].
  cbn [hexFixed]. rewrite string_app_length, IH. cbn. lia.
Qed.

Lemma hexDigit_compare a b :
  0 <= a < 16 → 0 <= b < 16 →
  Ascii.compare (hexDigit a) (hexDigit b) = (a ?= b).
Proof.
  intros Ha Hb.
  assert (Hcases : ∀ x, 0 <= x < 16 →
            x = 0 ∨ x = 1 ∨ x = 2 ∨ x = 3 ∨ x = 4 ∨ x = 5 ∨ x = 6 ∨ x = 7
            ∨ x = 8 ∨ x = 9 ∨ x = 10 ∨ x = 11 ∨ x = 12 ∨ x = 13 ∨ x = 14
            ∨ x = 15) by (intros; lia).
  destruct (Hcases a Ha) as [->|[->|[->|[->|[->|[->|[->|[->|[->|[->|[->|[->|
    [->|[->|[->| ->]]]]]]]]]]]]]]];
  destruct (Hcases b Hb) as [->|[->|[->|[->|[->|[->|[->|[->|[->|[->|[->|[->|
    [->|[->|[->| ->]]]]]]]]]]]]]]]; reflexivity.
Qed.

Lemma compare_div_mod a b :
  (a ?= b)
  = match a / 16 ?= b / 16 with
    | Eq => a mod 16 ?= b mod 16
    | c => c
    end.
Proof.
  pose proof (Z.div_mod a 16 ltac:(lia)). pose proof (Z.div_mod b 16 ltac:(lia)).
  pose proof (Z.mod_pos_bound a 16 ltac:(lia)).
  pose proof (Z.mod_pos_bound b 16 ltac:(lia)).
  destruct (Z.compare_spec (a / 16) (b / 16));
    destruct (Z.compare_spec (a mod 16) (b mod 16));
    destruct (Z.compare_spec a b); try reflexivity; lia.
Qed.

(** The fixed-width hexadecimal numerals compare as the numbers. *)
Lemma hexFixed_compare n a b :
  0 <= a < 16 ^ Z.of_nat n → 0 <= b < 16 ^ Z.of_nat n →
  String.compare (hexFixed n a) (hexFixed n b) = (a ?= b).
Proof.
  revert a b. induction n as [|n IH]; intros a b Ha Hb.
  - cbn in Ha, Hb. assert (a = 0) as -> by lia. by assert (b = 0) as -> by lia.
  - cbn [hexFixed]. rewrite string_compare_app by by rewrite !length_hexFixed.
    rewrite Nat2Z.inj_succ, Z.pow_succ_r in Ha, Hb by lia.
    rewrite IH by (split; [apply Z.div_pos; lia|apply Z.div_lt_upper_bound; lia]).
    rewrite (compare_div_mod a b).
    destruct (a / 16 ?= b / 16); [|done..].
    cbn [String.compare].
    rewrite hexDigit_compare by (apply Z.mod_pos_bound; lia).
    by destruct (a mod 16 ?= b mod 16).
Qed.

Lemma hexFixed_inj n a b :
  0 <= a < 16 ^ Z.of_nat n → 0 <= b < 16 ^ Z.of_nat n →
  hexFixed n a = hexFixed n b → a = b.
Proof.
  intros Ha Hb Heq. apply Z.compare_eq.
  rewrite <- (hexFixed_compare n) by done. rewrite Heq.
  apply string_compare_refl.
Qed.

Lemma hexUpper_inj bs bs' : hexUpper bs = hexUpper bs' → bs = bs'.
Proof.
  assert (Hb : ∀ b, 0 <= Z.of_N (Byte.to_N b) < 16 ^ Z.of_nat 2).
  { intros b. pose proof (Byte.to_N_bounded b). cbn. lia. }
  assert (Hlen : ∀ l, String.length (hexUpper l) = (2 * length l)%nat).
  { intros l. induction l as [|b l IH]; [done|]. cbn [hexUpper length].
    rewrite string_app_length, length_hexFixed, IH. lia. }
  revert bs'. induction bs as [|b bs IH]; intros [|b' bs'] Heq.
  - done.
  - apply (f_equal String.length) in Heq. rewrite !Hlen in Heq. cbn in Heq. lia.
  - apply (f_equal String.length) in Heq. rewrite !Hlen in Heq. cbn in Heq. lia.
  - cbn [hexUpper] in Heq.
    apply string_app_inj_len in Heq as [Hhd Htl]; [|by rewrite !length_hexFixed].
    apply hexFixed_inj in Hhd; [|done..].
    apply N2Z.inj in Hhd.
    assert (b = b') as ->.
    { pose proof (Byte.of_to_N b) as H1. pose proof (Byte.of_to_N b') as H2.
      rewrite Hhd in H1. congruence. }
    by rewrite (IH bs' Htl).
Qed.

Lemma string_prefix_app s t : String.prefix s (s +:+ t) = true.
Proof.
  induction s as [|c s IH]; simpl; [by destruct t|].
  destruct (ascii_dec c c); [done|congruence].
Qed.

Lemma keyPending_prefix ev :
  String.prefix baseKeyPending (keyPending ev) = true.
Proof. apply string_prefix_app. Qed.

Lemma keySuffix_inj ev ev' :
  keySuffix ev = keySuffix ev' →
  bE (Height ev) = bE (Height ev') ∧ Hash ev = Hash ev'.
Proof.
  unfold keySuffix, bE. intros Heq.
  apply string_app_inj_len in Heq as [Hh Ht]; [|by rewrite !length_hexFixed].
  split; [done|]. apply hexUpper_inj. by injection Ht.
Qed.

Lemma keyPending_Hash ev ev' :
  keyPending ev = keyPending ev' → Hash ev = Hash ev'.
Proof.
  unfold keyPending. intros Heq%(inj (String.app baseKeyPending)).
  by apply keySuffix_inj in Heq as [_ ?].
Qed.

Lemma bE_compare h h' :
  0 <= h < 2 ^ 64 → 0 <= h' < 2 ^ 64 →
  String.compare (bE h) (bE h') = (h ?= h').
Proof. intros. by apply hexFixed_compare. Qed.

Lemma keyPending_compare ev ev' :
  0 <= Height ev < 2 ^ 64 → 0 <= Height ev' < 2 ^ 64 →
  Height ev < Height ev' →
  String.compare (keyPending ev) (keyPending ev') = Lt.
Proof.
  intros Hr Hr' Hlt. unfold keyPending, keySuffix.
  rewrite string_compare_app, string_compare_refl by done.
  rewrite string_compare_app by (unfold bE; by rewrite !length_hexFixed).
  rewrite bE_compare by done. by apply Z.compare_lt_iff in Hlt as ->.
Qed.

(** X1. Two pieces of evidence with heights of 64 bits have the same
    pending key, and the same committed key, exactly when they have the
    same height and the same hash. *)
Theorem keys_identify_height_and_hash ev ev' :
  0 <= Height ev < 2 ^ 64 → 0 <= Height ev' < 2 ^ 64 →
  (keyPending ev = keyPending ev'
   ↔ Height ev = Height ev' ∧ Hash ev = Hash ev')
  ∧ (keyCommitted ev = keyCommitted ev'
     ↔ Height ev = Height ev' ∧ Hash ev = Hash ev').
Proof.
  intros Hr Hr'.
  assert (Hsuf : keySuffix ev = keySuffix ev'
                 ↔ Height ev = Height ev' ∧ Hash ev = Hash ev').
  { split.
    - intros [Hh Hhash]%keySuffix_inj. split; [|done].
      unfold bE in Hh. by apply hexFixed_inj in Hh.
    - intros [Hh Hhash]. unfold keySuffix. by rewrite Hh, Hhash. }
  rewrite <- Hsuf. unfold keyPending, keyCommitted. split; split.
  - by intros ?%(inj (String.app baseKeyPending)).
  - by intros ->.
  - by intros ?%(inj (String.app baseKeyCommitted)).
  - by intros ->.
Qed.

End Keys.

Lemma keys_identify_height_and_hash_witness :
  keyPending Examples.ev1 ≠ keyPending Examples.ev2.
Proof.
  intros Heq.
  apply (keys_identify_height_and_hash Examples.ev1 Examples.ev2) in Heq
    as [Hh _]; [discriminate Hh|simpl; lia..].
Defined.

(** ** The order and the cap of the listing *)

Section ListingOrder.

Context `{C : Collaborators}.

Lemma readable_app iter1 iter2 :
  readable (iter1 ++ iter2) = readable iter1 ++ readable iter2.
Proof. unfold readable. apply omap_app. Qed.

Lemma readable_cons_Ok k v ev iter :
  bytesToEv v = Ok ev → readable ((k, v) :: iter) = ev :: readable iter.
Proof.
  intros Hev. unfold readable. cbn [omap list_omap snd]. by rewrite Hev.
Qed.

(** The loop of the listing takes a first part of the scan, every record
    of which can be read; it returns the evidence read from that part, or
    nothing with an error. *)
Lemma listEvidence_loop_taken maxBytes iter evidence evList totalSize :
  ∃ taken rest,
    iter = taken ++ rest
    ∧ Forall (λ kv : string * Bytes, ∃ ev, bytesToEv kv.2 = Ok ev) taken
    ∧ let r := listEvidence_loop maxBytes iter evidence evList totalSize in
      r.1.1 = evidence ++ readable taken ∨ (r.1.1 = [] ∧ is_Some r.2).
Proof.
  revert evidence evList totalSize.
  induction iter as [|[k v] iter IH]; intros evidence evList totalSize.
  - exists [], []. split; [done|]. split; [apply Forall_nil_2|].
    left. cbn. by rewrite app_nil_r.
  - cbn [listEvidence_loop].
    destruct (pb_Unmarshal v) as [evp|e] eqn:Hv.
    + destruct (negb (maxBytes =? -1)
                && (maxBytes <? EvidenceData_Size (evList ++ [evp]))).
      { exists [], ((k, v) :: iter). split; [done|].
        split; [apply Forall_nil_2|]. left. cbn. by rewrite app_nil_r. }
      destruct (EvidenceFromProto evp) as [ev|e] eqn:Hev.
      * assert (Hb : bytesToEv v = Ok ev) by (unfold bytesToEv; by rewrite Hv).
        destruct (IH (evidence ++ [ev]) (evList ++ [evp])
                    (EvidenceData_Size (evList ++ [evp])))
          as (taken & rest & -> & Hall & Hr).
        exists ((k, v) :: taken), rest. split; [done|].
        split; [apply Forall_cons; split; [by exists ev|done]|].
        cbv zeta in Hr |- *. destruct Hr as [Hr|Hr]; [left|by right].
        rewrite Hr, (readable_cons_Ok _ _ _ _ Hb). by rewrite <- app_assoc.
      * exists [], ((k, v) :: iter). split; [done|].
        split; [apply Forall_nil_2|]. right. cbn. by eauto.
    + exists [], ((k, v) :: iter). split; [done|].
      split; [apply Forall_nil_2|]. left. cbn. by rewrite app_nil_r.
Qed.

(** Over records that can all be read the loop returns no error. *)
Lemma listEvidence_loop_all_readable maxBytes iter evidence evList totalSize :
  Forall (λ kv : string * Bytes, ∃ ev, bytesToEv kv.2 = Ok ev) iter →
  ∃ taken rest size,
    iter = taken ++ rest
    ∧ listEvidence_loop maxBytes iter evidence evList totalSize
      = (evidence ++ readable taken, size, None).
Proof.
  revert evidence evList totalSize.
  induction iter as [|[k v] iter IH]; intros evidence evList totalSize Hall.
  - exists [], [], totalSize. split; [done|]. cbn. by rewrite app_nil_r.
  - apply Forall_cons in Hall as [[ev Hev] Hall]. cbn [snd] in Hev.
    cbn [listEvidence_loop]. pose proof Hev as Hb. unfold bytesToEv in Hev.
    destruct (pb_Unmarshal v) as [evp|e]; [|done].
    destruct (negb (maxBytes =? -1)
              && (maxBytes <? EvidenceData_Size (evList ++ [evp]))).
    { exists [], ((k, v) :: iter), totalSize. split; [done|]. cbn.
      by rewrite app_nil_r. }
    rewrite Hev.
    destruct (IH (evidence ++ [ev]) (evList ++ [evp])
                (EvidenceData_Size (evList ++ [evp])) Hall)
      as (taken & rest & size & -> & ->).
    exists ((k, v) :: taken), rest, size. split; [done|].
    rewrite (readable_cons_Ok _ _ _ _ Hb). by rewrite <- app_assoc.
Qed.

Lemma StronglySorted_omap {A B} (R : relation A) (S : relation B)
    (f : A → option B) (l : list A) :
  StronglySorted R l →
  (∀ a b x y, a ∈ l → b ∈ l → R a b → f a = Some x → f b = Some y → S x y) →
  StronglySorted S (omap f l).
Proof.
  induction l as [|a l IH]; intros Hs HS; [constructor|].
  apply StronglySorted_cons in Hs as [Hal Hs]. cbn [omap list_omap].
  assert (Hl : StronglySorted S (omap f l)).
  { apply IH; [done|]. intros a' b x y Ha Hb. apply HS; by right. }
  destruct (f a) as [x|] eqn:Hfa; [|done].
  apply StronglySorted_cons. split; [|done].
  apply Forall_forall. intros y (b & Hb & Hfb)%list_elem_of_omap.
  apply (HS a b); [by left|by right| |done..].
  rewrite Forall_forall in Hal. by apply Hal.
Qed.

(** The evidence read from a scan of the pending records comes by
    ascending height. *)
Lemma readable_scan_sorted db :
  pendingWellKeyed db → pendingHeightsInRange db →
  StronglySorted (λ a b, Height a <= Height b)
    (readable (kaidb.NewIterator db baseKeyPending)).
Proof.
  intros Hwk Hrange. unfold readable.
  apply (StronglySorted_omap kaidb.key_le); [apply NewIterator_sorted|].
  intros [k1 v1] [k2 v2] ev1 ev2 [Hk1 Hp1]%elem_of_NewIterator
    [Hk2 Hp2]%elem_of_NewIterator Hle Hev1 Hev2.
  cbn [snd] in Hev1, Hev2.
  assert (Hb1 : bytesToEv v1 = Ok ev1) by (by destruct (bytesToEv v1); simplify_eq).
  assert (Hb2 : bytesToEv v2 = Ok ev2) by (by destruct (bytesToEv v2); simplify_eq).
  pose proof (Hrange _ _ _ Hk1 Hp1 Hb1) as Hr1.
  pose proof (Hrange _ _ _ Hk2 Hp2 Hb2) as Hr2.
  pose proof (Hwk _ _ _ Hk1 Hp1 Hb1) as ->.
  pose proof (Hwk _ _ _ Hk2 Hp2 Hb2) as ->.
  destruct (Z.le_gt_cases (Height ev1) (Height ev2)) as [|Hgt]; [done|].
  exfalso. unfold kaidb.key_le, String.le in Hle. cbn [fst] in Hle.
  apply Is_true_true in Hle. unfold String.leb in Hle.
  rewrite String.compare_antisym in Hle.
  by rewrite (keyPending_compare ev2 ev1) in Hle by (done || lia).
Qed.

(** X2. Over a store that keeps the pending records under their own keys,
    with heights of 64 bits, [PendingEvidence] returns the evidence by
    ascending height, whatever the cap. *)
Theorem PendingEvidence_ascending_height p maxBytes :
  pendingWellKeyed (evidenceDB p) → pendingHeightsInRange (evidenceDB p) →
  StronglySorted (λ a b, Height a <= Height b)
    (PendingEvidence p maxBytes).2.1.
Proof.
  intros Hwk Hrange.
  assert (Hl : StronglySorted (λ a b, Height a <= Height b)
                 (listEvidence p baseKeyPending maxBytes).1.1).
  { unfold listEvidence.
    destruct (listEvidence_loop_taken maxBytes
                (kaidb.NewIterator (evidenceDB p) baseKeyPending) [] [] 0)
      as (taken & rest & Hiter & _ & Hr).
    cbv zeta in Hr. destruct Hr as [-> | [-> _]]; [|constructor].
    pose proof (readable_scan_sorted _ Hwk Hrange) as Hs.
    rewrite Hiter, readable_app in Hs.
    by apply StronglySorted_app_1_l in Hs. }
  unfold PendingEvidence. destruct (Size p =? 0); [constructor|].
  destruct (listEvidence p baseKeyPending maxBytes) as [[evs size] [e|]];
    exact Hl.
Qed.

(** X3. When every pending record can be read, the listing returns no
    error, and the evidence listed under a cap is a first part of the
    evidence listed without a cap. *)
Theorem listEvidence_capped_is_prefix p maxBytes :
  allPendingReadable (evidenceDB p) →
  (listEvidence p baseKeyPending maxBytes).2 = None
  ∧ (listEvidence p baseKeyPending (-1)).1.1
    = readable (kaidb.NewIterator (evidenceDB p) baseKeyPending)
  ∧ (listEvidence p baseKeyPending maxBytes).1.1
    `prefix_of` (listEvidence p baseKeyPending (-1)).1.1
  ∧ (PendingEvidence p maxBytes).2.1
    `prefix_of` (listEvidence p baseKeyPending (-1)).1.1.
Proof.
  intros Hall. unfold allPendingReadable in Hall.
  assert (Hpre : (listEvidence p baseKeyPending maxBytes).2 = None
    ∧ (listEvidence p baseKeyPending (-1)).1.1
      = readable (kaidb.NewIterator (evidenceDB p) baseKeyPending)
    ∧ (listEvidence p baseKeyPending maxBytes).1.1
      `prefix_of` (listEvidence p baseKeyPending (-1)).1.1).
  { unfold listEvidence.
    destruct (listEvidence_loop_unbounded _ [] [] 0 Hall) as [size' ->].
    destruct (listEvidence_loop_all_readable maxBytes _ [] [] 0 Hall)
      as (taken & rest & size & Hiter & ->).
    split; [done|]. split; [done|]. cbn [fst app]. rewrite Hiter, readable_app.
    by apply prefix_app_r. }
  destruct Hpre as (He & Hfull & Hp). split; [done|]. split; [done|].
  split; [done|]. unfold PendingEvidence.
  destruct (Size p =? 0); [apply prefix_nil|].
  by destruct (listEvidence p baseKeyPending maxBytes) as [[evs size] [e|]].
Qed.

End ListingOrder.

(** ** What a pruning pass touches *)

Section PruningFrame.

Context `{C : Collaborators}.

Lemma foldl_Delete_Some (gone : list Evidence) db k v :
  foldl (λ db ev, kaidb.Delete db (keyPending ev)) db gone !! k = Some v →
  db !! k = Some v.
Proof.
  revert db. induction gone as [|ev gone IH]; intros db Hk; [done|].
  cbn [foldl] in Hk. apply IH in Hk. unfold kaidb.Delete in Hk.
  by apply lookup_delete_Some in Hk as [_ ?].
Qed.

Lemma foldl_Delete_not_pending (gone : list Evidence) db k :
  String.prefix baseKeyPending k = false →
  foldl (λ db ev, kaidb.Delete db (keyPending ev)) db gone !! k = db !! k.
Proof.
  intros Hk. apply foldl_Delete_other. intros ev _ Heq.
  by rewrite <- Heq, keyPending_prefix in Hk.
Qed.

Lemma removeExpired_DB p :
  ∃ gone,
    evidenceDB (removeExpiredPendingEvidence p).1
    = foldl (λ db ev, kaidb.Delete db (keyPending ev)) (evidenceDB p) gone
    ∧ evidenceList (removeExpiredPendingEvidence p).1
      = filter (λ ev, evMapKey ev ∉@{gset string}
                        list_to_set (evMapKey <$> gone))
          (evidenceList p).
Proof.
  pose proof (removeExpired_loop_spec
    (kaidb.NewIterator (evidenceDB p) baseKeyPending) ∅ p) as Hspec.
  cbv zeta in Hspec. destruct Hspec as (HDB & HL & _).
  rewrite union_empty_l_L in HL. eexists. split; [exact HDB|exact HL].
Qed.

(** X4. A pruning pass only deletes, and only in the pending namespace:
    what the store holds after the pass it held before, the records
    outside the pending namespace are as they were, so that committed
    evidence stays committed, and the list of evidence only loses
    elements. *)
Theorem removeExpiredPendingEvidence_only_deletes_pending p :
  let p' := (removeExpiredPendingEvidence p).1 in
  (∀ k v, evidenceDB p' !! k = Some v → evidenceDB p !! k = Some v)
  ∧ (∀ k, String.prefix baseKeyPending k = false →
          evidenceDB p' !! k = evidenceDB p !! k)
  ∧ (∀ ev, isCommitted p' ev = isCommitted p ev)
  ∧ (∀ ev, isPending p' ev = true → isPending p ev = true)
  ∧ (∀ ev, ev ∈ evidenceList p' → ev ∈ evidenceList p)
  ∧ state p' = state p.
Proof.
  intros p'. subst p'.
  destruct (removeExpired_DB p) as (gone & HDB & HL).
  assert (Hnp : ∀ k, String.prefix baseKeyPending k = false →
            evidenceDB (removeExpiredPendingEvidence p).1 !! k
            = evidenceDB p !! k).
  { intros k Hk. rewrite HDB. by apply foldl_Delete_not_pending. }
  split; [intros k v; rewrite HDB; apply foldl_Delete_Some|].
  split; [done|]. split; [|split; [|split]].
  - intros ev. unfold isCommitted, kaidb.Has.
    by rewrite Hnp by apply keyCommitted_not_pending.
  - intros ev. unfold isPending. rewrite !Has_true, HDB.
    intros [v Hv]. exists v. by eapply foldl_Delete_Some.
  - intros ev. rewrite HL. by intros [_ ?]%list_elem_of_filter.
  - apply (removeExpired_loop_frame
             (kaidb.NewIterator (evidenceDB p) baseKeyPending) ∅ p).
Qed.

Lemma removeExpired_disjoint p :
  namespacesDisjoint (evidenceDB p) →
  namespacesDisjoint (evidenceDB (removeExpiredPendingEvidence p).1).
Proof.
  intros Hd. destruct (removeExpired_DB p) as (gone & -> & _).
  revert Hd. generalize (evidenceDB p) as db.
  induction gone as [|ev gone IH]; intros db Hdb; [done|].
  cbn [foldl]. by apply IH, namespacesDisjoint_Delete.
Qed.

Lemma AddEvidenceFromConsensus_disjoint ev p :
  namespacesDisjoint (evidenceDB p) → isCommitted p ev = false →
  namespacesDisjoint (evidenceDB (AddEvidenceFromConsensus ev p).1).
Proof.
  intros Hd Hc. unfold AddEvidenceFromConsensus.
  destruct (isPending p ev); [done|].
  pose proof (addPendingEvidence_disjoint ev p Hd Hc) as Hd'.
  by destruct (addPendingEvidence ev p) as [q [e|]].
Qed.

(** X5. The pending and the committed namespace stay apart: when no
    evidence is pending and committed at once in the store of a pool, none
    is after [AddEvidence], after [CheckEvidence], after an [Update] that
    returns, after [AddEvidenceFromConsensus] of evidence that is not
    committed, nor in the pool that [NewPool] makes over the store. *)
Theorem namespaces_stay_disjoint p :
  namespacesDisjoint (evidenceDB p) →
  (∀ ev, namespacesDisjoint (evidenceDB (AddEvidence ev p).1))
  ∧ (∀ evList, namespacesDisjoint (evidenceDB (CheckEvidence evList p).1))
  ∧ (∀ st evs p', Update st evs p = Returned p' →
                  namespacesDisjoint (evidenceDB p'))
  ∧ (∀ ev, isCommitted p ev = false →
           namespacesDisjoint (evidenceDB (AddEvidenceFromConsensus ev p).1))
  ∧ (∀ st p', NewPool st (evidenceDB p) = Ok p' →
              namespacesDisjoint (evidenceDB p')).
Proof.
  intros Hd. split; [intros ev; by apply AddEvidence_disjoint|].
  split; [intros evList; by apply CheckEvidence_disjoint|].
  split; [intros st evs p'; by apply Update_disjoint|].
  split; [intros ev; by apply AddEvidenceFromConsensus_disjoint|].
  intros st p'. unfold NewPool.
  set (p0 := mkPool [] [] 0 (evidenceDB p) st 0 0).
  pose proof (removeExpired_disjoint p0 Hd) as Hd'.
  destruct (removeExpiredPendingEvidence p0) as [q [h t]].
  destruct (listEvidence _ _ _) as [[evList size] [e|]]; [done|].
  by intros [= <-].
Qed.

End PruningFrame.

(** ** What an update commits *)

Section Commit.

Context `{C : Collaborators}.

(** One turn of the marking: the evidence of the turn is no longer
    pending, and is committed when its height can be written; no evidence
    becomes pending, none stops being committed, and the map holds the
    evidence that stopped being pending. *)
Lemma markOne_effect q m e :
  let q' := (markOne (q, m) e).1 in
  let m' := (markOne (q, m) e).2 in
  isPending q' e = false
  ∧ (∀ bz, UInt64Value_Marshal (Height e) = Ok bz → isCommitted q' e = true)
  ∧ (∀ ev, isPending q' ev = true → isPending q ev = true)
  ∧ (∀ ev, isCommitted q ev = true → isCommitted q' ev = true)
  ∧ (∀ x, x ∈ m → x ∈ m')
  ∧ (∀ ev, isPending q ev = true → isPending q' ev = false →
           evMapKey ev ∈ m')
  ∧ evidenceList q' = evidenceList q.
Proof.
  unfold markOne.
  set (r := if isPending q e then _ else _).
  assert (Hr : kaidb.Has (evidenceDB r.1) (keyPending e) = false
    ∧ (∀ ev, kaidb.Has (evidenceDB r.1) (keyPending ev) = true →
             isPending q ev = true)
    ∧ (∀ ev, kaidb.Has (evidenceDB r.1) (keyCommitted ev)
             = isCommitted q ev)
    ∧ (∀ x, x ∈ m → x ∈ r.2)
    ∧ (∀ ev, isPending q ev = true →
             kaidb.Has (evidenceDB r.1) (keyPending ev) = false →
             evMapKey ev ∈ r.2)
    ∧ evidenceList r.1 = evidenceList q).
  { unfold r. destruct (isPending q e) eqn:Hp.
    - cbn [fst snd removePendingEvidence logf set_evidenceSize set_evidenceDB
             evidenceDB evidenceList].
      split; [|split; [|split; [|split; [|split]]]].
      + rewrite Has_Delete.
        by rewrite (bool_decide_true (keyPending e = keyPending e)).
      + intros ev. rewrite Has_Delete. by intros [_ ?]%andb_true_iff.
      + intros ev. rewrite Has_Delete.
        by rewrite (bool_decide_false (keyPending e = keyCommitted ev))
          by apply keyPending_ne_keyCommitted.
      + intros x Hx. apply elem_of_union. by right.
      + intros ev Hev. rewrite Has_Delete. unfold isPending in Hev.
        rewrite Hev, andb_true_r. intros Hk%negb_false_iff.
        apply bool_decide_eq_true in Hk. apply elem_of_union. left.
        apply elem_of_singleton. unfold evMapKey.
        by rewrite (keyPending_Hash _ _ Hk).
      + done.
    - cbn [fst snd]. split; [exact Hp|]. split; [done|]. split; [done|].
      split; [done|]. split; [|done]. intros ev Hev Hev'.
      unfold isPending in Hev. congruence. }
  destruct r as [q1 m1]. cbn [fst snd] in Hr.
  destruct Hr as (H1 & H2 & H3 & H4 & H5 & H6).
  destruct (UInt64Value_Marshal (Height e)) as [bz|err] eqn:Hm;
    cbv zeta; cbn [fst snd logf set_evidenceDB evidenceDB evidenceList];
    unfold isPending, isCommitted;
    cbn [logf set_evidenceDB evidenceDB].
  - split; [|split; [|split; [|split; [|split; [|split]]]]].
    + rewrite Has_Put.
      rewrite (bool_decide_false (keyCommitted e = keyPending e))
        by (intros Heq; by apply (keyPending_ne_keyCommitted e e)).
      done.
    + intros bz' _. rewrite Has_Put.
      by rewrite (bool_decide_true (keyCommitted e = keyCommitted e)).
    + intros ev. rewrite Has_Put.
      rewrite (bool_decide_false (keyCommitted e = keyPending ev))
        by (intros Heq; by apply (keyPending_ne_keyCommitted ev e)).
      apply H2.
    + intros ev Hev. rewrite Has_Put, H3. unfold isCommitted.
      rewrite Hev. apply orb_true_r.
    + done.
    + intros ev Hev. rewrite Has_Put.
      rewrite (bool_decide_false (keyCommitted e = keyPending ev))
        by (intros Heq; by apply (keyPending_ne_keyCommitted ev e)).
      by apply H5.
    + done.
  - split; [done|]. split; [done|]. split; [done|].
    split; [intros ev; by rewrite H3|]. done.
Qed.

Lemma markAll_effect evs q m :
  let q' := (foldl markOne (q, m) evs).1 in
  let m' := (foldl markOne (q, m) evs).2 in
  (∀ e, e ∈ evs →
     isPending q' e = false
     ∧ (∀ bz, UInt64Value_Marshal (Height e) = Ok bz →
              isCommitted q' e = true))
  ∧ (∀ ev, isPending q' ev = true → isPending q ev = true)
  ∧ (∀ ev, isCommitted q ev = true → isCommitted q' ev = true)
  ∧ (∀ x, x ∈ m → x ∈ m')
  ∧ (∀ ev, isPending q ev = true → isPending q' ev = false →
           evMapKey ev ∈ m')
  ∧ evidenceList q' = evidenceList q.
Proof.
  revert q m. induction evs as [|e evs IH]; intros q m; cbv zeta.
  - cbn [foldl fst snd]. split; [by intros e ?%elem_of_nil|].
    split; [done|]. split; [done|]. split; [done|]. split; [|done].
    intros ev. congruence.
  - cbn [foldl].
    pose proof (markOne_effect q m e) as H1. cbv zeta in H1.
    destruct (markOne (q, m) e) as [q1 m1]. cbn [fst snd] in H1.
    destruct H1 as (A1 & A2 & A3 & A4 & A5 & A6 & A7).
    specialize (IH q1 m1). cbv zeta in IH.
    destruct IH as (B1 & B3 & B4 & B5 & B6 & B7).
    split; [|split; [|split; [|split; [|split]]]].
    + intros e' [->|Hin]%elem_of_cons; [|by apply B1]. split.
      * apply not_true_is_false. intros Hp. apply B3 in Hp. congruence.
      * intros bz Hbz. apply B4. by eapply A2.
    + intros ev Hev. by apply A3, B3.
    + intros ev Hev. by apply B4, A4.
    + intros x Hx. by apply B5, A5.
    + intros ev Hev Hev'.
      destruct (isPending q1 ev) eqn:Hp1; [by apply B6|].
      apply B5. by apply A6.
    + congruence.
Qed.

Lemma removeMarked_DB m p : evidenceDB (removeMarked m p) = evidenceDB p.
Proof. by destruct (removeMarked_frame m p) as (_ & _ & -> & _). Qed.

(** X6. After an [Update] that returns, no evidence of the block is
    pending, each is committed when its height can be written, and none of
    the evidence that was pending has an element of its hash left in the
    list of evidence; the evidence that was committed before still is, and
    no evidence has become pending. *)
Theorem Update_commits_block_evidence st evs p p' :
  Update st evs p = Returned p' →
  (∀ e, e ∈ evs →
     isPending p' e = false
     ∧ (∀ bz, UInt64Value_Marshal (Height e) = Ok bz →
              isCommitted p' e = true)
     ∧ (isPending p e = true →
        ∀ ev, ev ∈ evidenceList p' → evMapKey ev ≠ evMapKey e))
  ∧ (∀ ev, isCommitted p ev = true → isCommitted p' ev = true)
  ∧ (∀ ev, isPending p' ev = true → isPending p ev = true)
  ∧ (∀ ev, ev ∈ evidenceList p' → ev ∈ evidenceList p).
Proof.
  unfold Update.
  destruct (LastBlockHeight st <=? LastBlockHeight (state p)); [done|].
  set (p0 := updateState st _).
  pose proof (markAll_effect evs p0 ∅) as Hm. cbv zeta in Hm.
  unfold markEvidenceAsCommitted.
  destruct (foldl markOne (p0, ∅) evs) as [q m]. cbn [fst snd] in Hm.
  destruct Hm as (B1 & B3 & B4 & _ & B6 & B7).
  set (q1 := removeMarked m q).
  assert (HDB1 : evidenceDB q1 = evidenceDB q) by apply removeMarked_DB.
  assert (HL1 : evidenceList q1
                = filter (λ ev, evMapKey ev ∉ m) (evidenceList p))
    by (unfold q1; by rewrite removeMarked_list, B7).
  assert (Hq1 : (∀ e, e ∈ evs →
       isPending q1 e = false
       ∧ (∀ bz, UInt64Value_Marshal (Height e) = Ok bz →
                isCommitted q1 e = true)
       ∧ (isPending p e = true →
          ∀ ev, ev ∈ evidenceList q1 → evMapKey ev ≠ evMapKey e))
    ∧ (∀ ev, isCommitted p ev = true → isCommitted q1 ev = true)
    ∧ (∀ ev, isPending q1 ev = true → isPending p ev = true)
    ∧ (∀ ev, ev ∈ evidenceList q1 → ev ∈ evidenceList p)).
  { unfold isPending, isCommitted in *. rewrite HDB1, HL1.
    split; [|split; [|split]].
    - intros e He. destruct (B1 e He) as [Hp Hc]. split; [done|].
      split; [done|]. intros Hpe ev [Hnot _]%list_elem_of_filter Heq.
      apply Hnot. rewrite Heq. by apply B6.
    - intros ev. apply B4.
    - intros ev. apply B3.
    - intros ev. by intros [_ ?]%list_elem_of_filter. }
  clearbody q1. clear HDB1 HL1.
  destruct (_ && _ && _); [|by intros [= <-]].
  destruct (removeExpired_DB q1) as (gone & HDB & HL).
  destruct (removeExpiredPendingEvidence q1) as [q2 [h t]].
  cbn [fst] in HDB, HL. intros [= <-].
  assert (HP : ∀ ev, isPending (set_pruning h t q2) ev = true →
                     isPending q1 ev = true).
  { intros ev. unfold isPending. cbn [set_pruning evidenceDB].
    rewrite !Has_true, HDB. intros [v Hv]. exists v.
    by eapply foldl_Delete_Some. }
  assert (HC : ∀ ev, isCommitted (set_pruning h t q2) ev
                     = isCommitted q1 ev).
  { intros ev. unfold isCommitted, kaidb.Has. cbn [set_pruning evidenceDB].
    by rewrite HDB, foldl_Delete_not_pending
      by apply keyCommitted_not_pending. }
  assert (HLs : ∀ ev, ev ∈ evidenceList (set_pruning h t q2) →
                      ev ∈ evidenceList q1).
  { intros ev. cbn [set_pruning evidenceList]. rewrite HL.
    by intros [_ ?]%list_elem_of_filter. }
  destruct Hq1 as (Q1 & Q2 & Q3 & Q4).
  split; [|split; [|split]].
  - intros e He. destruct (Q1 e He) as (Hp & Hc & Hl).
    split; [|split].
    + apply not_true_is_false. intros E. apply HP in E. congruence.
    + intros bz Hbz. rewrite HC. by eapply Hc.
    + intros Hpe ev Hev. apply (Hl Hpe). by apply HLs.
  - intros ev Hev. rewrite HC. by apply Q2.
  - intros ev Hev. by apply Q3, HP.
  - intros ev Hev. by apply Q4, HLs.
Qed.

End Commit.

(** ** Records stay under their own keys *)

Section WellKeyedKept.

Context `{C : Collaborators}.

Lemma addPendingEvidence_wellKeyed ev p :
  codecRoundTrip → pendingWellKeyed (evidenceDB p) →
  pendingWellKeyed (evidenceDB (addPendingEvidence ev p).1).
Proof.
  intros Hrt Hwk. pose proof (Hrt ev) as Hev.
  unfold encodeEvidence in Hev. unfold addPendingEvidence.
  destruct (EvidenceToProto ev) as [evpb|]; [|done].
  destruct (pb_Marshal evpb) as [bz|]; [|done].
  cbn [fst set_evidenceSize set_evidenceDB evidenceDB].
  apply pendingWellKeyed_Put; [done|]. by apply Hev.
Qed.

Lemma AddEvidence_wellKeyed ev p :
  codecRoundTrip → pendingWellKeyed (evidenceDB p) →
  pendingWellKeyed (evidenceDB (AddEvidence ev p).1).
Proof.
  intros Hrt Hwk. unfold AddEvidence.
  set (q := logf LvlDebug "Attempting to add evidence" p).
  destruct (isPending q ev); [done|]. destruct (isCommitted q ev); [done|].
  destruct (verify q ev); [done|].
  pose proof (addPendingEvidence_wellKeyed ev q Hrt Hwk) as Hwk'.
  by destruct (addPendingEvidence ev q) as [q' [e|]].
Qed.

Lemma AddEvidenceFromConsensus_wellKeyed ev p :
  codecRoundTrip → pendingWellKeyed (evidenceDB p) →
  pendingWellKeyed (evidenceDB (AddEvidenceFromConsensus ev p).1).
Proof.
  intros Hrt Hwk. unfold AddEvidenceFromConsensus.
  destruct (isPending p ev); [done|].
  pose proof (addPendingEvidence_wellKeyed ev p Hrt Hwk) as Hwk'.
  by destruct (addPendingEvidence ev p) as [q' [e|]].
Qed.

Lemma checkOne_wellKeyed ev p :
  codecRoundTrip → pendingWellKeyed (evidenceDB p) →
  pendingWellKeyed (evidenceDB (checkOne ev p).1).
Proof.
  intros Hrt Hwk. unfold checkOne. destruct (fastCheck p ev); [done|].
  destruct (isCommitted p ev); [done|]. destruct (verify p ev); [done|].
  pose proof (addPendingEvidence_wellKeyed ev p Hrt Hwk) as Hwk'.
  by destruct (addPendingEvidence ev p) as [q' [e|]].
Qed.

Lemma CheckEvidence_wellKeyed evList p :
  codecRoundTrip → pendingWellKeyed (evidenceDB p) →
  pendingWellKeyed (evidenceDB (CheckEvidence evList p).1).
Proof.
  intros Hrt. unfold CheckEvidence. generalize (@nil Bytes) as hashes.
  revert p. induction evList as [|ev evList IH]; intros p hashes Hwk; [done|].
  cbn [CheckEvidence_loop].
  pose proof (checkOne_wellKeyed ev p Hrt Hwk) as Hwk'.
  destruct (checkOne ev p) as [p1 [e|]]; [done|].
  destruct (existsb _ hashes); [done|]. by apply IH.
Qed.

Lemma foldl_Delete_wellKeyed (gone : list Evidence) db :
  pendingWellKeyed db →
  pendingWellKeyed
    (foldl (λ db ev, kaidb.Delete db (keyPending ev)) db gone).
Proof.
  revert db. induction gone as [|ev gone IH]; intros db Hwk; [done|].
  cbn [foldl]. by apply IH, pendingWellKeyed_Delete.
Qed.

Lemma removeExpired_wellKeyed p :
  pendingWellKeyed (evidenceDB p) →
  pendingWellKeyed (evidenceDB (removeExpiredPendingEvidence p).1).
Proof.
  intros Hwk. destruct (removeExpired_DB p) as (gone & -> & _).
  by apply foldl_Delete_wellKeyed.
Qed.

Lemma markOne_wellKeyed q m e :
  pendingWellKeyed (evidenceDB q) →
  pendingWellKeyed (evidenceDB (markOne (q, m) e).1).
Proof.
  intros Hwk. unfold markOne.
  set (r := if isPending q e then _ else _).
  assert (Hr : pendingWellKeyed (evidenceDB r.1)).
  { unfold r. destruct (isPending q e); [|done].
    by apply pendingWellKeyed_Delete. }
  destruct r as [q1 m1]. cbn [fst] in Hr.
  destruct (UInt64Value_Marshal (Height e)); [|done].
  by apply pendingWellKeyed_Put_committed.
Qed.

Lemma markEvidenceAsCommitted_wellKeyed evs p :
  pendingWellKeyed (evidenceDB p) →
  pendingWellKeyed (evidenceDB (markEvidenceAsCommitted evs p)).
Proof.
  unfold markEvidenceAsCommitted. generalize (∅ : gset string) as m.
  revert p. induction evs as [|e evs IH]; intros p m Hwk; cbn [foldl].
  - by rewrite removeMarked_DB.
  - pose proof (markOne_wellKeyed p m e Hwk) as Hwk'.
    destruct (markOne (p, m) e) as [p1 m1]. by apply IH.
Qed.

Lemma Update_wellKeyed st evs p p' :
  pendingWellKeyed (evidenceDB p) → Update st evs p = Returned p' →
  pendingWellKeyed (evidenceDB p').
Proof.
  intros Hwk. unfold Update.
  destruct (LastBlockHeight st <=? LastBlockHeight (state p)); [done|].
  set (p0 := updateState st _).
  pose proof (markEvidenceAsCommitted_wellKeyed evs p0 Hwk) as Hwk1.
  set (q := markEvidenceAsCommitted evs p0) in *. clearbody q.
  destruct (_ && _ && _); [|by intros [= <-]].
  pose proof (removeExpired_wellKeyed q Hwk1) as Hwk2.
  destruct (removeExpiredPendingEvidence q) as [q' [h t]].
  by intros [= <-].
Qed.

(** X7. When what is written for a piece of evidence reads back as that
    evidence, a store in which every pending record lies under the key of
    its evidence stays so under [AddEvidence],
    [AddEvidenceFromConsensus], [CheckEvidence] and an [Update] that
    returns. *)
Theorem pending_records_stay_under_their_keys p :
  codecRoundTrip → pendingWellKeyed (evidenceDB p) →
  (∀ ev, pendingWellKeyed (evidenceDB (AddEvidence ev p).1))
  ∧ (∀ ev, pendingWellKeyed (evidenceDB (AddEvidenceFromConsensus ev p).1))
  ∧ (∀ evList, pendingWellKeyed (evidenceDB (CheckEvidence evList p).1))
  ∧ (∀ st evs p', Update st evs p = Returned p' →
                  pendingWellKeyed (evidenceDB p')).
Proof.
  intros Hrt Hwk. split; [intros; by apply AddEvidence_wellKeyed|].
  split; [intros; by apply AddEvidenceFromConsensus_wellKeyed|].
  split; [intros; by apply CheckEvidence_wellKeyed|].
  intros st evs p'. by apply Update_wellKeyed.
Qed.

End WellKeyedKept.

(** ** The counter of pending evidence *)

Section Count.

Context `{C : Collaborators}.

Lemma pendingCount_filter db :
  pendingCount db
  = length (filter (λ kv : string * Bytes,
                      String.prefix baseKeyPending kv.1 = true)
              (map_to_list db)).
Proof.
  unfold pendingCount, kaidb.NewIterator.
  apply Permutation_length, merge_sort_Permutation.
Qed.

Lemma pendingCount_insert_fresh db k v :
  db !! k = None →
  pendingCount (<[k:=v]> db)
  = if String.prefix baseKeyPending k then S (pendingCount db)
    else pendingCount db.
Proof.
  intros Hk. rewrite !pendingCount_filter.
  rewrite (map_to_list_insert db k v Hk).
  destruct (String.prefix baseKeyPending k) eqn:Hpre.
  - by rewrite filter_cons_True.
  - rewrite filter_cons_False; [done|]. cbn [fst]. congruence.
Qed.

Lemma pendingCount_delete_present db k v :
  db !! k = Some v →
  pendingCount db
  = if String.prefix baseKeyPending k then S (pendingCount (delete k db))
    else pendingCount (delete k db).
Proof.
  intros Hk. rewrite !pendingCount_filter.
  rewrite <- (map_to_list_delete db k v Hk).
  destruct (String.prefix baseKeyPending k) eqn:Hpre.
  - by rewrite filter_cons_True.
  - rewrite filter_cons_False; [done|]. cbn [fst]. congruence.
Qed.

(** Writing a record outside the pending namespace leaves the number of
    pending records as it is. *)
Lemma pendingCount_Put_other db k v :
  String.prefix baseKeyPending k = false →
  pendingCount (kaidb.Put db k v) = pendingCount db.
Proof.
  intros Hpre. unfold kaidb.Put. destruct (db !! k) as [w|] eqn:Hk.
  - rewrite <- insert_delete_eq.
    rewrite pendingCount_insert_fresh by apply lookup_delete_eq.
    rewrite (pendingCount_delete_present db k w Hk). by rewrite Hpre.
  - rewrite pendingCount_insert_fresh by done. by rewrite Hpre.
Qed.

Lemma pendingCount_Put_pending_fresh db ev v :
  kaidb.Has db (keyPending ev) = false →
  pendingCount (kaidb.Put db (keyPending ev) v) = S (pendingCount db).
Proof.
  intros Hk%Has_false. unfold kaidb.Put.
  rewrite pendingCount_insert_fresh by done. by rewrite keyPending_prefix.
Qed.

Lemma pendingCount_Delete_pending db ev :
  kaidb.Has db (keyPending ev) = true →
  pendingCount db = S (pendingCount (kaidb.Delete db (keyPending ev))).
Proof.
  intros [v Hk]%Has_true. unfold kaidb.Delete.
  rewrite (pendingCount_delete_present db _ v Hk).
  by rewrite keyPending_prefix.
Qed.

Lemma uint32_small x : 0 <= x < 2 ^ 32 → Go.uint32 x = x.
Proof. intros. unfold Go.uint32. by apply Z.mod_small. Qed.

Lemma uint32_pred x : 1 <= x < 2 ^ 32 → Go.uint32 (x + (2 ^ 32 - 1)) = x - 1.
Proof.
  intros. unfold Go.uint32.
  replace (x + (2 ^ 32 - 1)) with (x - 1 + 1 * 2 ^ 32) by lia.
  rewrite Z_mod_plus_full. apply Z.mod_small. lia.
Qed.

Lemma addPendingEvidence_count ev p :
  sizeIsCount p → isPending p ev = false → evidenceSize p + 1 < 2 ^ 32 →
  sizeIsCount (addPendingEvidence ev p).1
  ∧ evidenceSize (addPendingEvidence ev p).1 <= evidenceSize p + 1.
Proof.
  intros [Hs Hlt] Hp Hroom. unfold addPendingEvidence.
  destruct (EvidenceToProto ev) as [evpb|]; [|split; [done|cbn; lia]].
  destruct (pb_Marshal evpb) as [bz|]; [|split; [done|cbn; lia]].
  cbn [fst set_evidenceSize set_evidenceDB evidenceDB evidenceSize].
  unfold sizeIsCount.
  cbn [set_evidenceSize set_evidenceDB evidenceDB evidenceSize].
  rewrite pendingCount_Put_pending_fresh by done.
  rewrite uint32_small by lia. lia.
Qed.

Lemma removePendingEvidence_count ev p :
  sizeIsCount p → isPending p ev = true →
  sizeIsCount (removePendingEvidence ev p).
Proof.
  intros [Hs Hlt] Hp. unfold sizeIsCount, removePendingEvidence.
  cbn [logf set_evidenceSize set_evidenceDB evidenceDB evidenceSize].
  rewrite (pendingCount_Delete_pending _ ev Hp) in Hs.
  rewrite uint32_pred by lia. lia.
Qed.

Lemma AddEvidence_count ev p :
  sizeIsCount p → evidenceSize p + 1 < 2 ^ 32 →
  sizeIsCount (AddEvidence ev p).1.
Proof.
  intros Hs Hroom. unfold AddEvidence.
  set (q := logf LvlDebug "Attempting to add evidence" p).
  destruct (isPending q ev) eqn:Hp; [done|].
  destruct (isCommitted q ev); [done|]. destruct (verify q ev); [done|].
  destruct (addPendingEvidence_count ev q Hs Hp Hroom) as [Hs' _].
  by destruct (addPendingEvidence ev q) as [q' [e|]].
Qed.

Lemma AddEvidenceFromConsensus_count ev p :
  sizeIsCount p → evidenceSize p + 1 < 2 ^ 32 →
  sizeIsCount (AddEvidenceFromConsensus ev p).1.
Proof.
  intros Hs Hroom. unfold AddEvidenceFromConsensus.
  destruct (isPending p ev) eqn:Hp; [done|].
  destruct (addPendingEvidence_count ev p Hs Hp Hroom) as [Hs' _].
  by destruct (addPendingEvidence ev p) as [q' [e|]].
Qed.

Lemma checkOne_count ev p :
  sizeIsCount p → evidenceSize p + 1 < 2 ^ 32 →
  sizeIsCount (checkOne ev p).1
  ∧ evidenceSize (checkOne ev p).1 <= evidenceSize p + 1.
Proof.
  intros Hs Hroom. unfold checkOne, fastCheck.
  destruct (isPending p ev) eqn:Hp; [split; [done|cbn; lia]|].
  destruct (isCommitted p ev); [split; [done|cbn; lia]|].
  destruct (verify p ev); [split; [done|cbn; lia]|].
  destruct (addPendingEvidence_count ev p Hs Hp Hroom) as [Hs' Hle].
  by destruct (addPendingEvidence ev p) as [q' [e|]].
Qed.

Lemma CheckEvidence_count evList p :
  sizeIsCount p → evidenceSize p + Z.of_nat (length evList) < 2 ^ 32 →
  sizeIsCount (CheckEvidence evList p).1.
Proof.
  unfold CheckEvidence. generalize (@nil Bytes) as hashes. revert p.
  induction evList as [|ev evList IH]; intros p hashes Hs Hroom; [done|].
  cbn [CheckEvidence_loop]. cbn [length] in Hroom.
  destruct (checkOne_count ev p Hs) as [Hs' Hle]; [lia|].
  destruct (checkOne ev p) as [p1 [e|]]; [done|]. cbn [fst] in Hs', Hle.
  destruct (existsb _ hashes); [done|]. apply IH; [done|lia].
Qed.

Lemma markOne_count q m e :
  sizeIsCount q → sizeIsCount (markOne (q, m) e).1.
Proof.
  intros Hs. unfold markOne.
  set (r := if isPending q e then _ else _).
  assert (Hr : sizeIsCount r.1).
  { unfold r. destruct (isPending q e) eqn:Hp; [|done].
    by apply removePendingEvidence_count. }
  destruct r as [q1 m1]. cbn [fst] in Hr.
  destruct (UInt64Value_Marshal (Height e)); [|done].
  unfold sizeIsCount in *.
  cbn [fst set_evidenceDB evidenceDB evidenceSize].
  by rewrite pendingCount_Put_other by apply keyCommitted_not_pending.
Qed.

Lemma markEvidenceAsCommitted_count evs p :
  sizeIsCount p → sizeIsCount (markEvidenceAsCommitted evs p).
Proof.
  unfold markEvidenceAsCommitted. generalize (∅ : gset string) as m.
  revert p. induction evs as [|e evs IH]; intros p m Hs; cbn [foldl].
  - unfold sizeIsCount in *.
    by destruct (removeMarked_frame m p) as (_ & -> & -> & _).
  - pose proof (markOne_count p m e Hs) as Hs'.
    destruct (markOne (p, m) e) as [p1 m1]. by apply IH.
Qed.

Lemma readable_keys_sublist iter :
  (∀ k v ev, (k, v) ∈ iter → bytesToEv v = Ok ev → k = keyPending ev) →
  (keyPending <$> readable iter) `sublist_of` iter.*1.
Proof.
  induction iter as [|[k v] iter IH]; intros Hwk; [done|].
  unfold readable. cbn [omap list_omap snd fmap list_fmap fst].
  fold (readable iter).
  assert (Hrec : (keyPending <$> readable iter) `sublist_of` iter.*1).
  { apply IH. intros k' v' ev' Hin. apply Hwk. by right. }
  destruct (bytesToEv v) as [ev|] eqn:Hev.
  - cbn [fmap list_fmap]. rewrite <- (Hwk k v ev) by (by left || done).
    by apply sublist_skip.
  - by apply sublist_cons.
Qed.

Lemma expiredPrefix_sublist p evs : expiredPrefix p evs `sublist_of` evs.
Proof.
  induction evs as [|ev evs IH]; [done|]. cbn [expiredPrefix].
  destruct (isExpired p (Height ev) (Time ev)).
  - by apply sublist_skip.
  - apply sublist_nil_l.
Qed.

Lemma pendingCount_foldl_Delete (gone : list Evidence) db :
  NoDup (keyPending <$> gone) →
  (∀ ev, ev ∈ gone → kaidb.Has db (keyPending ev) = true) →
  pendingCount db
  = (length gone
     + pendingCount
         (foldl (λ db ev, kaidb.Delete db (keyPending ev)) db gone))%nat.
Proof.
  revert db. induction gone as [|ev gone IH]; intros db Hnd Hin; [done|].
  cbn [fmap list_fmap] in Hnd. apply NoDup_cons in Hnd as [Hev Hnd].
  cbn [foldl length].
  rewrite (pendingCount_Delete_pending db ev) by (apply Hin; by left).
  rewrite (IH (kaidb.Delete db (keyPending ev))); [lia|done|].
  intros ev' Hev'. rewrite Has_Delete, (Hin ev') by by right.
  rewrite andb_true_r. apply negb_true_iff, bool_decide_eq_false.
  intros Heq. apply Hev. rewrite Heq. by apply list_elem_of_fmap_2.
Qed.

Lemma removeExpired_loop_size_range iter m p :
  0 <= evidenceSize p < 2 ^ 32 →
  0 <= evidenceSize (removeExpired_loop iter m p).1 < 2 ^ 32.
Proof.
  revert m p. induction iter as [|[k v] iter IH]; intros m p Hr.
  - cbn [removeExpired_loop fst].
    by destruct (removeMarked_frame m p) as (_ & -> & _).
  - cbn [removeExpired_loop]. destruct (bytesToEv v) as [ev|e].
    + destruct (isExpired p (Height ev) (Time ev)); cbn [negb].
      * apply IH. cbn. unfold Go.uint32. apply Z.mod_pos_bound. lia.
      * cbn [fst]. by destruct (removeMarked_frame m p) as (_ & -> & _).
    + by apply IH.
Qed.

Lemma removeExpired_count p :
  sizeIsCount p → pendingWellKeyed (evidenceDB p) →
  sizeIsCount (removeExpiredPendingEvidence p).1.
Proof.
  intros [Hs Hlt] Hwk.
  set (iter := kaidb.NewIterator (evidenceDB p) baseKeyPending).
  pose proof (removeExpired_loop_spec iter ∅ p) as Hspec.
  cbv zeta in Hspec. destruct Hspec as (HDB & _ & HS & _).
  pose proof (removeExpired_loop_size_range iter ∅ p) as Hrange.
  fold (removeExpiredPendingEvidence p) in HDB, HS, Hrange.
  set (gone := expiredPrefix p (readable iter)) in *.
  assert (Hiter : ∀ k v ev, (k, v) ∈ iter → bytesToEv v = Ok ev →
                            k = keyPending ev).
  { intros k v ev [Hk Hpre]%elem_of_NewIterator Hev. by eapply Hwk. }
  assert (Hnd : NoDup (keyPending <$> gone)).
  { apply (sublist_NoDup _ iter.*1);
      [apply (NewIterator_NoDup (evidenceDB p) baseKeyPending)|].
    etrans; [|apply readable_keys_sublist, Hiter].
    apply fmap_sublist, expiredPrefix_sublist. }
  assert (Hin : ∀ ev, ev ∈ gone →
                      kaidb.Has (evidenceDB p) (keyPending ev) = true).
  { intros ev [Hev _]%elem_of_expiredPrefix.
    apply elem_of_readable in Hev as (k & v & Hkv & Hev).
    rewrite <- (Hiter k v ev Hkv Hev).
    apply elem_of_NewIterator in Hkv as [Hk _]. apply Has_true. by eexists. }
  pose proof (pendingCount_foldl_Delete gone (evidenceDB p) Hnd Hin) as Hc.
  rewrite <- HDB in Hc. unfold sizeIsCount.
  assert (0 <= evidenceSize p) by lia.
  specialize (Hrange ltac:(lia)).
  rewrite (uint32_small (evidenceSize _)) in HS by done.
  rewrite uint32_small in HS by lia.
  unfold removeExpiredPendingEvidence. fold iter. lia.
Qed.

Lemma Update_count st evs p p' :
  sizeIsCount p → pendingWellKeyed (evidenceDB p) →
  Update st evs p = Returned p' → sizeIsCount p'.
Proof.
  intros Hs Hwk. unfold Update.
  destruct (LastBlockHeight st <=? LastBlockHeight (state p)); [done|].
  set (p0 := updateState st _).
  assert (Hs0 : sizeIsCount p0) by done.
  pose proof (markEvidenceAsCommitted_count evs p0 Hs0) as Hs1.
  pose proof (markEvidenceAsCommitted_wellKeyed evs p0 Hwk) as Hwk1.
  set (q := markEvidenceAsCommitted evs p0) in *. clearbody q.
  destruct (_ && _ && _); [|by intros [= <-]].
  pose proof (removeExpired_count q Hs1 Hwk1) as Hs2.
  destruct (removeExpiredPendingEvidence q) as [q' [h t]].
  by intros [= <-].
Qed.

(** X8. The counter of the pool stays the number of pending records:
    when it is that number, it still is after [AddEvidence] and
    [AddEvidenceFromConsensus], as long as one more fits in 32 bits, after
    [CheckEvidence], as long as the length of the list fits on top, and,
    over a store that keeps the pending records under their own keys,
    after an [Update] that returns. *)
Theorem evidenceSize_counts_pending_records p :
  sizeIsCount p →
  (∀ ev, evidenceSize p + 1 < 2 ^ 32 →
         sizeIsCount (AddEvidence ev p).1
         ∧ sizeIsCount (AddEvidenceFromConsensus ev p).1)
  ∧ (∀ evList, evidenceSize p + Z.of_nat (length evList) < 2 ^ 32 →
               sizeIsCount (CheckEvidence evList p).1)
  ∧ (∀ st evs p', pendingWellKeyed (evidenceDB p) →
                  Update st evs p = Returned p' → sizeIsCount p').
Proof.
  intros Hs. split; [|split].
  - intros ev Hroom. split; [by apply AddEvidence_count|].
    by apply AddEvidenceFromConsensus_count.
  - intros evList. by apply CheckEvidence_count.
  - intros st evs p'. by apply Update_count.
Qed.

End Count.

(** ** A pool over an existing store; adding twice *)

Section Rebuild.

Context `{C : Collaborators}.

(** A listing without cap that returns no error has read every record. *)
Lemma listEvidence_loop_unbounded_ok iter evidence evList totalSize evs size :
  listEvidence_loop (-1) iter evidence evList totalSize = (evs, size, None) →
  evs = evidence ++ readable iter
  ∧ Forall (λ kv : string * Bytes, ∃ ev, bytesToEv kv.2 = Ok ev) iter.
Proof.
  revert evidence evList totalSize.
  induction iter as [|[k v] iter IH]; intros evidence evList totalSize.
  - cbn. intros [= <- <-]. split; [by rewrite app_nil_r|apply Forall_nil_2].
  - cbn [listEvidence_loop].
    destruct (pb_Unmarshal v) as [evp|e] eqn:Hv; [|done].
    cbn [Z.eqb negb andb].
    destruct (EvidenceFromProto evp) as [ev|e] eqn:Hev; [|done].
    assert (Hb : bytesToEv v = Ok ev) by (unfold bytesToEv; by rewrite Hv).
    intros [-> Hall]%IH. rewrite (readable_cons_Ok _ _ _ _ Hb).
    split; [by rewrite <- app_assoc|].
    apply Forall_cons. split; [by exists ev|done].
Qed.

Lemma length_readable iter :
  Forall (λ kv : string * Bytes, ∃ ev, bytesToEv kv.2 = Ok ev) iter →
  length (readable iter) = length iter.
Proof.
  induction iter as [|[k v] iter IH]; intros Hall; [done|].
  apply Forall_cons in Hall as [[ev Hev] Hall]. cbn [snd] in Hev.
  rewrite (readable_cons_Ok _ _ _ _ Hev). cbn [length]. by rewrite IH.
Qed.

Lemma foldl_PushBack l0 l : foldl clist.PushBack l0 l = l0 ++ l.
Proof.
  revert l0. induction l as [|x l IH]; intros l0; cbn [foldl].
  - by rewrite app_nil_r.
  - rewrite IH. unfold clist.PushBack. by rewrite <- app_assoc.
Qed.

(** X9. The pool that [NewPool] returns holds the state given; its store
    is the store given less what the first pruning pass deleted; every
    pending record left can be read, and the list of evidence is the
    evidence of these records, by ascending key; the counter is the length
    of that list, in 32 bits, and the number of pending records when that
    number fits. *)
Theorem NewPool_rebuilds_list_and_count st db p :
  NewPool st db = Ok p →
  state p = st
  ∧ (∀ k v, evidenceDB p !! k = Some v → db !! k = Some v)
  ∧ allPendingReadable (evidenceDB p)
  ∧ evidenceList p
    = readable (kaidb.NewIterator (evidenceDB p) baseKeyPending)
  ∧ evidenceSize p = Go.uint32 (Z.of_nat (length (evidenceList p)))
  ∧ (Z.of_nat (pendingCount (evidenceDB p)) < 2 ^ 32 → sizeIsCount p).
Proof.
  unfold NewPool. set (p0 := mkPool [] [] 0 db st 0 0).
  destruct (removeExpired_DB p0) as (gone & HDB & HL).
  pose proof (removeExpired_loop_frame
    (kaidb.NewIterator (evidenceDB p0) baseKeyPending) ∅ p0) as Hfr.
  cbv zeta in Hfr. destruct Hfr as (Hst & _).
  fold (removeExpiredPendingEvidence p0) in Hst.
  destruct (removeExpiredPendingEvidence p0) as [q [h t]].
  cbn [fst] in HDB, HL, Hst. unfold listEvidence.
  cbn [set_pruning evidenceDB].
  destruct (listEvidence_loop _ _ _ _ _) as [[evList size] [e|]] eqn:Hl;
    [done|].
  apply listEvidence_loop_unbounded_ok in Hl as [-> Hall].
  intros [= <-].
  cbn [set_evidenceList set_evidenceSize set_pruning state evidenceDB
         evidenceList evidenceSize].
  rewrite foldl_PushBack, HL. cbn [p0 evidenceList app filter list_filter].
  split; [exact Hst|]. split.
  { intros k v. rewrite HDB. apply foldl_Delete_Some. }
  split; [exact Hall|]. split; [done|]. split; [done|].
  intros Hfit. unfold sizeIsCount.
  cbn [set_evidenceList set_evidenceSize set_pruning evidenceDB evidenceSize].
  rewrite (length_readable _ Hall). fold (pendingCount (evidenceDB q)).
  rewrite uint32_small by lia. lia.
Qed.

Lemma AddEvidence_known ev p :
  isPending p ev = true ∨ isCommitted p ev = true →
  ∃ p', AddEvidence ev p = (p', None) ∧ sameButLog p p'.
Proof.
  intros Hor. unfold AddEvidence.
  set (q := logf LvlDebug "Attempting to add evidence" p).
  change (isPending q ev) with (isPending p ev).
  change (isCommitted q ev) with (isCommitted p ev).
  destruct (isPending p ev) eqn:Hp.
  - eexists. split; [done|]. by repeat split.
  - destruct Hor as [|Hc]; [done|]. rewrite Hc.
    eexists. split; [done|]. by repeat split.
Qed.

Lemma addPendingEvidence_pending ev p q :
  addPendingEvidence ev p = (q, None) → isPending q ev = true.
Proof.
  unfold addPendingEvidence.
  destruct (EvidenceToProto ev) as [evpb|]; [|done].
  destruct (pb_Marshal evpb) as [bz|]; [|done].
  intros [= <-]. unfold isPending.
  cbn [set_evidenceSize set_evidenceDB evidenceDB]. rewrite Has_Put.
  by rewrite (bool_decide_true (keyPending ev = keyPending ev)).
Qed.

Lemma AddEvidence_success_known ev p p1 :
  AddEvidence ev p = (p1, None) →
  isPending p1 ev = true ∨ isCommitted p1 ev = true.
Proof.
  unfold AddEvidence.
  set (q := logf LvlDebug "Attempting to add evidence" p).
  destruct (isPending q ev) eqn:Hp; [intros [= <-]; by left|].
  destruct (isCommitted q ev) eqn:Hc; [intros [= <-]; by right|].
  destruct (verify q ev); [done|].
  destruct (addPendingEvidence ev q) as [q' [e|]] eqn:Ha; [done|].
  intros [= <-]. left. by apply addPendingEvidence_pending in Ha.
Qed.

Lemma AddEvidenceFromConsensus_success_pending ev p p1 :
  AddEvidenceFromConsensus ev p = (p1, None) → isPending p1 ev = true.
Proof.
  unfold AddEvidenceFromConsensus.
  destruct (isPending p ev) eqn:Hp; [by intros [= <-]|].
  destruct (addPendingEvidence ev p) as [q' [e|]] eqn:Ha; [done|].
  intros [= <-]. by apply addPendingEvidence_pending in Ha.
Qed.

(** X10. Adding is idempotent: after an [AddEvidence] or an
    [AddEvidenceFromConsensus] that returned no error, adding the same
    evidence again, by either method, returns no error and leaves the
    store, the list of evidence and the counter as they are. *)
Theorem adding_twice_changes_nothing ev p p1 :
  AddEvidence ev p = (p1, None) ∨ AddEvidenceFromConsensus ev p = (p1, None) →
  (∃ p2, AddEvidence ev p1 = (p2, None) ∧ sameButLog p1 p2)
  ∧ (isPending p1 ev = true →
     ∃ p2, AddEvidenceFromConsensus ev p1 = (p2, None) ∧ sameButLog p1 p2).
Proof.
  intros Hadd.
  assert (Hk : isPending p1 ev = true ∨ isCommitted p1 ev = true).
  { destruct Hadd as [H|H]; [by eapply AddEvidence_success_known|].
    left. by eapply AddEvidenceFromConsensus_success_pending. }
  split; [by apply AddEvidence_known|].
  intros Hp. unfold AddEvidenceFromConsensus. rewrite Hp.
  eexists. split; [done|]. by repeat split.
Qed.

Lemma allPendingReadable_Put db ev bz :
  allPendingReadable db → bytesToEv bz = Ok ev →
  allPendingReadable (kaidb.Put db (keyPending ev) bz).
Proof.
  unfold allPendingReadable. rewrite !Forall_forall.
  intros Hall Hev [k v] [Hk Hpre]%elem_of_NewIterator. cbn [snd].
  unfold kaidb.Put in Hk. destruct (decide (keyPending ev = k)) as [<-|Hne].
  - rewrite lookup_insert_eq in Hk. injection Hk as <-. by exists ev.
  - rewrite lookup_insert_ne in Hk by done.
    apply (Hall (k, v)). by apply elem_of_NewIterator.
Qed.

Lemma listed_after_Put p ev bz :
  allPendingReadable (evidenceDB p) → bytesToEv bz = Ok ev →
  let q := set_evidenceDB (kaidb.Put (evidenceDB p) (keyPending ev) bz) p in
  ∀ q', evidenceDB q' = evidenceDB q →
        ev ∈ (listEvidence q' baseKeyPending (-1)).1.1
        ∧ (listEvidence q' baseKeyPending (-1)).2 = None.
Proof.
  intros Hall Hev q q' HDB.
  pose proof (allPendingReadable_Put _ _ _ Hall Hev) as Hall'.
  unfold listEvidence. rewrite HDB. cbn [q set_evidenceDB evidenceDB].
  destruct (listEvidence_loop_unbounded _ [] [] 0 Hall') as [size ->].
  split; [|done]. cbn [fst app]. apply elem_of_readable.
  exists (keyPending ev), bz. split; [|done].
  apply elem_of_NewIterator. split; [apply lookup_insert_eq|].
  apply keyPending_prefix.
Qed.

(** X11. What is added is listed: over a store whose pending records can
    all be read, when the bytes written for a piece of evidence read back
    as that evidence, the evidence is in the listing without cap of the
    pool that [AddEvidenceFromConsensus], or [AddEvidence] after a
    verification that succeeds, returns. *)
Theorem added_evidence_is_listed ev p bz :
  allPendingReadable (evidenceDB p) →
  encodeEvidence ev = Ok bz → bytesToEv bz = Ok ev →
  isPending p ev = false →
  (let p' := (AddEvidenceFromConsensus ev p).1 in
   ev ∈ (listEvidence p' baseKeyPending (-1)).1.1
   ∧ (Size p' ≠ 0 → ev ∈ (PendingEvidence p' (-1)).2.1))
  ∧ (isCommitted p ev = false →
     verify (logf LvlDebug "Attempting to add evidence" p) ev = None →
     let p' := (AddEvidence ev p).1 in
     ev ∈ (listEvidence p' baseKeyPending (-1)).1.1
     ∧ (Size p' ≠ 0 → ev ∈ (PendingEvidence p' (-1)).2.1)).
Proof.
  intros Hall Henc Hev Hp.
  assert (Hpe : ∀ q', ev ∈ (listEvidence q' baseKeyPending (-1)).1.1 →
                      (listEvidence q' baseKeyPending (-1)).2 = None →
                      Size q' ≠ 0 → ev ∈ (PendingEvidence q' (-1)).2.1).
  { intros q' Hin Hnone Hsize. unfold PendingEvidence.
    destruct (Z.eqb_spec (Size q') 0); [done|].
    destruct (listEvidence q' baseKeyPending (-1)) as [[evs size] err].
    cbn in Hnone. subst err. exact Hin. }
  split.
  - unfold AddEvidenceFromConsensus. rewrite Hp.
    rewrite (addPendingEvidence_ok _ _ _ Henc). cbv zeta. cbn [fst].
    edestruct (listed_after_Put p ev bz Hall Hev) as [Hin Hnone];
      [|split; [exact Hin|by apply Hpe]].
    done.
  - intros Hc Hv. unfold AddEvidence.
    set (q := logf LvlDebug "Attempting to add evidence" p) in *.
    change (isPending q ev) with (isPending p ev).
    change (isCommitted q ev) with (isCommitted p ev).
    rewrite Hp, Hc, Hv, (addPendingEvidence_ok _ _ _ Henc). cbv zeta.
    cbn [fst].
    edestruct (listed_after_Put p ev bz Hall Hev) as [Hin Hnone];
      [|split; [exact Hin|by apply Hpe]].
    done.
Qed.

End Rebuild.

(** ** The list of evidence and the store; what a check writes *)

Section Listed.

Context `{C : Collaborators}.

Lemma evMapKey_keyPending ev ev' :
  keyPending ev = keyPending ev' → evMapKey ev = evMapKey ev'.
Proof. intros H%keyPending_Hash. unfold evMapKey. by rewrite H. Qed.

Lemma isPending_Put_mono p q ev' bz ev :
  evidenceDB q = kaidb.Put (evidenceDB p) (keyPending ev') bz →
  isPending p ev = true → isPending q ev = true.
Proof.
  unfold isPending. intros ->. rewrite Has_Put. intros ->.
  apply orb_true_r.
Qed.

Lemma addPendingEvidence_mono ev' p ev :
  isPending p ev = true → isPending (addPendingEvidence ev' p).1 ev = true.
Proof.
  unfold addPendingEvidence.
  destruct (EvidenceToProto ev') as [evpb|]; [|done].
  destruct (pb_Marshal evpb) as [bz|]; [|done].
  cbn [fst]. by apply isPending_Put_mono with (ev' := ev') (bz := bz).
Qed.

Lemma addPendingEvidence_list ev p :
  evidenceList (addPendingEvidence ev p).1 = evidenceList p.
Proof.
  unfold addPendingEvidence.
  destruct (EvidenceToProto ev) as [evpb|]; [|done].
  by destruct (pb_Marshal evpb).
Qed.

Lemma AddEvidence_listed ev p :
  listedArePending p → listedArePending (AddEvidence ev p).1.
Proof.
  intros Hinv. unfold AddEvidence.
  set (q := logf LvlDebug "Attempting to add evidence" p).
  destruct (isPending q ev); [exact Hinv|].
  destruct (isCommitted q ev); [exact Hinv|].
  destruct (verify q ev); [exact Hinv|].
  pose proof (addPendingEvidence_list ev q) as Hl.
  pose proof (addPendingEvidence_mono ev q) as Hm.
  destruct (addPendingEvidence ev q) as [q' [e|]] eqn:Ha; cbn [fst] in *.
  - intros x Hx. rewrite Hl in Hx. by apply Hm, Hinv.
  - intros x Hx. cbn [fst logf set_evidenceList evidenceList] in Hx.
    unfold clist.PushBack in Hx. rewrite Hl in Hx.
    change (isPending q' x = true).
    apply elem_of_app in Hx as [Hx|Hx%list_elem_of_singleton].
    + by apply Hm, Hinv.
    + subst x. by apply addPendingEvidence_pending in Ha.
Qed.

Lemma AddEvidenceFromConsensus_listed ev p :
  listedArePending p → listedArePending (AddEvidenceFromConsensus ev p).1.
Proof.
  intros Hinv. unfold AddEvidenceFromConsensus.
  destruct (isPending p ev); [exact Hinv|].
  pose proof (addPendingEvidence_list ev p) as Hl.
  pose proof (addPendingEvidence_mono ev p) as Hm.
  destruct (addPendingEvidence ev p) as [q' [e|]] eqn:Ha; cbn [fst] in *.
  - intros x Hx. rewrite Hl in Hx. by apply Hm, Hinv.
  - intros x Hx. cbn [fst logf set_evidenceList evidenceList] in Hx.
    unfold clist.PushBack in Hx. rewrite Hl in Hx.
    change (isPending q' x = true).
    apply elem_of_app in Hx as [Hx|Hx%list_elem_of_singleton].
    + by apply Hm, Hinv.
    + subst x. by apply addPendingEvidence_pending in Ha.
Qed.

Lemma checkOne_grows ev p :
  evidenceList (checkOne ev p).1 = evidenceList p
  ∧ state (checkOne ev p).1 = state p
  ∧ (∀ x, isPending p x = true → isPending (checkOne ev p).1 x = true).
Proof.
  unfold checkOne. destruct (fastCheck p ev); [done|].
  destruct (isCommitted p ev); [done|].
  destruct (verify p ev); [done|].
  pose proof (addPendingEvidence_list ev p) as Hl.
  pose proof (addPendingEvidence_mono ev p) as Hm.
  pose proof (addPendingEvidence_frame ev p) as Hf.
  destruct (addPendingEvidence ev p) as [q' [e|]]; cbn [fst] in *;
    (split; [exact Hl|]); (split; [by destruct Hf as (? & _)|]);
    intros x Hx; by apply Hm.
Qed.

Lemma CheckEvidence_loop_grows evList hashes p :
  evidenceList (CheckEvidence_loop evList hashes p).1 = evidenceList p
  ∧ state (CheckEvidence_loop evList hashes p).1 = state p
  ∧ (∀ x, isPending p x = true →
          isPending (CheckEvidence_loop evList hashes p).1 x = true).
Proof.
  revert hashes p. induction evList as [|ev evList IH]; intros hashes p;
    [done|].
  cbn [CheckEvidence_loop].
  destruct (checkOne_grows ev p) as (Hl & Hs & Hm).
  destruct (checkOne ev p) as [q [e|]]; cbn [fst] in *; [done|].
  destruct (existsb _ hashes); [done|].
  destruct (IH (hashes ++ [Hash ev]) q) as (Hl' & Hs' & Hm').
  rewrite Hl', Hs'. split; [done|]. split; [done|].
  intros x Hx. by apply Hm', Hm.
Qed.

Lemma CheckEvidence_listed evList p :
  listedArePending p → listedArePending (CheckEvidence evList p).1.
Proof.
  intros Hinv x Hx. unfold CheckEvidence in *.
  destruct (CheckEvidence_loop_grows evList [] p) as (Hl & _ & Hm).
  rewrite Hl in Hx. by apply Hm, Hinv.
Qed.

Lemma removeMarked_elem m p x :
  x ∈ evidenceList (removeMarked m p) →
  x ∈ evidenceList p ∧ evMapKey x ∉ m.
Proof.
  unfold removeMarked. destruct (decide (m = ∅)) as [->|].
  - intros Hx. split; [done|]. set_solver.
  - unfold removeEvidenceFromList. cbn [set_evidenceList evidenceList].
    intros [Hm Hx]%list_elem_of_filter. by split.
Qed.

Lemma markEvidenceAsCommitted_listed evs p :
  listedArePending p → listedArePending (markEvidenceAsCommitted evs p).
Proof.
  intros Hinv x. unfold markEvidenceAsCommitted.
  pose proof (markAll_effect evs p ∅) as Hall. cbv zeta in Hall.
  destruct (foldl markOne (p, ∅) evs) as [q m]. cbn [fst snd] in Hall.
  destruct Hall as (_ & _ & _ & _ & Hmark & Hlist).
  intros [Hx Hm]%removeMarked_elem. rewrite Hlist in Hx.
  unfold isPending. rewrite removeMarked_DB. fold (isPending q x).
  apply not_false_is_true. intros Hq.
  apply Hm, Hmark; [by apply Hinv|done].
Qed.

Lemma foldl_Delete_lost (gone : list Evidence) db k :
  is_Some (db !! k) →
  foldl (λ db ev, kaidb.Delete db (keyPending ev)) db gone !! k = None →
  ∃ g, g ∈ gone ∧ keyPending g = k.
Proof.
  revert db. induction gone as [|g gone IH]; intros db [v Hv] Hk.
  - cbn in Hk. congruence.
  - cbn [foldl] in Hk. destruct (decide (keyPending g = k)) as [Heq|Hne].
    + exists g. split; [by left|done].
    + destruct (IH (kaidb.Delete db (keyPending g))) as (g' & Hin & Hg').
      * exists v. unfold kaidb.Delete. by rewrite lookup_delete_ne.
      * exact Hk.
      * exists g'. split; [by right|done].
Qed.

Lemma removeExpired_listed p :
  listedArePending p → listedArePending (removeExpiredPendingEvidence p).1.
Proof.
  intros Hinv x.
  destruct (removeExpired_DB p) as (gone & HDB & HL).
  rewrite HL. intros [Hm Hx]%list_elem_of_filter.
  unfold isPending. rewrite HDB.
  apply not_false_is_true. intros Hq. apply Has_false in Hq.
  apply foldl_Delete_lost in Hq as (g & Hg & Hk).
  - apply Hm. apply elem_of_list_to_set, list_elem_of_fmap.
    exists g. split; [|done]. symmetry. by apply evMapKey_keyPending.
  - apply Hinv in Hx. unfold isPending in Hx. by apply Has_true in Hx.
Qed.

Lemma Update_listed st evs p p' :
  listedArePending p → Update st evs p = Returned p' → listedArePending p'.
Proof.
  intros Hinv. unfold Update.
  destruct (LastBlockHeight st <=? LastBlockHeight (state p)); [done|].
  set (q := markEvidenceAsCommitted evs _).
  assert (Hq : listedArePending q).
  { apply markEvidenceAsCommitted_listed. exact Hinv. }
  destruct (_ && _).
  - pose proof (removeExpired_listed q Hq) as Hr.
    destruct (removeExpiredPendingEvidence q) as [r [h t]].
    intros [= <-]. exact Hr.
  - by intros [= <-].
Qed.

Lemma NewPool_listed st db p :
  pendingWellKeyed db → NewPool st db = Ok p → listedArePending p.
Proof.
  intros Hwk Hnew.
  unfold NewPool in Hnew. set (p0 := mkPool [] [] 0 db st 0 0) in Hnew.
  pose proof (removeExpired_wellKeyed p0 Hwk) as Hwk'.
  destruct (removeExpired_DB p0) as (gone & _ & HL).
  destruct (removeExpiredPendingEvidence p0) as [q [h t]].
  cbn [fst] in Hwk', HL. unfold listEvidence in Hnew.
  cbn [set_pruning evidenceDB] in Hnew.
  destruct (listEvidence_loop _ _ _ _ _) as [[evList size] [e|]] eqn:Hl;
    [done|].
  apply listEvidence_loop_unbounded_ok in Hl as [-> Hall].
  injection Hnew as <-. intros x.
  cbn [set_evidenceList set_evidenceSize set_pruning evidenceList].
  rewrite foldl_PushBack. unfold isPending.
  cbn [set_evidenceList set_evidenceSize set_pruning evidenceDB].
  intros Hx. apply elem_of_app in Hx as [Hx|Hx].
  - exfalso. revert Hx.
    rewrite HL. cbn [p0 evidenceList filter list_filter].
    apply not_elem_of_nil.
  - apply elem_of_readable in Hx as (k & v & Hkv & Hev).
    apply elem_of_NewIterator in Hkv as [Hk Hpre].
    rewrite (Hwk' k v x Hk Hpre Hev) in Hk.
    apply Has_true. by exists v.
Qed.

(** X12. Every piece of evidence in the list of evidence is pending in
    the store: [AddEvidence], [AddEvidenceFromConsensus], [CheckEvidence]
    and an [Update] that returns keep it so, and the pool that [NewPool]
    builds over a store whose readable pending records lie under their
    own keys has it. *)
Theorem listed_evidence_is_pending p :
  listedArePending p →
  (∀ ev, listedArePending (AddEvidence ev p).1)
  ∧ (∀ ev, listedArePending (AddEvidenceFromConsensus ev p).1)
  ∧ (∀ evList, listedArePending (CheckEvidence evList p).1)
  ∧ (∀ st evs p', Update st evs p = Returned p' → listedArePending p')
  ∧ (∀ st p', pendingWellKeyed (evidenceDB p) →
              NewPool st (evidenceDB p) = Ok p' → listedArePending p').
Proof.
  intros Hinv.
  split; [intros; by apply AddEvidence_listed|].
  split; [intros; by apply AddEvidenceFromConsensus_listed|].
  split; [intros; by apply CheckEvidence_listed|].
  split; [intros st evs p'; by apply Update_listed|].
  intros st p'. apply NewPool_listed.
Qed.

End Listed.

Section Checking.

Context `{C : Collaborators}.

Lemma addPendingEvidence_store ev p :
  isPending p ev = false →
  (∀ k v, evidenceDB p !! k = Some v →
          evidenceDB (addPendingEvidence ev p).1 !! k = Some v)
  ∧ (∀ k, evidenceDB p !! k = None →
          is_Some (evidenceDB (addPendingEvidence ev p).1 !! k) →
          k = keyPending ev).
Proof.
  intros Hp%Has_false. unfold addPendingEvidence.
  destruct (EvidenceToProto ev) as [evpb|]; [|split; [done|intros k Hk [? Hs]; cbn [fst] in Hs; congruence]].
  destruct (pb_Marshal evpb) as [bz|]; [|split; [done|intros k Hk [? Hs]; cbn [fst] in Hs; congruence]].
  cbn [fst set_evidenceSize set_evidenceDB evidenceDB]. unfold kaidb.Put.
  split.
  - intros k v Hk. rewrite lookup_insert_ne; [done|]. intros <-. congruence.
  - intros k Hk Hs. destruct (decide (keyPending ev = k)) as [<-|Hne];
      [done|]. rewrite lookup_insert_ne, Hk in Hs by done. by destruct Hs.
Qed.

Lemma checkOne_store ev p :
  (∀ k v, evidenceDB p !! k = Some v →
          evidenceDB (checkOne ev p).1 !! k = Some v)
  ∧ (∀ k, evidenceDB p !! k = None →
          is_Some (evidenceDB (checkOne ev p).1 !! k) →
          k = keyPending ev).
Proof.
  unfold checkOne, fastCheck.
  destruct (isPending p ev) eqn:Hp; [split; [done|intros k Hk [? Hs]; cbn [fst] in Hs; congruence]|].
  destruct (isCommitted p ev); [split; [done|intros k Hk [? Hs]; cbn [fst] in Hs; congruence]|].
  destruct (verify p ev); [split; [done|intros k Hk [? Hs]; cbn [fst] in Hs; congruence]|].
  pose proof (addPendingEvidence_store ev p Hp) as Hst.
  by destruct (addPendingEvidence ev p) as [q' [e|]].
Qed.

Lemma CheckEvidence_loop_store evList hashes p :
  (∀ k v, evidenceDB p !! k = Some v →
          evidenceDB (CheckEvidence_loop evList hashes p).1 !! k = Some v)
  ∧ (∀ k, evidenceDB p !! k = None →
          is_Some (evidenceDB (CheckEvidence_loop evList hashes p).1 !! k) →
          ∃ ev, ev ∈ evList ∧ k = keyPending ev).
Proof.
  revert hashes p. induction evList as [|ev evList IH]; intros hashes p.
  - split; [done|]. intros k Hk [? Hs]. cbn in Hs. congruence.
  - cbn [CheckEvidence_loop].
    destruct (checkOne_store ev p) as [Hkeep Hnew].
    destruct (checkOne ev p) as [q [e|]]; cbn [fst] in *.
    + split; [done|]. intros k Hk Hs. exists ev. split; [by left|].
      by apply Hnew.
    + destruct (existsb _ hashes).
      * split; [done|]. intros k Hk Hs. exists ev. split; [by left|].
        by apply Hnew.
      * destruct (IH (hashes ++ [Hash ev]) q) as [Hkeep' Hnew'].
        split; [intros k v Hk; by apply Hkeep', Hkeep|].
        intros k Hk Hs. destruct (evidenceDB q !! k) as [v|] eqn:Hq.
        -- exists ev. split; [by left|]. apply Hnew; [done|by exists v].
        -- destruct (Hnew' k Hq Hs) as (ev' & Hin & ->).
           exists ev'. split; [by right|done].
Qed.

Lemma checkOne_accepts ev p q :
  checkOne ev p = (q, None) →
  (isPending p ev = true ∨ isCommitted p ev = false)
  ∧ (∀ bz, encodeEvidence ev = Ok bz → isPending q ev = true).
Proof.
  unfold checkOne, fastCheck.
  destruct (isPending p ev) eqn:Hp.
  { intros [= <-]. split; [by left|done]. }
  destruct (isCommitted p ev) eqn:Hc; [done|].
  destruct (verify p ev); [done|].
  intros Hq. split; [by right|]. intros bz Henc.
  rewrite (addPendingEvidence_ok _ _ _ Henc) in Hq. cbv zeta in Hq.
  injection Hq as <-. unfold isPending.
  cbn [logf set_evidenceSize set_evidenceDB evidenceDB].
  rewrite Has_Put.
  by rewrite (bool_decide_true (keyPending ev = keyPending ev)).
Qed.

Lemma checkOne_committed ev p x :
  isCommitted (checkOne ev p).1 x = isCommitted p x.
Proof.
  unfold checkOne, fastCheck.
  destruct (isPending p ev); [done|].
  destruct (isCommitted p ev); [done|].
  destruct (verify p ev); [done|].
  unfold addPendingEvidence.
  destruct (EvidenceToProto ev) as [evpb|]; [|done].
  destruct (pb_Marshal evpb) as [bz|]; [|done].
  unfold isCommitted.
  cbn [fst logf set_evidenceSize set_evidenceDB evidenceDB].
  rewrite Has_Put.
  rewrite (bool_decide_false (keyPending ev = keyCommitted x))
    by apply keyPending_ne_keyCommitted.
  done.
Qed.

Lemma CheckEvidence_loop_accepts evList hashes p q :
  CheckEvidence_loop evList hashes p = (q, None) →
  NoDup (hashes ++ (Hash <$> evList))
  ∨ ¬ NoDup hashes.
Proof.
  intros Hq. destruct (decide (NoDup hashes)) as [Hnd|]; [|by right].
  left. destruct (decide (NoDup (hashes ++ (Hash <$> evList)))) as [|Hdup];
    [done|].
  destruct (CheckEvidence_loop_duplicate evList hashes p Hnd Hdup) as [e He].
  rewrite Hq in He. done.
Qed.

Lemma CheckEvidence_loop_items evList hashes p q :
  CheckEvidence_loop evList hashes p = (q, None) →
  ∀ ev, ev ∈ evList →
    (isPending q ev = true ∨ isCommitted p ev = false)
    ∧ (∀ bz, encodeEvidence ev = Ok bz → isPending q ev = true).
Proof.
  revert hashes p. induction evList as [|e evList IH]; intros hashes p Hq ev.
  { by intros ?%elem_of_nil. }
  cbn [CheckEvidence_loop] in Hq.
  pose proof (checkOne_committed e p) as Hcm.
  destruct (checkOne e p) as [p1 [err|]] eqn:H1; [done|]. cbn [fst] in Hcm.
  destruct (existsb _ hashes); [done|].
  destruct (CheckEvidence_loop_grows evList (hashes ++ [Hash e]) p1)
    as (_ & _ & Hm).
  rewrite Hq in Hm. cbn [fst] in Hm.
  intros [-> | Hin]%elem_of_cons.
  - pose proof (checkOne_accepts _ _ _ H1) as [Hor Henc]. split.
    + destruct Hor as [Hp|Hc]; [left|by right].
      apply Hm. apply (checkOne_grows e p) in Hp.
      by rewrite H1 in Hp.
    + intros bz Hbz. by eapply Hm, Henc.
  - destruct (IH _ _ Hq ev Hin) as [Hor Henc]. split; [|done].
    destruct Hor as [Hp|Hc]; [by left|right]. by rewrite <- Hcm.
Qed.

(** X13. [CheckEvidence] adds to the store and does nothing else: the
    list of evidence, the state and every record of the store stay as
    they are, and a key that is new is the pending key of an item of the
    block. When it returns no error, no two items of the block have the
    same hash, every item of the block is pending, or was not committed,
    and every item that can be encoded is pending. *)
Theorem CheckEvidence_only_adds_pending evList p :
  let p' := (CheckEvidence evList p).1 in
  evidenceList p' = evidenceList p
  ∧ state p' = state p
  ∧ (∀ k v, evidenceDB p !! k = Some v → evidenceDB p' !! k = Some v)
  ∧ (∀ k, evidenceDB p !! k = None → is_Some (evidenceDB p' !! k) →
          ∃ ev, ev ∈ evList ∧ k = keyPending ev)
  ∧ (∀ ev, isCommitted p' ev = isCommitted p ev)
  ∧ ((CheckEvidence evList p).2 = None →
     NoDup (Hash <$> evList)
     ∧ ∀ ev, ev ∈ evList →
         (isPending p' ev = true ∨ isCommitted p ev = false)
         ∧ (∀ bz, encodeEvidence ev = Ok bz → isPending p' ev = true)).
Proof.
  cbv zeta. unfold CheckEvidence.
  destruct (CheckEvidence_loop_grows evList [] p) as (Hl & Hs & _).
  destruct (CheckEvidence_loop_store evList [] p) as [Hkeep Hnew].
  split; [exact Hl|]. split; [exact Hs|]. split; [exact Hkeep|].
  split; [exact Hnew|]. split.
  - intros ev. unfold isCommitted.
    destruct (evidenceDB p !! keyCommitted ev) as [v|] eqn:Hk.
    + rewrite (proj2 (Has_true _ _)) by (exists v; by apply Hkeep).
      symmetry. apply Has_true. by exists v.
    + rewrite (proj2 (Has_false (evidenceDB p) _) Hk).
      apply Has_false.
      destruct (evidenceDB (CheckEvidence_loop evList [] p).1
                  !! keyCommitted ev) as [w|] eqn:Hw; [|done].
      destruct (Hnew _ Hk) as (ev' & _ & Heq); [by exists w|].
      symmetry in Heq. by apply keyPending_ne_keyCommitted in Heq.
  - destruct (CheckEvidence_loop evList [] p) as [q [e|]] eqn:Hq; [done|].
    intros _. cbn [fst]. split.
    + apply CheckEvidence_loop_accepts in Hq as [Hnd|Hnd]; [done|].
      destruct Hnd. constructor.
    + by eapply CheckEvidence_loop_items.
Qed.

End Checking.

(** ** Ageing; evidence from the consensus; the whole listing *)

Section Ageing.

Implicit Types (p : Pool) (height time : Z).

Lemma Time_Sub_mono t t' u : t <= t' → Go.Time_Sub t u <= Go.Time_Sub t' u.
Proof.
  intros Ht. unfold Go.Time_Sub, Go.maxDuration, Go.minDuration.
  destruct (Z.ltb_spec (2 ^ 63 - 1) (t - u)),
    (Z.ltb_spec (2 ^ 63 - 1) (t' - u)),
    (Z.ltb_spec (t - u) (- 2 ^ 63)),
    (Z.ltb_spec (t' - u) (- 2 ^ 63)); lia.
Qed.

(** X14. Expired evidence stays expired as the chain grows: for evidence
    of a height that is not above the last block height, under the same
    evidence parameters, a later state of greater or equal height, below
    [2^64], and of greater or equal time still has it expired. *)
Theorem isExpired_stays_as_chain_grows p p' height time :
  ConsensusParams_Evidence (state p') = ConsensusParams_Evidence (state p) →
  0 <= height <= LastBlockHeight (state p) →
  LastBlockHeight (state p) <= LastBlockHeight (state p') < 2 ^ 64 →
  LastBlockTime (state p) <= LastBlockTime (state p') →
  isExpired p height time = true → isExpired p' height time = true.
Proof.
  intros Hpar Hh HH Ht. rewrite !isExpired_true, Hpar.
  rewrite (uint64_small (LastBlockHeight (state p) - height)),
    (uint64_small (LastBlockHeight (state p') - height)) by lia.
  intros [Hb Hd]. split; [lia|].
  pose proof (Time_Sub_mono _ _ time Ht). lia.
Qed.

End Ageing.

Section Consensus.

Context `{C : Collaborators}.

(** X15. [AddEvidenceFromConsensus] returns no error and leaves the pool
    as it is, but for the log, when the evidence is pending. When it is
    not, and the evidence can be encoded, the evidence is written under
    its pending key, put at the back of the list of evidence and counted;
    when it cannot be encoded the pool is as it was and the error
    returned is not an [ErrInvalidEvidence]. No error that the method
    returns is an [ErrInvalidEvidence]. *)
Theorem AddEvidenceFromConsensus_outcomes ev p :
  (isPending p ev = true →
     ∃ p', AddEvidenceFromConsensus ev p = (p', None) ∧ sameButLog p p')
  ∧ (isPending p ev = false →
     (∀ evBytes, encodeEvidence ev = Ok evBytes →
        ∃ p', AddEvidenceFromConsensus ev p = (p', None)
          ∧ evidenceDB p' = kaidb.Put (evidenceDB p) (keyPending ev) evBytes
          ∧ isPending p' ev = true
          ∧ evidenceList p' = evidenceList p ++ [ev]
          ∧ evidenceSize p' = Go.uint32 (evidenceSize p + 1)
          ∧ state p' = state p
          ∧ samePruning p p')
     ∧ (∀ err, encodeEvidence ev = Err err →
          ∃ e, AddEvidenceFromConsensus ev p = (p, Some e)))
  ∧ (∀ e, (AddEvidenceFromConsensus ev p).2 = Some e →
          isInvalidEvidence e = false).
Proof.
  split; [|split].
  - intros Hp. unfold AddEvidenceFromConsensus. rewrite Hp.
    eexists. split; [done|]. by repeat split.
  - intros Hp. split.
    + intros evBytes Henc. unfold AddEvidenceFromConsensus. rewrite Hp.
      rewrite (addPendingEvidence_ok _ _ _ Henc). cbv zeta.
      eexists. split; [done|]. unfold isPending.
      cbn [logf set_evidenceList set_evidenceSize set_evidenceDB evidenceDB
             evidenceList evidenceSize state].
      rewrite Has_Put,
        (bool_decide_true (keyPending ev = keyPending ev)) by done.
      by repeat split.
    + intros err Henc. unfold AddEvidenceFromConsensus. rewrite Hp.
      destruct (addPendingEvidence_err _ p _ Henc) as (e & ->).
      by eexists.
  - intros e. unfold AddEvidenceFromConsensus.
    destruct (isPending p ev); [done|].
    destruct (addPendingEvidence ev p) as [q [e'|]]; [|done].
    by intros [= <-].
Qed.

(** X16. Under the invariant of the counter, over a store whose pending
    records can all be read, [PendingEvidence] without cap returns the
    evidence of every pending record, by ascending key, as many as the
    counter says, and leaves the pool as it is. *)
Theorem PendingEvidence_uncapped_returns_all p :
  sizeIsCount p → allPendingReadable (evidenceDB p) →
  (PendingEvidence p (-1)).1 = p
  ∧ (PendingEvidence p (-1)).2.1
    = readable (kaidb.NewIterator (evidenceDB p) baseKeyPending)
  ∧ Z.of_nat (length (PendingEvidence p (-1)).2.1) = Size p.
Proof.
  intros [Hsize Hfit] Hall. unfold PendingEvidence, Size.
  destruct (Z.eqb_spec (evidenceSize p) 0) as [H0|Hn0].
  - cbn [fst snd length]. split; [done|].
    assert (Hnil : kaidb.NewIterator (evidenceDB p) baseKeyPending = []).
    { apply length_zero_iff_nil. unfold pendingCount in Hsize. lia. }
    rewrite Hnil. split; [done|]. cbn. lia.
  - unfold listEvidence.
    destruct (listEvidence_loop_unbounded _ [] [] 0 Hall) as [size ->].
    cbn [fst snd app]. split; [done|]. split; [done|].
    rewrite (length_readable _ Hall). exact (eq_sym Hsize).
Qed.

End Consensus.

(** ** The order of the keys; the committed namespace *)

Section KeyOrder.

(** X17. Big endian padded hex: [bE] writes sixteen characters, and on
    heights of 64 bits the order of the strings is the order of the
    heights, so that the pending key of evidence of a smaller height comes
    first in the order of the keys. *)
Theorem pending_keys_sort_by_height ev ev' :
  0 <= Height ev < 2 ^ 64 → 0 <= Height ev' < 2 ^ 64 →
  String.length (bE (Height ev)) = 16%nat
  ∧ String.compare (bE (Height ev)) (bE (Height ev'))
    = (Height ev ?= Height ev')
  ∧ (Height ev < Height ev' →
     String.compare (keyPending ev) (keyPending ev') = Lt).
Proof.
  intros Hr Hr'. split; [apply length_hexFixed|].
  split; [by apply bE_compare|]. by apply keyPending_compare.
Qed.

End KeyOrder.

Section Committed.

Context `{C : Collaborators}.

Lemma keyCommitted_keyPending ev ev' :
  keyCommitted ev = keyCommitted ev' ↔ keyPending ev = keyPending ev'.
Proof.
  unfold keyCommitted, keyPending. split.
  - by intros ->%(inj (String.app baseKeyCommitted)).
  - by intros ->%(inj (String.app baseKeyPending)).
Qed.

(** X18. [CheckEvidence] does not take back what it wrote when a later
    item fails: on a block of new evidence that verifies and can be
    encoded, followed by evidence that is committed and not pending, it
    returns the error of the second item, and the first is pending and
    counted in the pool it leaves. *)
Theorem CheckEvidence_error_keeps_earlier_items ev bad p evBytes :
  isPending p ev = false → isCommitted p ev = false →
  verify p ev = None → encodeEvidence ev = Ok evBytes →
  isPending p bad = false → isCommitted p bad = true →
  ∃ p', CheckEvidence [ev; bad] p
        = (p', Some (ErrInvalidEvidence bad
                       (errors_New "evidence was already committed")))
        ∧ isPending p' ev = true
        ∧ evidenceDB p' = kaidb.Put (evidenceDB p) (keyPending ev) evBytes
        ∧ evidenceSize p' = Go.uint32 (evidenceSize p + 1)
        ∧ evidenceList p' = evidenceList p.
Proof.
  intros Hp Hc Hv Henc Hpb Hcb.
  assert (Hne : keyPending ev ≠ keyPending bad).
  { intros Heq%keyCommitted_keyPending. unfold isCommitted in Hc, Hcb.
    rewrite Heq in Hc. congruence. }
  unfold CheckEvidence. cbn [CheckEvidence_loop].
  unfold checkOne at 1. unfold fastCheck. rewrite Hp, Hc, Hv.
  rewrite (addPendingEvidence_ok _ _ _ Henc).
  set (p1 := logf _ _ _).
  cbn [existsb].
  assert (Hp1 : isPending p1 bad = false).
  { unfold isPending.
    cbn [p1 logf set_evidenceSize set_evidenceDB evidenceDB].
    rewrite Has_Put, (bool_decide_false _ Hne). exact Hpb. }
  assert (Hc1 : isCommitted p1 bad = true).
  { unfold isCommitted.
    cbn [p1 logf set_evidenceSize set_evidenceDB evidenceDB].
    rewrite Has_Put. fold (isCommitted p bad). rewrite Hcb.
    apply orb_true_r. }
  unfold checkOne, fastCheck. rewrite Hp1, Hc1.
  exists p1. split; [done|]. split; [|done].
  unfold isPending. cbn [p1 logf set_evidenceSize set_evidenceDB evidenceDB].
  rewrite Has_Put.
  by rewrite (bool_decide_true (keyPending ev = keyPending ev)).
Qed.

Lemma addPendingEvidence_committed ev p x :
  isCommitted (addPendingEvidence ev p).1 x = isCommitted p x.
Proof.
  unfold addPendingEvidence.
  destruct (EvidenceToProto ev) as [evpb|]; [|done].
  destruct (pb_Marshal evpb) as [bz|]; [|done].
  unfold isCommitted.
  cbn [fst set_evidenceSize set_evidenceDB evidenceDB].
  rewrite Has_Put.
  rewrite (bool_decide_false (keyPending ev = keyCommitted x))
    by apply keyPending_ne_keyCommitted.
  done.
Qed.

Lemma CheckEvidence_loop_committed evList hashes p x :
  isCommitted (CheckEvidence_loop evList hashes p).1 x = isCommitted p x.
Proof.
  revert hashes p. induction evList as [|ev evList IH]; intros hashes p;
    [done|].
  cbn [CheckEvidence_loop].
  pose proof (checkOne_committed ev p x) as H1.
  destruct (checkOne ev p) as [q [e|]]; cbn [fst] in *; [done|].
  destruct (existsb _ hashes); [done|]. by rewrite IH.
Qed.

Lemma removeExpired_committed p x :
  isCommitted (removeExpiredPendingEvidence p).1 x = isCommitted p x.
Proof.
  destruct (removeExpired_DB p) as (gone & HDB & _).
  unfold isCommitted, kaidb.Has.
  by rewrite HDB, foldl_Delete_not_pending
    by apply keyCommitted_not_pending.
Qed.

Lemma markOne_committed q m e x :
  isCommitted (markOne (q, m) e).1 x = true →
  isCommitted q x = true ∨ keyCommitted e = keyCommitted x.
Proof.
  unfold markOne.
  assert (Hq : ∀ q0 : Pool * gset string,
             q0 = (if isPending q e
                   then (removePendingEvidence e q, {[evMapKey e]} ∪ m)
                   else (q, m)) →
             isCommitted q0.1 x = isCommitted q x).
  { intros q0 ->. destruct (isPending q e); [|done].
    unfold isCommitted, removePendingEvidence.
    cbn [fst logf set_evidenceSize set_evidenceDB evidenceDB].
    rewrite Has_Delete.
    rewrite (bool_decide_false (keyPending e = keyCommitted x))
      by apply keyPending_ne_keyCommitted.
    done. }
  specialize (Hq _ eq_refl).
  destruct (if isPending q e then _ else _) as [q1 m1]. cbn [fst] in Hq.
  destruct (UInt64Value_Marshal (Height e)) as [bz|err].
  - unfold isCommitted in *.
    cbn [fst set_evidenceDB evidenceDB]. rewrite Has_Put, Hq.
    intros [Heq%bool_decide_eq_true | H]%orb_true_iff; [by right|by left].
  - cbn [fst]. unfold isCommitted in *. cbn [logf evidenceDB].
    rewrite Hq. by left.
Qed.

Lemma markAll_committed evs q m x :
  isCommitted (foldl markOne (q, m) evs).1 x = true →
  isCommitted q x = true ∨ ∃ e, e ∈ evs ∧ keyCommitted e = keyCommitted x.
Proof.
  revert q m. induction evs as [|e evs IH]; intros q m; [by left|].
  cbn [foldl]. destruct (markOne (q, m) e) as [q1 m1] eqn:E1.
  intros [H|(e' & Hin & Heq)]%IH.
  - pose proof (markOne_committed q m e x) as H1. rewrite E1 in H1.
    destruct (H1 H) as [?|?]; [by left|right].
    exists e. split; [by left|done].
  - right. exists e'. split; [by right|done].
Qed.

(** X19. Evidence is committed by [Update] alone, and through the
    evidence of a block: [AddEvidence], [AddEvidenceFromConsensus],
    [CheckEvidence], [PendingEvidence] and [NewPool] leave the committed
    evidence what it was, and evidence that is committed after an [Update]
    was committed before or has the committed key of an item of the
    block. *)
Theorem committed_only_by_Update p x :
  (∀ ev, isCommitted (AddEvidence ev p).1 x = isCommitted p x)
  ∧ (∀ ev, isCommitted (AddEvidenceFromConsensus ev p).1 x = isCommitted p x)
  ∧ (∀ evList, isCommitted (CheckEvidence evList p).1 x = isCommitted p x)
  ∧ (∀ maxBytes,
       isCommitted (PendingEvidence p maxBytes).1 x = isCommitted p x)
  ∧ (∀ st p', NewPool st (evidenceDB p) = Ok p' →
              isCommitted p' x = isCommitted p x)
  ∧ (∀ st evs p', Update st evs p = Returned p' →
       isCommitted p' x = true →
       isCommitted p x = true
       ∨ ∃ e, e ∈ evs ∧ keyCommitted e = keyCommitted x).
Proof.
  split; [|split; [|split; [|split; [|split]]]].
  - intros ev. unfold AddEvidence.
    set (q := logf LvlDebug "Attempting to add evidence" p).
    destruct (isPending q ev); [done|].
    destruct (isCommitted q ev); [done|].
    destruct (verify q ev); [done|].
    pose proof (addPendingEvidence_committed ev q x) as H.
    by destruct (addPendingEvidence ev q) as [q' [e|]].
  - intros ev. unfold AddEvidenceFromConsensus.
    destruct (isPending p ev); [done|].
    pose proof (addPendingEvidence_committed ev p x) as H.
    by destruct (addPendingEvidence ev p) as [q' [e|]].
  - intros evList. apply CheckEvidence_loop_committed.
  - intros maxBytes. unfold PendingEvidence.
    destruct (Size p =? 0); [done|].
    by destruct (listEvidence p baseKeyPending maxBytes) as [[? ?] [?|]].
  - intros st p'. unfold NewPool.
    set (p0 := mkPool [] [] 0 (evidenceDB p) st 0 0).
    pose proof (removeExpired_committed p0 x) as H.
    destruct (removeExpiredPendingEvidence p0) as [q [h t]].
    cbn [fst] in H.
    destruct (listEvidence _ _ _) as [[evList size] [e|]]; [done|].
    by intros [= <-].
  - intros st evs p'. unfold Update.
    destruct (LastBlockHeight st <=? LastBlockHeight (state p)); [done|].
    set (p0 := updateState st _).
    unfold markEvidenceAsCommitted.
    pose proof (markAll_committed evs p0 ∅ x) as Hm.
    destruct (foldl markOne (p0, ∅) evs) as [q m]. cbn [fst] in Hm.
    set (q1 := removeMarked m q).
    assert (H1 : isCommitted q1 x = isCommitted q x).
    { unfold isCommitted, q1. by rewrite removeMarked_DB. }
    clearbody q1.
    destruct (_ && _ && _).
    + pose proof (removeExpired_committed q1 x) as H2.
      destruct (removeExpiredPendingEvidence q1) as [q2 [h t]].
      cbn [fst] in H2. intros [= <-].
      intros Hx. apply Hm. rewrite <- H1, <- H2. exact Hx.
    + intros [= <-]. rewrite H1. exact Hm.
Qed.

End Committed.

Lemma pending_keys_sort_by_height_witness :
  String.compare (keyPending Examples.ev1) (keyPending Examples.ev2) = Lt.
Proof.
  destruct (pending_keys_sort_by_height Examples.ev1 Examples.ev2)
    as (_ & _ & H); [by vm_compute..|].
  apply H. by vm_compute.
Defined.

Lemma CheckEvidence_error_keeps_earlier_items_witness :
  let p := mkPool [] [] 0
             {[keyCommitted Examples.ev1 := [Byte.x08; Byte.x0a]]}
             (mkState 11 50 Examples.params) 11 50 in
  ∃ p', CheckEvidence (C := Examples.accepting)
          [Examples.ev2; Examples.ev1] p
        = (p', Some (ErrInvalidEvidence Examples.ev1
                       (errors_New "evidence was already committed")))
        ∧ isPending p' Examples.ev2 = true.
Proof.
  intros p.
  destruct (CheckEvidence_error_keeps_earlier_items (C := Examples.accepting)
              Examples.ev2 Examples.ev1 p [Byte.x0b; Byte.x64; Byte.x02])
    as (p' & H & Hp & _); [by vm_compute..|].
  exists p'. split; [exact H|exact Hp].
Defined.

(** ** The properties at the pools of the examples *)

Lemma lowByte_to_N x :
  0 <= x < 256 → Z.of_N (Byte.to_N (Examples.lowByte x)) = x.
Proof.
  intros Hx. unfold Examples.lowByte. rewrite Z.mod_small by done.
  destruct (Byte.of_N (Z.to_N x)) as [b|] eqn:Hb.
  - change (Z.of_N (Byte.to_N b) = x).
    apply Byte.to_of_N in Hb. rewrite Hb. lia.
  - apply Byte.of_N_None_iff in Hb. lia.
Qed.

(** What [Faithful.codec] writes reads back as what was written. *)
Lemma Faithful_roundTrip : codecRoundTrip (C := Faithful.codec).
Proof.
  intros [h t hash] bz. unfold encodeEvidence, bytesToEv.
  cbn [EvidenceToProto pb_Marshal pb_Unmarshal EvidenceFromProto
         Faithful.codec]. unfold Faithful.marshal. cbn [Height Time].
  destruct (Z.leb_spec 0 h); [|done]. destruct (Z.ltb_spec h 256); [|done].
  destruct (Z.leb_spec 0 t); [|done]. destruct (Z.ltb_spec t 256); [|done].
  cbn [andb]. unfold Examples.marshal. cbn [Height Time Hash].
  intros [= <-]. cbn [Examples.unmarshal].
  by rewrite !lowByte_to_N by done.
Qed.

(** The evidence that [Examples.accepting] reads has a height of one
    byte. *)
Lemma accepting_heights db : pendingHeightsInRange (C := Examples.accepting) db.
Proof.
  intros k v ev _ _. unfold bytesToEv.
  cbn [pb_Unmarshal EvidenceFromProto Examples.accepting].
  destruct v as [|h [|t hash]]; [done..|]. cbn [Examples.unmarshal].
  intros [= <-]. cbn [Height].
  pose proof (Byte.to_N_bounded h). lia.
Qed.

Lemma stocked_scan :
  kaidb.NewIterator (evidenceDB Examples.stocked) baseKeyPending
  = [(keyPending Examples.ev1, [Byte.x0a; Byte.x64; Byte.x01]);
     (keyPending Examples.ev2, [Byte.x0b; Byte.x64; Byte.x02]);
     (keyPending Examples.ev3, [Byte.x0c; Byte.xc8; Byte.x03])].
Proof. by vm_compute. Qed.

Lemma stocked_readable :
  allPendingReadable (C := Examples.accepting) (evidenceDB Examples.stocked).
Proof.
  unfold allPendingReadable. rewrite stocked_scan.
  repeat (apply Forall_cons; split; [by eexists|]). apply Forall_nil_2.
Qed.

Lemma stocked_sizeIsCount : sizeIsCount Examples.stocked.
Proof.
  unfold sizeIsCount, pendingCount. rewrite stocked_scan.
  split; [reflexivity|]. by vm_compute.
Qed.

Lemma stocked_listed : listedArePending Examples.stocked.
Proof.
  intros ev Hin.
  assert (Hl : evidenceList Examples.stocked
               = [Examples.ev1; Examples.ev2; Examples.ev3])
    by (vm_compute; reflexivity).
  rewrite Hl in Hin.
  repeat (apply elem_of_cons in Hin as [-> | Hin]; [by vm_compute|]).
  by apply elem_of_nil in Hin.
Qed.

Lemma empty_disjoint : namespacesDisjoint (evidenceDB Examples.empty).
Proof. intros ev Hp _. by vm_compute in Hp. Qed.

Lemma empty_readable :
  allPendingReadable (C := Examples.accepting) (evidenceDB Examples.empty).
Proof. apply Forall_nil_2. Qed.

Lemma PendingEvidence_ascending_height_witness :
  StronglySorted (λ a b, Height a <= Height b)
    (PendingEvidence (C := Examples.accepting) Examples.stocked (-1)).2.1.
Proof.
  apply (PendingEvidence_ascending_height (C := Examples.accepting)
           Examples.stocked (-1));
    [exact stocked_wellKeyed|apply accepting_heights].
Defined.

Lemma listEvidence_capped_is_prefix_witness :
  (listEvidence (C := Examples.accepting) Examples.stocked
     baseKeyPending 11).1.1
  `prefix_of` (listEvidence (C := Examples.accepting) Examples.stocked
                 baseKeyPending (-1)).1.1.
Proof.
  destruct (listEvidence_capped_is_prefix (C := Examples.accepting)
              Examples.stocked 11 stocked_readable) as (_ & _ & H & _).
  exact H.
Defined.

Lemma namespaces_stay_disjoint_witness :
  namespacesDisjoint
    (evidenceDB (AddEvidence (C := Examples.accepting) Examples.ev1
                   Examples.empty).1).
Proof.
  destruct (namespaces_stay_disjoint (C := Examples.accepting)
              Examples.empty empty_disjoint) as (H & _).
  apply H.
Defined.

Lemma Update_commits_block_evidence_witness :
  ∃ p', Update (C := Examples.accepting) (mkState 15 130 Examples.params)
          [Examples.ev2] Examples.stocked = Returned p'
        ∧ isPending p' Examples.ev2 = false
        ∧ isCommitted p' Examples.ev2 = true.
Proof.
  destruct (Update (C := Examples.accepting) (mkState 15 130 Examples.params)
              [Examples.ev2] Examples.stocked) as [p'|msg] eqn:E;
    [|vm_compute in E; discriminate].
  exists p'. split; [reflexivity|].
  destruct (Update_commits_block_evidence (C := Examples.accepting)
              _ _ _ _ E) as (H & _).
  destruct (H Examples.ev2) as (Hp & Hc & _); [by left|].
  split; [exact Hp|]. by eapply Hc.
Defined.

Lemma pending_records_stay_under_their_keys_witness :
  pendingWellKeyed (C := Faithful.codec)
    (evidenceDB (AddEvidence (C := Faithful.codec) Examples.ev1
                   Examples.empty).1).
Proof.
  destruct (pending_records_stay_under_their_keys (C := Faithful.codec)
              Examples.empty Faithful_roundTrip
              (pendingWellKeyed_empty (C := Faithful.codec))) as (H & _).
  apply H.
Defined.

Lemma evidenceSize_counts_pending_records_witness :
  ∃ p', Update (C := Examples.accepting) (mkState 15 130 Examples.params)
          [Examples.ev2] Examples.stocked = Returned p'
        ∧ sizeIsCount p'.
Proof.
  destruct (Update (C := Examples.accepting) (mkState 15 130 Examples.params)
              [Examples.ev2] Examples.stocked) as [p'|msg] eqn:E;
    [|vm_compute in E; discriminate].
  exists p'. split; [reflexivity|].
  destruct (evidenceSize_counts_pending_records (C := Examples.accepting)
              Examples.stocked stocked_sizeIsCount) as (_ & _ & H).
  exact (H _ _ _ stocked_wellKeyed E).
Defined.

Lemma NewPool_rebuilds_list_and_count_witness :
  ∃ p, NewPool (C := Examples.accepting) (mkState 14 120 Examples.params)
         (evidenceDB Examples.stocked) = Ok p
       ∧ evidenceList p
         = readable (C := Examples.accepting)
             (kaidb.NewIterator (evidenceDB p) baseKeyPending).
Proof.
  destruct (NewPool (C := Examples.accepting) (mkState 14 120 Examples.params)
              (evidenceDB Examples.stocked)) as [p|e] eqn:E;
    [|vm_compute in E; discriminate].
  exists p. split; [reflexivity|].
  destruct (NewPool_rebuilds_list_and_count (C := Examples.accepting)
              _ _ _ E) as (_ & _ & _ & H & _).
  exact H.
Defined.

Lemma adding_twice_changes_nothing_witness :
  ∃ p1 p2,
    AddEvidence (C := Examples.accepting) Examples.ev1 Examples.empty
    = (p1, None)
    ∧ AddEvidence (C := Examples.accepting) Examples.ev1 p1 = (p2, None)
    ∧ sameButLog p1 p2.
Proof.
  destruct (AddEvidence (C := Examples.accepting) Examples.ev1 Examples.empty)
    as [p1 [e|]] eqn:E; [vm_compute in E; discriminate|].
  destruct (adding_twice_changes_nothing (C := Examples.accepting)
              Examples.ev1 Examples.empty p1 (or_introl E))
    as ((p2 & H2 & Hsame) & _).
  exists p1, p2. split; [reflexivity|]. split; [exact H2|exact Hsame].
Defined.

Lemma added_evidence_is_listed_witness :
  Examples.ev1
  ∈ (listEvidence (C := Examples.accepting)
       (AddEvidenceFromConsensus (C := Examples.accepting) Examples.ev1
          Examples.empty).1 baseKeyPending (-1)).1.1.
Proof.
  destruct (added_evidence_is_listed (C := Examples.accepting)
              Examples.ev1 Examples.empty [Byte.x0a; Byte.x64; Byte.x01])
    as ((H & _) & _);
    [exact empty_readable|reflexivity|reflexivity|reflexivity|exact H].
Defined.

Lemma listed_evidence_is_pending_witness :
  ∃ p', Update (C := Examples.accepting) (mkState 15 130 Examples.params)
          [Examples.ev2] Examples.stocked = Returned p'
        ∧ listedArePending p'.
Proof.
  destruct (Update (C := Examples.accepting) (mkState 15 130 Examples.params)
              [Examples.ev2] Examples.stocked) as [p'|msg] eqn:E;
    [|vm_compute in E; discriminate].
  exists p'. split; [reflexivity|].
  destruct (listed_evidence_is_pending (C := Examples.accepting)
              Examples.stocked stocked_listed) as (_ & _ & _ & H & _).
  exact (H _ _ _ E).
Defined.

Lemma isExpired_stays_as_chain_grows_witness :
  isExpired Examples.stocked 10 100 = true
  ∧ isExpired (updateState (mkState 15 130 Examples.params) Examples.stocked)
      10 100 = true.
Proof.
  split; [reflexivity|].
  apply (isExpired_stays_as_chain_grows Examples.stocked);
    [reflexivity|by vm_compute|by vm_compute|by vm_compute|reflexivity].
Defined.

Lemma PendingEvidence_uncapped_returns_all_witness :
  Z.of_nat (length (PendingEvidence (C := Examples.accepting)
                      Examples.stocked (-1)).2.1)
  = Size Examples.stocked.
Proof.
  destruct (PendingEvidence_uncapped_returns_all (C := Examples.accepting)
              Examples.stocked stocked_sizeIsCount stocked_readable)
    as (_ & _ & H).
  exact H.
Defined.
